(** * FlowPilot: the task-state machine of [domain/task-store] and the
    orchestration of [application/workflow-service]

    A shallow embedding of the TypeScript sources, and the properties of the
    workflow specification proved (or refuted) over it.

    Layout:
    - JavaScript strings, the data model ([TaskEntry], [ProgressData]);
    - the pure functions of [domain/task-store] on values;
    - the same functions over an explicit object store, where arrays and
      objects are references (used for the non-mutation properties);
    - the persistence port as a state, and [next], [nextBatch], [checkpoint];
    - numbers as text ([makeTaskId], [parseInt]), and the other use cases of
      the service ([init], [resume], [add], [skip], [review], [finish],
      [rollback], [abort]) over the whole port;
    - the theorems. *)

From Stdlib Require Import String Ascii NArith List Lia Relations.
From Stdlib Require DecimalN DecimalPos.
From stdpp Require Import gmap list fin_maps relations.
From Equations Require Import Equations.
Import ListNotations.

(** ** JavaScript strings

    A JavaScript string is a sequence of UTF-16 code units; [length], [slice]
    and [===] all work on code units.  A code unit is a number. *)

Abbreviation jsstring := (list N).

(** An ASCII literal as a JavaScript string. *)
Definition js (s : string) : jsstring :=
  map N_of_ascii (list_ascii_of_string s).
Arguments js s%_string.

(** [s.split('\n')[0]]: the part of [s] before its first line feed. *)
Fixpoint firstLine (s : jsstring) : jsstring :=
  match s with
  | [] => []
  | c :: rest => if N.eqb c 10 then [] else c :: firstLine rest
  end.

(** [s.slice(0, n)]. *)
Definition slice0 (n : nat) (s : jsstring) : jsstring := firstn n s.

(** The code units [String.prototype.trim] strips: WhiteSpace and
    LineTerminator of ECMA-262. *)
Definition isWhiteSpace (c : N) : bool :=
  (N.eqb c 9 || N.eqb c 10 || N.eqb c 11 || N.eqb c 12 || N.eqb c 13
   || N.eqb c 32 || N.eqb c 160 || N.eqb c 5760
   || (N.leb 8192 c && N.leb c 8202)
   || N.eqb c 8232 || N.eqb c 8233 || N.eqb c 8239 || N.eqb c 8287
   || N.eqb c 12288 || N.eqb c 65279)%N.

Fixpoint trimStart (s : jsstring) : jsstring :=
  match s with
  | [] => []
  | c :: rest => if isWhiteSpace c then trimStart rest else s
  end.

(** [s.trim()]. *)
Definition trim (s : jsstring) : jsstring :=
  rev (trimStart (rev (trimStart s))).

(** ** Data model *)

(** Modelled from the spec: the module [domain/types], which declares
    [TaskStatus], [WorkflowStatus], [TaskEntry] and [ProgressData], is not
    among the sources.  The statuses and the fields are those of the data
    model of the specification; they are the ones the sources read, write
    and compare with. *)
Inductive TaskStatus := Pending | Active | Done | Skipped | Failed.
Inductive TaskType := Frontend | Backend | General.
Inductive WorkflowStatus := Idle | Running | Finishing | Completed | Aborted.

#[global] Instance TaskStatus_eq_dec : EqDecision TaskStatus.
Proof. solve_decision. Defined.
#[global] Instance TaskType_eq_dec : EqDecision TaskType.
Proof. solve_decision. Defined.
#[global] Instance WorkflowStatus_eq_dec : EqDecision WorkflowStatus.
Proof. solve_decision. Defined.

(** Modelled from the spec: the fields of a task.  [retries] is a JavaScript
    number that counts attempts; it is a natural number here (numbers are
    exact below 2^53). *)
Record TaskEntry := mkTask {
  t_id : jsstring;
  t_title : jsstring;
  t_description : jsstring;
  t_type : TaskType;
  t_status : TaskStatus;
  t_deps : list jsstring;
  t_summary : jsstring;
  t_retries : nat;
}.

(** Modelled from the spec: the fields of the aggregate; [current] is an id
    or [null]. *)
Record ProgressData := mkProgress {
  p_name : jsstring;
  p_status : WorkflowStatus;
  p_current : option jsstring;
  p_tasks : list TaskEntry;
}.

#[global] Instance TaskEntry_eq_dec : EqDecision TaskEntry.
Proof. solve_decision. Defined.
#[global] Instance ProgressData_eq_dec : EqDecision ProgressData.
Proof. solve_decision. Defined.

(** Object spread with overrides: [{ ...t }], [{ ...t, status }],
    [{ ...t, status, summary }], [{ ...t, retries, status }]. *)
Definition spread (t : TaskEntry) : TaskEntry :=
  mkTask (t_id t) (t_title t) (t_description t) (t_type t) (t_status t)
         (t_deps t) (t_summary t) (t_retries t).

Definition withStatus (t : TaskEntry) (s : TaskStatus) : TaskEntry :=
  mkTask (t_id t) (t_title t) (t_description t) (t_type t) s
         (t_deps t) (t_summary t) (t_retries t).

Definition withStatusSummary (t : TaskEntry) (s : TaskStatus) (sm : jsstring)
  : TaskEntry :=
  mkTask (t_id t) (t_title t) (t_description t) (t_type t) s
         (t_deps t) sm (t_retries t).

Definition withRetriesStatus (t : TaskEntry) (r : nat) (s : TaskStatus)
  : TaskEntry :=
  mkTask (t_id t) (t_title t) (t_description t) (t_type t) s
         (t_deps t) (t_summary t) r.

(** ** Outcomes

    A call returns, throws an [Error], or does not return.  The message of an
    error is kept as its kind and the values interpolated into it. *)

Inductive error :=
  | ENoWorkflow
  | EStillActive (n : nat) (ids : list jsstring)
  | ECyclic (cycle : list jsstring)
  | ETaskNotFound (id : jsstring)
  | ETaskNotActive (id : jsstring) (st : TaskStatus)
  | ECheckpointEmpty (id : jsstring).

Inductive outcome (A : Type) :=
  | Ret (a : A)
  | Throw (e : error)
  | Diverge.
Arguments Ret {A} a.
Arguments Throw {A} e.
Arguments Diverge {A}.

(** ** [domain/task-store], on values *)

Module TaskStore.

(** [buildIndex]: a [Map] filled in sequence order, so that the last task with
    a given id is the one the id resolves to. *)
Definition buildIndex (tasks : list TaskEntry) : gmap jsstring TaskEntry :=
  fold_left (fun m t => <[t_id t := t]> m) tasks ∅.

(** [isAllDone]. *)
Definition isTerminal (s : TaskStatus) : bool :=
  match s with Done | Skipped | Failed => true | _ => false end.

Definition isAllDone (tasks : list TaskEntry) : bool :=
  forallb (fun t => isTerminal (t_status t)) tasks.

(** [completeTask]. *)
Definition completeTask (data : ProgressData) (id : jsstring) (summary : jsstring)
  : outcome ProgressData :=
  let idx := buildIndex (p_tasks data) in
  match idx !! id with
  | None => Throw (ETaskNotFound id)
  | Some _ =>
      Ret (mkProgress (p_name data) (p_status data) None
             (map (fun t => if decide (t_id t = id)
                            then withStatusSummary t Done summary else t)
                  (p_tasks data)))
  end.

(** [failTask]. *)
Inductive FailResult := Retry | Skip.

Definition failTask (data : ProgressData) (id : jsstring)
  : outcome (FailResult * ProgressData) :=
  let idx := buildIndex (p_tasks data) in
  match idx !! id with
  | None => Throw (ETaskNotFound id)
  | Some old =>
      let retries := t_retries old + 1 in
      if 3 <=? retries then
        Ret (Skip,
             mkProgress (p_name data) (p_status data) None
               (map (fun t => if decide (t_id t = id)
                              then withRetriesStatus t retries Failed else t)
                    (p_tasks data)))
      else
        Ret (Retry,
             mkProgress (p_name data) (p_status data) None
               (map (fun t => if decide (t_id t = id)
                              then withRetriesStatus t retries Pending else t)
                    (p_tasks data)))
  end.

(** [resumeProgress].  The callback of [map] assigns the captured variable
    [firstId] while [!firstId] holds, that is while it is [null] or the empty
    string. *)
Definition falsyId (o : option jsstring) : bool :=
  match o with None => true | Some [] => true | Some _ => false end.

Fixpoint resumeMap (tasks : list TaskEntry) (firstId : option jsstring)
  : list TaskEntry * option jsstring :=
  match tasks with
  | [] => ([], firstId)
  | t :: rest =>
      if decide (t_status t = Active) then
        let firstId' := if falsyId firstId then Some (t_id t) else firstId in
        let '(rest', fid) := resumeMap rest firstId' in
        (withStatus t Pending :: rest', fid)
      else
        let '(rest', fid) := resumeMap rest firstId in
        (t :: rest', fid)
  end.

Definition resumeProgress (data : ProgressData)
  : ProgressData * option jsstring :=
  let hasActive := existsb (fun t => bool_decide (t_status t = Active))
                           (p_tasks data) in
  if negb hasActive then
    (data, if decide (p_status data = Running) then p_current data else None)
  else
    let '(tasks, firstId) := resumeMap (p_tasks data) None in
    (mkProgress (p_name data) Running None tasks, firstId).

(** [cascadeSkip].  One round of the [while] loop builds the index once and
    then runs the [for] loop, which replaces [result[i]] in place; the index
    keeps pointing at the objects of the beginning of the round. *)
Definition skipSummary : jsstring :=
  [20381; 36182; 20219; 21153; 22833; 36133; 65292; 24050; 36339; 36807]%N.

Definition blocked (idx : gmap jsstring TaskEntry) (t : TaskEntry) : bool :=
  existsb (fun d => match idx !! d with
                    | Some dep => bool_decide (t_status dep = Failed)
                                  || bool_decide (t_status dep = Skipped)
                    | None => false
                    end) (t_deps t).

(** The [for] loop from index [i], with [n] iterations left. *)
Fixpoint cascadeFor (idx : gmap jsstring TaskEntry) (n i : nat)
    (result : list TaskEntry) (changed : bool) : list TaskEntry * bool :=
  match n with
  | 0 => (result, changed)
  | S n' =>
      match result !! i with
      | None => (result, changed)
      | Some t =>
          if negb (bool_decide (t_status t = Pending)) then
            cascadeFor idx n' (S i) result changed
          else if blocked idx t then
            cascadeFor idx n' (S i)
              (<[i := withStatusSummary t Skipped skipSummary]> result) true
          else cascadeFor idx n' (S i) result changed
      end
  end.

Definition cascadeRound (result : list TaskEntry) : list TaskEntry * bool :=
  cascadeFor (buildIndex result) (length result) 0 result false.

Definition countPending (tasks : list TaskEntry) : nat :=
  length (filter (fun t => t_status t = Pending) tasks).

(** What one round does to each task, and whether it changes any. *)
Definition needsSkip (idx : gmap jsstring TaskEntry) (t : TaskEntry) : bool :=
  bool_decide (t_status t = Pending) && blocked idx t.

Definition cascadeStep (idx : gmap jsstring TaskEntry) (t : TaskEntry)
  : TaskEntry :=
  if needsSkip idx t then withStatusSummary t Skipped skipSummary else t.

(** Termination of the [while] loop: the [for] loop rewrites each task with
    [cascadeStep], and a round that changes a task has one pending task
    less. *)
Lemma cascadeFor_spec idx n i (result : list TaskEntry) changed :
  i + n = length result ->
  cascadeFor idx n i result changed =
    (take i result ++ map (cascadeStep idx) (drop i result),
     changed || existsb (needsSkip idx) (drop i result)).
Proof.
  revert i result changed.
  induction n as [|n IH]; intros i result changed Hlen; simpl.
  - rewrite Nat.add_0_r in Hlen. subst i.
    rewrite drop_all, firstn_all, app_nil_r, orb_false_r. reflexivity.
  - destruct (lookup_lt_is_Some_2 result i) as [t Ht]; [lia|].
    rewrite Ht, (drop_S _ _ _ Ht). simpl.
    unfold cascadeStep at 1, needsSkip at 1 2.
    destruct (bool_decide (t_status t = Pending)); simpl.
    + destruct (blocked idx t); simpl.
      * rewrite IH by (rewrite length_insert; lia).
        rewrite (take_S_r _ _ (withStatusSummary t Skipped skipSummary))
          by (apply list_lookup_insert_eq; apply lookup_lt_Some in Ht; lia).
        rewrite take_insert_ge by lia.
        rewrite drop_insert_lt by lia.
        rewrite <- app_assoc. simpl. rewrite orb_true_r. reflexivity.
      * rewrite IH by lia. rewrite (take_S_r _ _ _ Ht), <- app_assoc.
        reflexivity.
    + rewrite IH by lia. rewrite (take_S_r _ _ _ Ht), <- app_assoc.
      reflexivity.
Qed.

Lemma cascadeRound_spec (result : list TaskEntry) :
  cascadeRound result =
    (map (cascadeStep (buildIndex result)) result,
     existsb (needsSkip (buildIndex result)) result).
Proof.
  unfold cascadeRound. rewrite cascadeFor_spec by lia.
  rewrite take_0, drop_0. reflexivity.
Qed.

Lemma countPending_step idx (l : list TaskEntry) :
  countPending (map (cascadeStep idx) l) <= countPending l /\
  (existsb (needsSkip idx) l = true ->
   countPending (map (cascadeStep idx) l) < countPending l).
Proof.
  unfold countPending.
  induction l as [|t l [IH1 IH2]]; simpl; [split; [lia|discriminate]|].
  unfold cascadeStep at 1 3. rewrite !filter_cons.
  destruct (needsSkip idx t) eqn:Hn; simpl.
  - apply andb_true_iff in Hn as [Hp _]. apply bool_decide_eq_true in Hp.
    rewrite decide_True by assumption. simpl. split; lia.
  - destruct (decide (t_status t = Pending)); simpl; split; try lia.
    all: intros H; specialize (IH2 H); lia.
Qed.

(** The [while (changed)] loop.  A round that changes something turns at
    least one pending task into a skipped one, which bounds the rounds. *)
Equations? cascadeWhile (result : list TaskEntry) : list TaskEntry
  by wf (countPending result) lt :=
  cascadeWhile result
    with Equations.Prop.Logic.inspect (cascadeRound result) := {
    | exist _ (result', true) E => cascadeWhile result';
    | exist _ (result', false) E => result' }.
Proof.
  rewrite cascadeRound_spec in E. inversion E; subst.
  apply countPending_step. assumption.
Qed.

Definition cascadeSkip (tasks : list TaskEntry) : list TaskEntry :=
  cascadeWhile (map spread tasks).

(** [detectCycles].  The closure [dfs] shares three mutable collections,
    threaded here as a state.  Recursion depth is bounded by a fuel; a call
    that runs out of it, like a path reconstruction that never meets [dep],
    yields [None]. *)
Record DfsState := mkDfs {
  visited : gset jsstring;
  inStack : gset jsstring;
  parent : gmap jsstring jsstring;
}.

(** [while (cur !== dep) { path.push(cur); cur = parent.get(cur)!; }] *)
Fixpoint climb (fuel : nat) (par : gmap jsstring jsstring)
    (dep cur : jsstring) (path : list jsstring) : option (list jsstring) :=
  if decide (cur = dep) then Some path
  else match fuel with
       | 0 => None
       | S fuel' =>
           match par !! cur with
           | None => None
           | Some p => climb fuel' par dep p (path ++ [cur])
           end
       end.

Definition DfsResult : Type := option (option (list jsstring) * DfsState).

(** [for (const dep of task.deps) ...] inside [dfs(id)]; [rec] is the
    recursive call. *)
Fixpoint visitDeps (rec : jsstring -> DfsState -> DfsResult)
    (id : jsstring) (deps : list jsstring) (st : DfsState) : DfsResult :=
  match deps with
  | [] => Some (None, st)
  | dep :: rest =>
      if decide (dep ∉ visited st) then
        match rec dep (mkDfs (visited st) (inStack st)
                             (<[dep := id]> (parent st))) with
        | None => None
        | Some (Some cycle, st') => Some (Some cycle, st')
        | Some (None, st') => visitDeps rec id rest st'
        end
      else if decide (dep ∈ inStack st) then
        match climb (size (parent st)) (parent st) dep id [dep] with
        | None => None
        | Some path => Some (Some (rev (path ++ [dep])), st)
        end
      else visitDeps rec id rest st
  end.

Fixpoint dfs (fuel : nat) (idx : gmap jsstring TaskEntry)
    (id : jsstring) (st : DfsState) : DfsResult :=
  match fuel with
  | 0 => None
  | S fuel' =>
      let st1 := mkDfs ({[id]} ∪ visited st) ({[id]} ∪ inStack st)
                       (parent st) in
      match idx !! id with
      | Some task =>
          match visitDeps (dfs fuel' idx) id (t_deps task) st1 with
          | None => None
          | Some (Some cycle, st') => Some (Some cycle, st')
          | Some (None, st') =>
              Some (None, mkDfs (visited st') (inStack st' ∖ {[id]})
                                (parent st'))
          end
      | None =>
          Some (None, mkDfs (visited st1) (inStack st1 ∖ {[id]})
                            (parent st1))
      end
  end.

(** [for (const t of tasks) if (!visited.has(t.id)) ...] *)
Fixpoint dfsRoots (fuel : nat) (idx : gmap jsstring TaskEntry)
    (tasks : list TaskEntry) (st : DfsState) : option (option (list jsstring)) :=
  match tasks with
  | [] => Some None
  | t :: rest =>
      if decide (t_id t ∉ visited st) then
        match dfs fuel idx (t_id t) st with
        | None => None
        | Some (Some cycle, _) => Some (Some cycle)
        | Some (None, st') => dfsRoots fuel idx rest st'
        end
      else dfsRoots fuel idx rest st
  end.

(** Every id the traversal can meet: ids of tasks and of dependencies. *)
Definition idUniverse (tasks : list TaskEntry) : gset jsstring :=
  list_to_set (map t_id tasks) ∪ list_to_set (concat (map t_deps tasks)).

Definition detectCycles (tasks : list TaskEntry)
  : option (option (list jsstring)) :=
  dfsRoots (size (idUniverse tasks)) (buildIndex tasks) tasks
           (mkDfs ∅ ∅ ∅).

(** [findNextTask]. *)
Definition isPending (t : TaskEntry) : bool :=
  bool_decide (t_status t = Pending).

Definition depDone (idx : gmap jsstring TaskEntry) (d : jsstring) : bool :=
  match idx !! d with
  | Some dep => bool_decide (t_status dep = Done)
  | None => false
  end.

Fixpoint firstReady (idx : gmap jsstring TaskEntry) (tasks : list TaskEntry)
  : option TaskEntry :=
  match tasks with
  | [] => None
  | t :: rest =>
      if negb (isPending t) then firstReady idx rest
      else if forallb (depDone idx) (t_deps t) then Some t
      else firstReady idx rest
  end.

Definition findNextTask (tasks : list TaskEntry)
  : outcome (option TaskEntry) :=
  let pending := List.filter isPending tasks in
  match detectCycles pending with
  | None => Diverge
  | Some (Some cycle) => Throw (ECyclic cycle)
  | Some None => Ret (firstReady (buildIndex tasks) tasks)
  end.

(** [findParallelTasks].  Dependencies are resolved with [tasks.find], the
    first task with the id; the value of the inner [cascadeSkip(tasks)] is
    dropped. *)
Definition depDoneFind (tasks : list TaskEntry) (d : jsstring) : bool :=
  match List.find (fun x => bool_decide (t_id x = d)) tasks with
  | Some dep => bool_decide (t_status dep = Done)
  | None => false
  end.

Definition findParallelTasks (tasks : list TaskEntry)
  : outcome (list TaskEntry) :=
  let pending := List.filter isPending tasks in
  match detectCycles pending with
  | None => Diverge
  | Some (Some cycle) => Throw (ECyclic cycle)
  | Some None =>
      let _ := cascadeSkip tasks in
      Ret (List.filter
             (fun t => isPending t && forallb (depDoneFind tasks) (t_deps t))
             tasks)
  end.

End TaskStore.

(** ** The dependency graph of an index

    [x] has an edge to [y] when [x] resolves to a task that lists [y] among
    its dependencies. *)

Module Graph.
Section graph.
Context (idx : gmap jsstring TaskEntry).

Definition edge (x y : jsstring) : Prop :=
  exists t, idx !! x = Some t /\ y ∈ t_deps t.

(** [linked x l]: [x], then the elements of [l], follow edges. *)
Fixpoint linked (x : jsstring) (l : list jsstring) : Prop :=
  match l with
  | [] => True
  | y :: l' => edge x y /\ linked y l'
  end.

(** A cycle as [detectCycles] reports it: it starts and ends at the same
    id and follows dependency edges. *)
Definition isCycle (c : list jsstring) : Prop :=
  exists x l, c = x :: l ++ [x] /\ linked x (l ++ [x]).

Definition hasCycle : Prop := exists x, tc edge x x.
End graph.
End Graph.


(** ** [domain/task-store], over an object store

    Here a task, an array of tasks and an aggregate are references into a
    store, as JavaScript objects are; object spread and [map] allocate, and
    [result[i] = ...] writes into an array.  The fields of a task are kept by
    value: no function of the module writes into a [deps] array or into a
    field of an existing object.  A read through a reference that the store
    does not hold, which JavaScript rules out, is rendered as [Diverge]. *)

Module Heap.
Import TaskStore.

Abbreviation loc := positive.

Record ProgObj := mkProgObj {
  o_name : jsstring;
  o_status : WorkflowStatus;
  o_current : option jsstring;
  o_tasks : loc;
}.

Record Store := mkStore {
  s_tasks : gmap loc TaskEntry;
  s_arrays : gmap loc (list loc);
  s_progs : gmap loc ProgObj;
}.

Definition H (A : Type) : Type := Store -> outcome (A * Store).

Definition hret {A} (a : A) : H A := fun s => Ret (a, s).
Definition hthrow {A} (e : error) : H A := fun _ => Throw e.
Definition hbind {A B} (m : H A) (k : A -> H B) : H B :=
  fun s => match m s with
           | Ret (a, s') => k a s'
           | Throw e => Throw e
           | Diverge => Diverge
           end.
#[global] Instance H_ret : MRet H := @hret.
#[global] Instance H_bind : MBind H := fun A B k m => hbind m k.

Definition allocTask (t : TaskEntry) : H loc :=
  fun s => let l := fresh (dom (s_tasks s)) in
           Ret (l, mkStore (<[l := t]> (s_tasks s)) (s_arrays s) (s_progs s)).
Definition readTask (l : loc) : H TaskEntry :=
  fun s => match s_tasks s !! l with
           | Some t => Ret (t, s)
           | None => Diverge
           end.
Definition allocArray (ls : list loc) : H loc :=
  fun s => let a := fresh (dom (s_arrays s)) in
           Ret (a, mkStore (s_tasks s) (<[a := ls]> (s_arrays s)) (s_progs s)).
Definition readArray (a : loc) : H (list loc) :=
  fun s => match s_arrays s !! a with
           | Some ls => Ret (ls, s)
           | None => Diverge
           end.
(** [a[i] = v], for an index within the array. *)
Definition writeArray (a : loc) (i : nat) (v : loc) : H unit :=
  fun s => match s_arrays s !! a with
           | Some ls =>
               Ret (tt, mkStore (s_tasks s) (<[a := <[i := v]> ls]> (s_arrays s))
                                (s_progs s))
           | None => Diverge
           end.
Definition allocProg (o : ProgObj) : H loc :=
  fun s => let p := fresh (dom (s_progs s)) in
           Ret (p, mkStore (s_tasks s) (s_arrays s) (<[p := o]> (s_progs s))).
Definition readProg (p : loc) : H ProgObj :=
  fun s => match s_progs s !! p with
           | Some o => Ret (o, s)
           | None => Diverge
           end.

(** [buildIndex]: the map holds references. *)
Fixpoint buildIndexFrom (ls : list loc) (m : gmap jsstring loc)
  : H (gmap jsstring loc) :=
  match ls with
  | [] => mret m
  | l :: rest => t ← readTask l; buildIndexFrom rest (<[t_id t := l]> m)
  end.

Definition buildIndex (ls : list loc) : H (gmap jsstring loc) :=
  buildIndexFrom ls ∅.

(** [tasks.map(cb)] on the elements. *)
Fixpoint mapRefs (cb : loc -> H loc) (ls : list loc) : H (list loc) :=
  match ls with
  | [] => mret []
  | l :: rest => l' ← cb l; rest' ← mapRefs cb rest; mret (l' :: rest')
  end.

(** [cascadeSkip]. *)
Fixpoint blocked (idx : gmap jsstring loc) (deps : list jsstring) : H bool :=
  match deps with
  | [] => mret false
  | d :: rest =>
      match idx !! d with
      | Some l =>
          dep ← readTask l;
          if bool_decide (t_status dep = Failed)
             || bool_decide (t_status dep = Skipped)
          then mret true else blocked idx rest
      | None => blocked idx rest
      end
  end.

Fixpoint cascadeFor (idx : gmap jsstring loc) (n i : nat) (result : loc)
    (changed : bool) : H bool :=
  match n with
  | 0 => mret changed
  | S n' =>
      ls ← readArray result;
      match ls !! i with
      | None => mret changed
      | Some l =>
          t ← readTask l;
          if negb (bool_decide (t_status t = Pending)) then
            cascadeFor idx n' (S i) result changed
          else
            b ← blocked idx (t_deps t);
            if b : bool then
              l' ← allocTask (withStatusSummary t Skipped skipSummary);
              writeArray result i l';;
              cascadeFor idx n' (S i) result true
            else cascadeFor idx n' (S i) result changed
      end
  end.

Definition cascadeRound (result : loc) : H bool :=
  ls ← readArray result;
  idx ← buildIndex ls;
  cascadeFor idx (length ls) 0 result false.

Fixpoint cascadeWhile (fuel : nat) (result : loc) : H loc :=
  match fuel with
  | 0 => fun _ => Diverge
  | S fuel' =>
      changed ← cascadeRound result;
      if changed : bool then cascadeWhile fuel' result else mret result
  end.

Definition cascadeSkip (tasks : loc) : H loc :=
  ls ← readArray tasks;
  copies ← mapRefs (fun l => t ← readTask l; allocTask (spread t)) ls;
  result ← allocArray copies;
  cascadeWhile (S (length ls)) result.

(** [completeTask]. *)
Definition completeTask (data : loc) (id summary : jsstring) : H loc :=
  o ← readProg data;
  ls ← readArray (o_tasks o);
  idx ← buildIndex ls;
  match idx !! id with
  | None => hthrow (ETaskNotFound id)
  | Some _ =>
      ls' ← mapRefs (fun l => t ← readTask l;
                              if decide (t_id t = id)
                              then allocTask (withStatusSummary t Done summary)
                              else mret l) ls;
      tasks ← allocArray ls';
      allocProg (mkProgObj (o_name o) (o_status o) None tasks)
  end.

(** [failTask]. *)
Definition failTask (data : loc) (id : jsstring) : H (FailResult * loc) :=
  o ← readProg data;
  ls ← readArray (o_tasks o);
  idx ← buildIndex ls;
  match idx !! id with
  | None => hthrow (ETaskNotFound id)
  | Some oldRef =>
      old ← readTask oldRef;
      let retries := t_retries old + 1 in
      let st := if 3 <=? retries then Failed else Pending in
      ls' ← mapRefs (fun l => t ← readTask l;
                              if decide (t_id t = id)
                              then allocTask (withRetriesStatus t retries st)
                              else mret l) ls;
      tasks ← allocArray ls';
      p ← allocProg (mkProgObj (o_name o) (o_status o) None tasks);
      mret (if 3 <=? retries then Skip else Retry, p)
  end.

(** [resumeProgress]. *)
Fixpoint hasActive (ls : list loc) : H bool :=
  match ls with
  | [] => mret false
  | l :: rest =>
      t ← readTask l;
      if bool_decide (t_status t = Active) then mret true else hasActive rest
  end.

Fixpoint resumeMap (ls : list loc) (firstId : option jsstring)
  : H (list loc * option jsstring) :=
  match ls with
  | [] => mret ([], firstId)
  | l :: rest =>
      t ← readTask l;
      if decide (t_status t = Active) then
        let firstId' := if falsyId firstId then Some (t_id t) else firstId in
        l' ← allocTask (withStatus t Pending);
        r ← resumeMap rest firstId';
        mret (l' :: fst r, snd r)
      else
        r ← resumeMap rest firstId;
        mret (l :: fst r, snd r)
  end.

Definition resumeProgress (data : loc) : H (loc * option jsstring) :=
  o ← readProg data;
  ls ← readArray (o_tasks o);
  active ← hasActive ls;
  if negb active : bool then
    mret (data, if decide (o_status o = Running) then o_current o else None)
  else
    r ← resumeMap ls None;
    tasks ← allocArray (fst r);
    p ← allocProg (mkProgObj (o_name o) Running None tasks);
    mret (p, snd r).

(** What a reference denotes in a store. *)
Definition viewTasks (s : Store) (ls : list loc) : option (list TaskEntry) :=
  mapM (fun l => s_tasks s !! l) ls.

Definition viewArray (s : Store) (a : loc) : option (list TaskEntry) :=
  ls ← s_arrays s !! a; viewTasks s ls.

Definition viewProg (s : Store) (p : loc) : option ProgressData :=
  o ← s_progs s !! p;
  ts ← viewArray s (o_tasks o);
  Some (mkProgress (o_name o) (o_status o) (o_current o) ts).

(** Every object of [s] is in [s'], with the same content. *)
Definition unchanged (s s' : Store) : Prop :=
  s_tasks s ⊆ s_tasks s' /\ s_arrays s ⊆ s_arrays s' /\ s_progs s ⊆ s_progs s'.

End Heap.

(** ** [application/workflow-service]

    The persistence port is a state: what [loadProgress] returns, the
    summary, the task contexts, and the sequence of calls made to the port
    and to the hook runner.  Its operations are taken to succeed; a command
    run outside (git, a hook) is an event, and its answer where the
    orchestrator uses one is a parameter. *)

Module Service.
Import TaskStore.

Inductive HookName := OnTaskStart | OnTaskComplete | OnWorkflowFinish.

Inductive event :=
  | EvLock
  | EvUnlock
  | EvLoadProgress
  | EvSaveProgress (data : ProgressData)
  | EvLoadSummary
  | EvSaveSummary (text : jsstring)
  | EvLoadTaskContext (id : jsstring)
  | EvSaveTaskContext (id : jsstring) (text : jsstring)
  | EvCommit (id title summary : jsstring) (files : option (list jsstring))
  | EvTag (id : jsstring)
  | EvHook (name : HookName) (taskId taskTitle : jsstring).

Record Repo := mkRepo {
  r_progress : option ProgressData;
  r_summary : jsstring;
  r_context : gmap jsstring jsstring;
  r_trace : list event;
}.

(** Computations over the port: state and exceptions.  The state survives
    a throw, as effects already performed do. *)
Definition M (A : Type) : Type := Repo -> outcome A * Repo.

Definition ret {A} (a : A) : M A := fun r => (Ret a, r).
Definition throw {A} (e : error) : M A := fun r => (Throw e, r).
Definition bind {A B} (m : M A) (k : A -> M B) : M B :=
  fun r => match m r with
           | (Ret a, r') => k a r'
           | (Throw e, r') => (Throw e, r')
           | (Diverge, r') => (Diverge, r')
           end.
Definition lift {A} (o : outcome A) : M A := fun r => (o, r).

(** [try { body } finally { fin }], for a [fin] that does not throw. *)
Definition finally {A} (body : M A) (fin : M unit) : M A :=
  fun r => let '(o, r') := body r in
           match o with
           | Diverge => (Diverge, r')
           | _ => (o, snd (fin r'))
           end.

#[global] Instance M_ret : MRet M := @ret.
#[global] Instance M_bind : MBind M := fun A B k m => bind m k.

Definition emit (e : event) (r : Repo) : Repo :=
  mkRepo (r_progress r) (r_summary r) (r_context r) (r_trace r ++ [e]).

Definition lock : M unit := fun r => (Ret tt, emit EvLock r).
Definition unlock : M unit := fun r => (Ret tt, emit EvUnlock r).
Definition loadProgress : M (option ProgressData) :=
  fun r => (Ret (r_progress r), emit EvLoadProgress r).
Definition saveProgress (data : ProgressData) : M unit :=
  fun r => (Ret tt, mkRepo (Some data) (r_summary r) (r_context r)
                           (r_trace r ++ [EvSaveProgress data])).
Definition loadSummary : M jsstring :=
  fun r => (Ret (r_summary r), emit EvLoadSummary r).
Definition saveSummary (text : jsstring) : M unit :=
  fun r => (Ret tt, mkRepo (r_progress r) text (r_context r)
                           (r_trace r ++ [EvSaveSummary text])).
Definition loadTaskContext (id : jsstring) : M (option jsstring) :=
  fun r => (Ret (r_context r !! id), emit (EvLoadTaskContext id) r).
Definition saveTaskContext (id text : jsstring) : M unit :=
  fun r => (Ret tt, mkRepo (r_progress r) (r_summary r)
                           (<[id := text]> (r_context r))
                           (r_trace r ++ [EvSaveTaskContext id text])).
Definition runLifecycleHook (name : HookName) (taskId taskTitle : jsstring)
  : M unit :=
  fun r => (Ret tt, emit (EvHook name taskId taskTitle) r).
Definition tag (id : jsstring) : M unit := fun r => (Ret tt, emit (EvTag id) r).

(** [requireProgress]. *)
Definition requireProgress : M ProgressData :=
  data ← loadProgress;
  match data with
  | None => throw ENoWorkflow
  | Some d => ret d
  end.

(** [parts.join('\n\n---\n\n')]. *)
Definition separator : jsstring := [10; 10; 45; 45; 45; 10; 10]%N.

Fixpoint join (sep : jsstring) (parts : list jsstring) : jsstring :=
  match parts with
  | [] => []
  | [p] => p
  | p :: rest => p ++ sep ++ join sep rest
  end.

(** [for (const depId of task.deps) { ctx = await loadTaskContext(depId);
    if (ctx) parts.push(ctx); }] *)
Fixpoint loadDepContexts (deps : list jsstring) (parts : list jsstring)
  : M (list jsstring) :=
  match deps with
  | [] => ret parts
  | depId :: rest =>
      ctx ← loadTaskContext depId;
      match ctx with
      | Some (c :: cs) => loadDepContexts rest (parts ++ [c :: cs])
      | _ => loadDepContexts rest parts
      end
  end.

Definition truthyPart (s : jsstring) : list jsstring :=
  match s with [] => [] | _ => [s] end.

Definition activeTasks (tasks : list TaskEntry) : list TaskEntry :=
  List.filter (fun t => bool_decide (t_status t = Active)) tasks.

(** [next]. *)
Definition next : M (option (TaskEntry * jsstring)) :=
  lock;;
  finally
    (data ← requireProgress;
     if isAllDone (p_tasks data) then ret None
     else
       let active := activeTasks (p_tasks data) in
       if negb (Nat.eqb (length active) 0) then
         throw (EStillActive (length active) (map t_id active))
       else
         let cascaded := cascadeSkip (p_tasks data) in
         task ← lift (findNextTask cascaded);
         match task with
         | None =>
             saveProgress (mkProgress (p_name data) (p_status data)
                                      (p_current data) cascaded);;
             ret None
         | Some task =>
             let activated :=
               map (fun t => if decide (t_id t = t_id task)
                             then withStatus t Active else t) cascaded in
             saveProgress (mkProgress (p_name data) (p_status data)
                                      (Some (t_id task)) activated);;
             runLifecycleHook OnTaskStart (t_id task) (t_title task);;
             summary ← loadSummary;
             parts ← loadDepContexts (t_deps task) (truthyPart summary);
             ret (Some (task, join separator parts))
         end)
    unlock.

(** [nextBatch]. *)
Fixpoint startHooks (tasks : list TaskEntry) : M unit :=
  match tasks with
  | [] => ret tt
  | t :: rest =>
      runLifecycleHook OnTaskStart (t_id t) (t_title t);; startHooks rest
  end.

Fixpoint batchContexts (summary : jsstring) (tasks : list TaskEntry)
    (results : list (TaskEntry * jsstring)) : M (list (TaskEntry * jsstring)) :=
  match tasks with
  | [] => ret results
  | task :: rest =>
      parts ← loadDepContexts (t_deps task) (truthyPart summary);
      batchContexts summary rest (results ++ [(task, join separator parts)])
  end.

Definition nextBatch : M (list (TaskEntry * jsstring)) :=
  lock;;
  finally
    (data ← requireProgress;
     if isAllDone (p_tasks data) then ret []
     else
       let active := activeTasks (p_tasks data) in
       if negb (Nat.eqb (length active) 0) then
         throw (EStillActive (length active) (map t_id active))
       else
         let cascaded := cascadeSkip (p_tasks data) in
         tasks ← lift (findParallelTasks cascaded);
         match tasks with
         | [] =>
             saveProgress (mkProgress (p_name data) (p_status data)
                                      (p_current data) cascaded);;
             ret []
         | first :: _ =>
             let activeIds : gset jsstring := list_to_set (map t_id tasks) in
             let activated :=
               map (fun t => if decide (t_id t ∈ activeIds)
                             then withStatus t Active else t) cascaded in
             saveProgress (mkProgress (p_name data) (p_status data)
                                      (Some (t_id first)) activated);;
             startHooks tasks;;
             summary ← loadSummary;
             batchContexts summary tasks []
         end)
    unlock.

(** What [checkpoint] answers; the text is fixed by these values ([commitErr]
    is tested for truth, so that an empty answer counts as no error). *)
Inductive CheckpointMsg :=
  | MsgRetry (id : jsstring) (attempt : nat) (warn : option jsstring)
  | MsgSkipped (id : jsstring) (warn : option jsstring)
  | MsgDone (id : jsstring) (doneCount total : nat)
            (commitErr : option jsstring) (allDone : bool).

Definition sentinelFailed : jsstring := Eval cbv in js "FAILED".

(** Collaborators of [checkpoint] whose text or answer lies outside the
    model: the failure record and the repeated-failure warning, the text of
    the rolling summary, the text of a task context, and the answer of the
    git commit. *)
Record Externals := mkExternals {
  failureRecord : option jsstring -> TaskEntry -> jsstring -> jsstring;
  failurePattern : option jsstring -> TaskEntry -> option jsstring;
  summaryText : ProgressData -> list (option jsstring) -> jsstring;
  contextText : jsstring -> jsstring -> jsstring -> jsstring;
  commitAnswer : jsstring -> jsstring -> jsstring ->
                 option (list jsstring) -> option jsstring;
}.

Section checkpoint.
Context (ext : Externals).

(** Modelled from the spec: [appendFailureContext] and
    [detectFailurePattern] are private methods absent from the sources; the
    first records the failure in the context of the task, the second
    compares it with the earlier record and may answer a warning. *)
Definition appendFailureContext (id : jsstring) (task : TaskEntry)
    (detail : jsstring) : M unit :=
  ctx ← loadTaskContext id;
  saveTaskContext id (failureRecord ext ctx task detail).

Definition detectFailurePattern (id : jsstring) (task : TaskEntry)
  : M (option jsstring) :=
  ctx ← loadTaskContext id;
  ret (failurePattern ext ctx task).

(** [updateSummary]: reads the context of every done task and saves the
    recomputed text. *)
Fixpoint loadContexts (tasks : list TaskEntry) (acc : list (option jsstring))
  : M (list (option jsstring)) :=
  match tasks with
  | [] => ret acc
  | t :: rest =>
      ctx ← loadTaskContext (t_id t);
      loadContexts rest (acc ++ [ctx])
  end.

Definition doneTasks (tasks : list TaskEntry) : list TaskEntry :=
  List.filter (fun t => bool_decide (t_status t = Done)) tasks.

Definition updateSummary (data : ProgressData) : M unit :=
  ctxs ← loadContexts (doneTasks (p_tasks data)) [];
  saveSummary (summaryText ext data ctxs).

Definition commit (id title summary : jsstring)
    (files : option (list jsstring)) : M (option jsstring) :=
  fun r => (Ret (commitAnswer ext id title summary files),
            emit (EvCommit id title summary files) r).

(** [checkpoint]. *)
Definition checkpoint (id detail : jsstring) (files : option (list jsstring))
  : M CheckpointMsg :=
  lock;;
  finally
    (data ← requireProgress;
     match List.find (fun t => bool_decide (t_id t = id)) (p_tasks data) with
     | None => throw (ETaskNotFound id)
     | Some task =>
         if negb (bool_decide (t_status task = Active)) then
           throw (ETaskNotActive id (t_status task))
         else if bool_decide (detail = sentinelFailed) then
           appendFailureContext id task detail;;
           patternWarn ← detectFailurePattern id task;
           rd ← lift (failTask data id);
           let '(result, newData) := rd in
           saveProgress newData;;
           ret (match result with
                | Retry => MsgRetry id (t_retries task + 1) patternWarn
                | Skip => MsgSkipped id patternWarn
                end)
         else if bool_decide (trim detail = []) then
           throw (ECheckpointEmpty id)
         else
           let summaryLine := slice0 80 (firstLine detail) in
           newData ← lift (completeTask data id summaryLine);
           saveProgress newData;;
           saveTaskContext id (contextText ext id (t_title task) detail);;
           updateSummary newData;;
           commitErr ← commit id (t_title task) summaryLine files;
           (match commitErr with
            | Some (_ :: _) => ret tt
            | _ => tag id
            end);;
           runLifecycleHook OnTaskComplete id (t_title task);;
           ret (MsgDone id (length (doneTasks (p_tasks newData)))
                        (length (p_tasks newData)) commitErr
                        (isAllDone (p_tasks newData)))
     end)
    unlock.

End checkpoint.
End Service.

(** ** Selection, as the specification words it *)

Module Selection.
Import TaskStore.

(** A task is ready when it is pending and each of its dependency ids
    resolves to a task whose status is done; an id that resolves to nothing
    does not count as done. *)
Definition ready (tasks : list TaskEntry) (t : TaskEntry) : Prop :=
  t_status t = Pending /\
  forall d, d ∈ t_deps t ->
    exists u, buildIndex tasks !! d = Some u /\ t_status u = Done.

(** [r] is the first ready task of [tasks] in stored order, or [None] when
    no task is ready. *)
Definition firstReadyOf (tasks : list TaskEntry) (r : option TaskEntry) : Prop :=
  match r with
  | Some t => exists pre post, tasks = pre ++ t :: post /\ ready tasks t /\
                               forall u, u ∈ pre -> ~ ready tasks u
  | None => forall u, u ∈ tasks -> ~ ready tasks u
  end.

(** The dependency graph among the pending tasks. *)
Definition pendingGraph (tasks : list TaskEntry) : gmap jsstring TaskEntry :=
  buildIndex (List.filter isPending tasks).

End Selection.

(** ** Cascade skip, as the specification words it *)

Module CascadeSpec.
Import TaskStore.

(** A task once the cascade has skipped it. *)
Definition skipT (t : TaskEntry) : TaskEntry :=
  withStatusSummary t Skipped skipSummary.

(** A pending task is doomed when one of its dependencies resolves to a
    failed or skipped task, or to a task that is doomed itself. *)
Inductive willSkip (tasks : list TaskEntry) : TaskEntry -> Prop :=
  | ws_direct t d u :
      t_status t = Pending -> d ∈ t_deps t ->
      buildIndex tasks !! d = Some u ->
      t_status u = Failed \/ t_status u = Skipped ->
      willSkip tasks t
  | ws_chain t d u :
      t_status t = Pending -> d ∈ t_deps t ->
      buildIndex tasks !! d = Some u ->
      willSkip tasks u ->
      willSkip tasks t.

(** The invariant of the rounds: a task is either untouched or a doomed
    task that was skipped. *)
Definition skipsOnlyDoomed (tasks : list TaskEntry)
    (G : TaskEntry -> TaskEntry) : Prop :=
  forall t, G t = t \/ (willSkip tasks t /\ G t = skipT t).

(** The dependency set of [t] reaches [u] through any number of dependency
    edges, whatever the status of the tasks in between. *)
Definition reaches (tasks : list TaskEntry) (t u : TaskEntry) : Prop :=
  exists d x, d ∈ t_deps t /\ rtc (Graph.edge (buildIndex tasks)) d x /\
              buildIndex tasks !! x = Some u.

End CascadeSpec.

(** ** Lifecycle transitions, as the specification words them *)

Module TransitionSpec.
Import TaskStore.

(** What a failed attempt does to the task it names. *)
Definition failedOnce (t : TaskEntry) : TaskEntry :=
  withRetriesStatus t (t_retries t + 1)
    (if 3 <=? t_retries t + 1 then Failed else Pending).

Definition failVerdict (t : TaskEntry) : FailResult :=
  if 3 <=? t_retries t + 1 then Skip else Retry.

Definition uniqueIds (tasks : list TaskEntry) : Prop := NoDup (map t_id tasks).

(** What resuming does to a task. *)
Definition resetActive (t : TaskEntry) : TaskEntry :=
  if decide (t_status t = Active) then withStatus t Pending else t.

End TransitionSpec.

(** ** The orchestrator, as the specification words it *)

Module ServiceSpec.
Import TaskStore Service.

Definition notSave (e : event) : Prop :=
  match e with EvSaveProgress _ => False | _ => True end.

(** A computation that returns, leaves the stored progress alone and does
    not call [saveProgress]. *)
Definition quiet {A} (m : M A) : Prop :=
  forall r, exists a r' evs,
    m r = (Ret a, r') /\ r_progress r' = r_progress r /\
    r_trace r' = r_trace r ++ evs /\ Forall notSave evs.

(** C7 as worded: the progress with the cascaded tasks was handed to
    [saveProgress] during the call. *)
Definition savedCascade (repo r' : Repo) : Prop :=
  exists data,
    r_progress repo = Some data /\
    In (EvSaveProgress (mkProgress (p_name data) (p_status data)
                          (p_current data) (cascadeSkip (p_tasks data))))
       (r_trace r').

(** The state of the port after a call that locked, read and unlocked. *)
Definition readOnly (repo : Repo) : Repo :=
  mkRepo (r_progress repo) (r_summary repo) (r_context repo)
         (r_trace repo ++ [EvLock; EvLoadProgress; EvUnlock]).

(** The task an id denotes for [checkpoint]: the first one that carries it. *)
Definition firstWithId (tasks : list TaskEntry) (id : jsstring)
    (t : TaskEntry) : Prop :=
  exists pre post, tasks = pre ++ t :: post /\ t_id t = id /\
                   forall u, u ∈ pre -> t_id u <> id.

(** The aggregate a successful checkpoint stores. *)
Definition completed (data : ProgressData) (id summary : jsstring)
  : ProgressData :=
  mkProgress (p_name data) (p_status data) None
    (map (fun t => if decide (t_id t = id)
                   then withStatusSummary t Done summary else t)
         (p_tasks data)).

(** The sentinel of a failed attempt, spelled out: F, A, I, L, E, D. *)
Definition failedWord : jsstring := [70; 65; 73; 76; 69; 68]%N.

(** The code units that trimming removes: tab, line feed, vertical tab,
    form feed, carriage return, space, no-break space, U+1680, U+2000 to
    U+200A, U+2028, U+2029, U+202F, U+205F, U+3000 and U+FEFF. *)
Definition blankUnits : list N :=
  [9; 10; 11; 12; 13; 32; 160; 5760;
   8192; 8193; 8194; 8195; 8196; 8197; 8198; 8199; 8200; 8201; 8202;
   8232; 8233; 8239; 8287; 12288; 65279]%N.

(** A detail is blank after trimming when it holds nothing else. *)
Definition blank (s : jsstring) : Prop := Forall (fun c => c ∈ blankUnits) s.

(** [line] is the first line of [s]: it holds no line feed, and [s] is
    [line] alone or [line], a line feed and the rest. *)
Definition firstLineOf (s line : jsstring) : Prop :=
  (10%N ∉ line) /\ (s = line \/ exists rest, s = line ++ 10%N :: rest).

(** [cut] is [line] truncated to [n] code units: the beginning of [line],
    of length [n], or all of [line] when it is shorter. *)
Definition truncatedTo (n : nat) (line cut : jsstring) : Prop :=
  exists rest, line = cut ++ rest /\ length cut = Nat.min n (length line).

Section checkpoint.
Context (ext : Externals).

(** The body of [checkpoint] cut in two, to reason about it piece by piece
    ([checkpoint_unfold] shows that it is the same computation): what
    follows [saveProgress] on the success path, *)
Definition afterComplete (id detail : jsstring) (files : option (list jsstring))
    (task : TaskEntry) (summaryLine : jsstring) (newData : ProgressData)
  : M CheckpointMsg :=
  saveTaskContext id (contextText ext id (t_title task) detail);;
  updateSummary ext newData;;
  commitErr ← commit ext id (t_title task) summaryLine files;
  (match commitErr with
   | Some (_ :: _) => mret tt
   | _ => tag id
   end);;
  runLifecycleHook OnTaskComplete id (t_title task);;
  mret (MsgDone id (length (doneTasks (p_tasks newData)))
                (length (p_tasks newData)) commitErr
                (isAllDone (p_tasks newData))).

(** and what [checkpoint] does once the progress is read and the task
    found. *)
Definition checkpointBody (data : ProgressData) (id detail : jsstring)
    (files : option (list jsstring)) (task : TaskEntry) : M CheckpointMsg :=
  if negb (bool_decide (t_status task = Active)) then
    throw (ETaskNotActive id (t_status task))
  else if bool_decide (detail = sentinelFailed) then
    appendFailureContext ext id task detail;;
    patternWarn ← detectFailurePattern ext id task;
    rd ← lift (failTask data id);
    let '(result, newData) := rd in
    saveProgress newData;;
    mret (match result with
          | Retry => MsgRetry id (t_retries task + 1) patternWarn
          | Skip => MsgSkipped id patternWarn
          end)
  else if bool_decide (trim detail = []) then
    throw (ECheckpointEmpty id)
  else
    let summaryLine := slice0 80 (firstLine detail) in
    newData ← lift (completeTask data id summaryLine);
    saveProgress newData;;
    afterComplete id detail files task summaryLine newData.

End checkpoint.
End ServiceSpec.

(** ** The object store: what references denote *)

Module HeapSpec.
Import Heap.

Implicit Types (s : Store) (ls : list loc) (ts : list TaskEntry).

(** [ls] are references to the tasks [ts]. *)
Definition denotes s ls ts : Prop :=
  Forall2 (fun l t => s_tasks s !! l = Some t) ls ts.

(** Only task objects were added. *)
Definition taskExt s s' : Prop :=
  s_tasks s ⊆ s_tasks s' /\ s_arrays s' = s_arrays s /\ s_progs s' = s_progs s.

(** The index of references denotes the index of values. *)
Definition indexView s (idxh : gmap jsstring loc)
    (idx : gmap jsstring TaskEntry) : Prop :=
  forall d, match idxh !! d with
            | Some l => exists u, s_tasks s !! l = Some u /\ idx !! d = Some u
            | None => idx !! d = None
            end.

(** The state of the loops on the fresh array [r]: tasks were added, and the
    slots of [r] may have been written. *)
Definition roundExt (r : loc) s s' (cur' : list loc) : Prop :=
  s_tasks s ⊆ s_tasks s' /\ s_progs s' = s_progs s /\
  s_arrays s' = <[r := cur']> (s_arrays s).

End HeapSpec.

(** ** The invariant of the depth-first traversal *)

Module DfsInvariant.
Import TaskStore Graph.

Section invariant.
Context (idx : gmap jsstring TaskEntry).
Context (U : gset jsstring).
Implicit Types (x y id dep : jsstring) (l stk : list jsstring).
Implicit Types (st : DfsState) (par : gmap jsstring jsstring).

(** The recursion stack, bottom first: each element is a dependency of
    the one below it, which is its [parent]. *)
Fixpoint chained par l : Prop :=
  match l with
  | [] => True
  | a :: l' =>
      match l' with
      | [] => True
      | b :: _ => edge idx a b /\ par !! b = Some a
      end /\ chained par l'
  end.

(** Finished nodes: visited and no longer on the stack. *)
Definition black st x : Prop := x ∈ visited st /\ x ∉ inStack st.

(** The invariant of the traversal, for a recursion stack [stk]. *)
Record Inv st stk : Prop := {
  inv_nodup : NoDup stk;
  inv_stack : inStack st = list_to_set stk;
  inv_sub : inStack st ⊆ visited st;
  inv_chain : chained (parent st) stk;
  inv_closed : forall x y, black st x -> edge idx x y -> black st y;
  inv_acyclic : forall x, black st x -> ~ tc (edge idx) x x;
}.

(** What a call [dfs(id)] establishes, and when a call is answered. *)
Definition dfsPost st stk id (res : option (list jsstring) * DfsState) : Prop :=
  match res with
  | (Some c, _) => isCycle idx c
  | (None, st') =>
      Inv st' stk /\ visited st ⊆ visited st' /\ id ∈ visited st' /\
      inStack st' = inStack st
  end.

Definition dfsOk (fuel : nat) (rec : jsstring -> DfsState -> DfsResult) : Prop :=
  forall id st stk,
    Inv st stk -> id ∉ visited st -> chained (parent st) (stk ++ [id]) ->
    id ∈ U -> size (U ∖ visited st) <= fuel ->
    exists res, rec id st = Some res /\ dfsPost st stk id res.

End invariant.
End DfsInvariant.

(** ** Sample workflows *)

Module Examples.
Import TaskStore Heap Service.

(** The task builder of the test suite: title [task-<id>], type general,
    empty summary, no retries. *)
Definition task (id : jsstring) (st : TaskStatus) (deps : list jsstring)
  : TaskEntry :=
  mkTask id (js "task-" ++ id) [] General st deps [] 0.

Definition prog (tasks : list TaskEntry) : ProgressData :=
  mkProgress (js "test") Running None tasks.

Definition i001 : jsstring := Eval cbv in js "001".
Definition i002 : jsstring := Eval cbv in js "002".
Definition i003 : jsstring := Eval cbv in js "003".
Definition i004 : jsstring := Eval cbv in js "004".

(** 001 done, 002 and 003 wait for it. *)
Definition fanOut : list TaskEntry :=
  [task i001 Done []; task i002 Pending [i001]; task i003 Pending [i001]].

(** 001 failed, 002 and 003 hang on it in a chain. *)
Definition failedChain : list TaskEntry :=
  [task i001 Failed []; task i002 Pending [i001]; task i003 Pending [i002]].

(** 001 failed, 002 done although it depends on 001, 003 waits for 002. *)
Definition doneInBetween : list TaskEntry :=
  [task i001 Failed []; task i002 Done [i001]; task i003 Pending [i002]].

(** 001 failed and 002 hangs on it; 003 and 004 wait for each other. *)
Definition skipAndCycle : list TaskEntry :=
  [task i001 Failed []; task i002 Pending [i001];
   task i003 Pending [i004]; task i004 Pending [i003]].

Definition oneActive : list TaskEntry := [task i001 Active []].

Definition twoActive : list TaskEntry :=
  [task i001 Active []; task i002 Active []; task i003 Done []].

Definition repoOf (tasks : list TaskEntry) : Repo :=
  mkRepo (Some (prog tasks)) [] ∅ [].

(** A store that holds the aggregate [prog oneActive] at reference 1. *)
Definition storeOneActive : Store :=
  mkStore {[1%positive := task i001 Active []]}
          {[1%positive := [1%positive]]}
          {[1%positive := mkProgObj (js "test") Running None 1%positive]}.

(** A store that holds the array [failedChain] at reference 1. *)
Definition storeFailedChain : Store :=
  mkStore (<[1%positive := task i001 Failed []]>
           (<[2%positive := task i002 Pending [i001]]>
            {[3%positive := task i003 Pending [i002]]}))
          {[1%positive := [1%positive; 2%positive; 3%positive]]}
          ∅.

(** A detail of two lines, and collaborators that answer nothing. *)
Definition detailTwoLines : jsstring :=
  Eval cbv in js "done" ++ [10%N] ++ js "more".

(** A detail whose first line has a hundred code units (the letter a), and
    one made of a space, a tab, a line feed and an ideographic space. *)
Definition longDetail : jsstring :=
  repeat 97%N 100 ++ [10%N] ++ js "more".

Definition blankDetail : jsstring := [32; 9; 10; 12288]%N.

Definition silent : Externals :=
  mkExternals (fun _ _ d => d) (fun _ _ => None) (fun _ _ => [])
              (fun _ _ d => d) (fun _ _ _ _ => None).

End Examples.


(** ** Numbers and task ids

    The numbers met here are integers or [NaN]: array indices, the values
    [parseInt] answers, their maximum and successor.  A JavaScript number
    is exact below 2^53, and its decimal form is plain digits below 10^21;
    it is an integer of any size here, [None] standing for [NaN]. *)

Module Numbers.

Definition isDigit (c : N) : bool := (N.leb 48 c && N.leb c 57)%N.

(** The code units of a sequence of decimal digits. *)
Fixpoint unitsOf (d : Decimal.uint) : jsstring :=
  match d with
  | Decimal.Nil => []
  | Decimal.D0 d => 48%N :: unitsOf d
  | Decimal.D1 d => 49%N :: unitsOf d
  | Decimal.D2 d => 50%N :: unitsOf d
  | Decimal.D3 d => 51%N :: unitsOf d
  | Decimal.D4 d => 52%N :: unitsOf d
  | Decimal.D5 d => 53%N :: unitsOf d
  | Decimal.D6 d => 54%N :: unitsOf d
  | Decimal.D7 d => 55%N :: unitsOf d
  | Decimal.D8 d => 56%N :: unitsOf d
  | Decimal.D9 d => 57%N :: unitsOf d
  end.

(** [String(n)]. *)
Definition toString (n : option Z) : jsstring :=
  match n with
  | None => js "NaN"
  | Some (Zneg p) => 45%N :: unitsOf (Pos.to_uint p)
  | Some z => unitsOf (N.to_uint (Z.to_N z))
  end.

(** [s.padStart(n, c)] for a filler [c] of one code unit. *)
Definition padStart (n : nat) (c : N) (s : jsstring) : jsstring :=
  repeat c (n - length s) ++ s.

(** [makeTaskId]. *)
Definition makeTaskId (n : option Z) : jsstring :=
  padStart 3 48%N (toString n).

(** [parseInt(s, 10)]: leading white space is skipped, then an optional
    sign, then the longest run of decimal digits is read; [NaN] when there
    is no digit.  ([-0] is not told apart from [0]: the sources only
    compare and add.) *)
Definition digitOf (c : N) : option (Decimal.uint -> Decimal.uint) :=
  match c with
  | 48%N => Some Decimal.D0
  | 49%N => Some Decimal.D1
  | 50%N => Some Decimal.D2
  | 51%N => Some Decimal.D3
  | 52%N => Some Decimal.D4
  | 53%N => Some Decimal.D5
  | 54%N => Some Decimal.D6
  | 55%N => Some Decimal.D7
  | 56%N => Some Decimal.D8
  | 57%N => Some Decimal.D9
  | _ => None
  end.

Fixpoint digitsPrefix (s : jsstring) : Decimal.uint :=
  match s with
  | [] => Decimal.Nil
  | c :: rest =>
      match digitOf c with
      | Some d => d (digitsPrefix rest)
      | None => Decimal.Nil
      end
  end.

Definition parseInt (s : jsstring) : option Z :=
  let s1 := trimStart s in
  let '(negative, s2) :=
    match s1 with
    | 45%N :: rest => (true, rest)
    | 43%N :: rest => (false, rest)
    | _ => (false, s1)
    end in
  match digitsPrefix s2 with
  | Decimal.Nil => None
  | d => let v := Z.of_N (N.of_uint d) in
         Some (if negative : bool then (- v)%Z else v)
  end.




(** The id [init] and the parser give to the task at position [i]. *)
Definition idAt (i : nat) : jsstring := makeTaskId (Some (Z.of_nat (i + 1))).

End Numbers.

(** ** The task sequence as a dependency graph *)

Module StoreSpec.
Import TaskStore.

(** What a task is apart from its progress: the fields no transition
    writes. *)
Definition shape (t : TaskEntry)
  : jsstring * jsstring * jsstring * TaskType * list jsstring :=
  (t_id t, t_title t, t_description t, t_type t, t_deps t).

(** Every dependency names a task of the sequence. *)
Definition noDangling (tasks : list TaskEntry) : Prop :=
  forall t d, t ∈ tasks -> d ∈ t_deps t -> d ∈ map t_id tasks.

Definition noneActive (tasks : list TaskEntry) : Prop :=
  forall t, t ∈ tasks -> t_status t <> Active.

(** No pending task has a dependency that resolves to a failed or skipped
    task. *)
Definition unblocked (tasks : list TaskEntry) : Prop :=
  forall t d u, t ∈ tasks -> t_status t = Pending -> d ∈ t_deps t ->
    buildIndex tasks !! d = Some u ->
    t_status u <> Failed /\ t_status u <> Skipped.

(** The test of [findNextTask] on one task. *)
Definition readyb (tasks : list TaskEntry) (t : TaskEntry) : bool :=
  isPending t && forallb (depDone (buildIndex tasks)) (t_deps t).

End StoreSpec.

(** ** The orchestrator: what a call leaves behind *)

Module PortSpec.
Import TaskStore Service.

(** The contexts [loadDepContexts] keeps: those that exist and are not
    empty, in the order of the dependencies. *)
Definition depParts (ctx : gmap jsstring jsstring) (deps : list jsstring)
  : list jsstring :=
  omap (fun d => match ctx !! d with
                 | Some (c :: cs) => Some (c :: cs)
                 | _ => None
                 end) deps.

(** The context handed out with a task: the summary, if any, and the
    contexts of its dependencies, joined by the separator. *)
Definition contextOf (r : Repo) (task : TaskEntry) : jsstring :=
  join separator (truthyPart (r_summary r) ++ depParts (r_context r) (t_deps task)).

(** The aggregate stored when nothing can be selected, and when a task or
    a batch is handed out. *)
Definition cascaded (data : ProgressData) : ProgressData :=
  mkProgress (p_name data) (p_status data) (p_current data)
             (cascadeSkip (p_tasks data)).

Definition started (data : ProgressData) (task : TaskEntry) : ProgressData :=
  mkProgress (p_name data) (p_status data) (Some (t_id task))
    (map (fun t => if decide (t_id t = t_id task) then withStatus t Active else t)
         (cascadeSkip (p_tasks data))).

Definition startedBatch (data : ProgressData) (first : TaskEntry)
    (batch : list TaskEntry) : ProgressData :=
  mkProgress (p_name data) (p_status data) (Some (t_id first))
    (map (fun t => if decide (t_id t ∈ (list_to_set (map t_id batch)
                                          : gset jsstring))
                   then withStatus t Active else t)
         (cascadeSkip (p_tasks data))).

(** The port with another stored progress and more calls made. *)
Definition after (r : Repo) (stored : option ProgressData) (evs : list event)
  : Repo :=
  mkRepo stored (r_summary r) (r_context r) (r_trace r ++ evs).

(** A call takes the lock first and releases it last, once. *)
Definition noLock (e : event) : Prop := e <> EvLock /\ e <> EvUnlock.

Definition bracketed (r r' : Repo) : Prop :=
  exists evs, r_trace r' = r_trace r ++ EvLock :: evs ++ [EvUnlock] /\
              Forall noLock evs.

(** A computation that ends, by a value or an error, without touching the
    lock. *)
Definition calm {A} (m : M A) : Prop :=
  forall r, exists o r' evs,
    m r = (o, r') /\ o <> Diverge /\
    r_trace r' = r_trace r ++ evs /\ Forall noLock evs.

(** The calls a failed attempt must not make: no commit, no tag, no hook,
    no new summary. *)
Definition quietEvent (e : event) : Prop :=
  match e with
  | EvCommit _ _ _ _ | EvTag _ | EvHook _ _ _ | EvSaveSummary _ => False
  | _ => True
  end.

End PortSpec.

(** ** [application/workflow-service]: the other use cases

    [init], [resume], [add], [skip], [review], [finish], [rollback],
    [abort] and [status] use more of the port than [next] and [checkpoint]
    do: the task file, the injected protocol and hooks, verification, git
    clean-up, tags and roll-back, and the removal of the whole store.  The
    port is therefore a larger state here, with the same progress, summary
    and contexts, and a sequence of calls in which those of the first model
    are embedded.  As there, its operations are taken to succeed, and the
    answer of a command run outside is a parameter. *)

Module Lifecycle.
Import TaskStore Numbers.

(** Modelled from the spec: [domain/workflow], which declares the result of
    the parser, is not among the sources; these are the fields [init]
    reads. *)
Record TaskDefinition := mkTaskDef {
  td_title : jsstring;
  td_description : jsstring;
  td_type : TaskType;
  td_deps : list jsstring;
}.

Record WorkflowDefinition := mkWorkflowDef {
  wd_name : jsstring;
  wd_description : jsstring;
  wd_tasks : list TaskDefinition;
}.

(** [VerifyResult] of [domain/repository]. *)
Record VerifyResult := mkVerify {
  v_passed : bool;
  v_scripts : list jsstring;
  v_error : option jsstring;
}.

Inductive call :=
  | Port (e : Service.event)
  | SaveTasks (content : jsstring)
  | EnsureClaudeMd
  | EnsureHooks
  | Cleanup
  | Verify
  | FinishHook (workflowName : jsstring)
  | CleanupInjections
  | CleanTags
  | ClearAll
  | RollbackTo (id : jsstring).

Record World := mkWorld {
  w_progress : option ProgressData;
  w_summary : jsstring;
  w_context : gmap jsstring jsstring;
  w_tasksMd : option jsstring;
  w_calls : list call;
}.

(** The errors of these use cases: those of the first model, a workflow
    already running, tasks not finished, a task that is not done. *)
Inductive failure :=
  | Raised (e : error)
  | EAlreadyRunning (name : jsstring)
  | EUnfinished
  | ETaskNotDone (id : jsstring) (st : TaskStatus).

Inductive result (A : Type) :=
  | Ok (a : A)
  | Fail (f : failure).
Arguments Ok {A} a.
Arguments Fail {A} f.

Definition L (A : Type) : Type := World -> result A * World.

Definition ret {A} (a : A) : L A := fun w => (Ok a, w).
Definition throw {A} (f : failure) : L A := fun w => (Fail f, w).
Definition bind {A B} (m : L A) (k : A -> L B) : L B :=
  fun w => match m w with
           | (Ok a, w') => k a w'
           | (Fail f, w') => (Fail f, w')
           end.

(** [try { body } finally { fin }], for a [fin] that does not throw. *)
Definition finally {A} (body : L A) (fin : L unit) : L A :=
  fun w => let '(o, w') := body w in (o, snd (fin w')).

#[global] Instance L_ret : MRet L := @ret.
#[global] Instance L_bind : MBind L := fun A B k m => bind m k.

Definition log (c : call) (w : World) : World :=
  mkWorld (w_progress w) (w_summary w) (w_context w) (w_tasksMd w)
          (w_calls w ++ [c]).

Definition lock : L unit := fun w => (Ok tt, log (Port Service.EvLock) w).
Definition unlock : L unit := fun w => (Ok tt, log (Port Service.EvUnlock) w).
Definition loadProgress : L (option ProgressData) :=
  fun w => (Ok (w_progress w), log (Port Service.EvLoadProgress) w).
Definition saveProgress (data : ProgressData) : L unit :=
  fun w => (Ok tt, mkWorld (Some data) (w_summary w) (w_context w)
                           (w_tasksMd w)
                           (w_calls w ++ [Port (Service.EvSaveProgress data)])).
Definition saveSummary (text : jsstring) : L unit :=
  fun w => (Ok tt, mkWorld (w_progress w) text (w_context w) (w_tasksMd w)
                           (w_calls w ++ [Port (Service.EvSaveSummary text)])).
Definition saveTasks (content : jsstring) : L unit :=
  fun w => (Ok tt, mkWorld (w_progress w) (w_summary w) (w_context w)
                           (Some content) (w_calls w ++ [SaveTasks content])).
Definition cleanup : L unit := fun w => (Ok tt, log Cleanup w).
Definition cleanupInjections : L unit :=
  fun w => (Ok tt, log CleanupInjections w).
Definition cleanTags : L unit := fun w => (Ok tt, log CleanTags w).
Definition ensureHooks : L unit := fun w => (Ok tt, log EnsureHooks w).
Definition runFinishHook (name : jsstring) : L unit :=
  fun w => (Ok tt, log (FinishHook name) w).

(** [clearAll] removes the store: no progress, no summary, no context and
    no task file are left to load. *)
Definition clearAll : L unit :=
  fun w => (Ok tt, mkWorld None [] ∅ None (w_calls w ++ [ClearAll])).

(** [requireProgress]. *)
Definition requireProgress : L ProgressData :=
  data ← loadProgress;
  match data with
  | None => throw (Raised ENoWorkflow)
  | Some d => ret d
  end.

(** The parser given to the service, and the answers of the commands run
    outside: verification, the git roll-back, the final commit, and whether
    the protocol file was written. *)
Record Outside := mkOutside {
  parse : jsstring -> WorkflowDefinition;
  verifyAnswer : VerifyResult;
  rollbackAnswer : jsstring -> option jsstring;
  finalCommitAnswer : jsstring -> jsstring -> jsstring -> option jsstring;
  wroteClaudeMd : bool;
}.

(** A string or [null] tested for truth. *)
Definition truthy (o : option jsstring) : bool := negb (falsyId o).

Definition doneCount (tasks : list TaskEntry) : nat :=
  length (List.filter (fun t => bool_decide (t_status t = Done)) tasks).

Section usecases.
Context (out : Outside).

Definition ensureClaudeMd : L bool :=
  fun w => (Ok (wroteClaudeMd out), log EnsureClaudeMd w).
Definition verify : L VerifyResult :=
  fun w => (Ok (verifyAnswer out), log Verify w).
Definition commit (id title summary : jsstring) : L (option jsstring) :=
  fun w => (Ok (finalCommitAnswer out id title summary),
            log (Port (Service.EvCommit id title summary None)) w).

(** [init]. *)
Definition newTask (i : nat) (t : TaskDefinition) : TaskEntry :=
  mkTask (idAt i) (td_title t) (td_description t) (td_type t) Pending
         (td_deps t) [] 0.

Definition init (tasksMd : jsstring) (force : bool) : L ProgressData :=
  existing ← loadProgress;
  let refused :=
    match existing with
    | Some e => bool_decide (p_status e = Running) && negb force
    | None => false
    end in
  if refused then
    throw (EAlreadyRunning (from_option p_name [] existing))
  else
    let def := parse out tasksMd in
    let tasks := imap newTask (wd_tasks def) in
    let data := mkProgress (wd_name def) Running None tasks in
    saveProgress data;;
    saveTasks tasksMd;;
    saveSummary ([35; 32]%N ++ wd_name def ++ [10; 10]%N
                 ++ wd_description def ++ [10]%N);;
    ensureClaudeMd;;
    ensureHooks;;
    ret data.

(** [resume]; what it answers is fixed by these values. *)
Inductive ResumeMsg :=
  | ResumeNoWorkflow
  | ResumeIdle
  | ResumeCompleted
  | ResumeFinishing (name : jsstring)
  | ResumeReset (name : jsstring) (done total : nat) (resetId : jsstring)
  | ResumeContinue (name : jsstring) (done total : nat).

Definition resume : L ResumeMsg :=
  data ← loadProgress;
  match data with
  | None => ret ResumeNoWorkflow
  | Some data =>
      match p_status data with
      | Idle => ret ResumeIdle
      | Completed => ret ResumeCompleted
      | Finishing => ret (ResumeFinishing (p_name data))
      | _ =>
          let '(newData, resetId) := resumeProgress data in
          saveProgress newData;;
          (if truthy resetId then cleanup else ret tt);;
          let done := doneCount (p_tasks newData) in
          let total := length (p_tasks newData) in
          ret (if truthy resetId
               then ResumeReset (p_name newData) done total
                                (default [] resetId)
               else ResumeContinue (p_name newData) done total)
      end
  end.



(** [skip].  The task found is an element of the array, and it is written
    in place: the first task with the id changes. *)
Definition manualSkip : jsstring := [25163; 21160; 36339; 36807]%N.

Fixpoint writeFirst (id : jsstring) (f : TaskEntry -> TaskEntry)
    (tasks : list TaskEntry) : list TaskEntry :=
  match tasks with
  | [] => []
  | t :: rest => if bool_decide (t_id t = id) then f t :: rest
                 else t :: writeFirst id f rest
  end.

Inductive SkipMsg :=
  | SkipNotNeeded (id : jsstring)
  | SkipDone (id title : jsstring) (wasActive : bool).

Definition skip (id : jsstring) : L SkipMsg :=
  lock;;
  finally
    (data ← requireProgress;
     match List.find (fun t => bool_decide (t_id t = id)) (p_tasks data) with
     | None => throw (Raised (ETaskNotFound id))
     | Some task =>
         if bool_decide (t_status task = Done) then ret (SkipNotNeeded id)
         else
           let written :=
             writeFirst id (fun t => withStatusSummary t Skipped manualSkip)
                        (p_tasks data) in
           saveProgress (mkProgress (p_name data) (p_status data) None written);;
           ret (SkipDone id (t_title task)
                         (bool_decide (t_status task = Active)))
     end)
    unlock.



(** [finish]. *)
Definition countWith (st : TaskStatus) (tasks : list TaskEntry) : nat :=
  length (List.filter (fun t => bool_decide (t_status t = st)) tasks).

Definition natText (n : nat) : jsstring := toString (Some (Z.of_nat n)).

(** [[`${done} done`, skipped ? `${skipped} skipped` : '',
      failed ? `${failed} failed` : ''].filter(Boolean).join(', ')]. *)
Definition statsText (tasks : list TaskEntry) : jsstring :=
  let skipped := countWith Skipped tasks in
  let failed := countWith Failed tasks in
  Service.join [44; 32]%N
    ([natText (countWith Done tasks) ++ [32; 100; 111; 110; 101]%N]
     ++ (if Nat.eqb skipped 0 then []
         else [natText skipped ++ [32; 115; 107; 105; 112; 112; 101; 100]%N])
     ++ (if Nat.eqb failed 0 then []
         else [natText failed ++ [32; 102; 97; 105; 108; 101; 100]%N])).

(** [done.map(t => `- ${t.id}: ${t.title}`).join('\n')]. *)
Definition titlesText (tasks : list TaskEntry) : jsstring :=
  Service.join [10]%N
    (map (fun t => [45; 32]%N ++ t_id t ++ [58; 32]%N ++ t_title t)
         (List.filter (fun t => bool_decide (t_status t = Done)) tasks)).

Definition finishWord : jsstring := Eval cbv in js "finish".
Definition defaultTitle : jsstring := [24037; 20316; 27969; 23436; 25104]%N.

Inductive FinishMsg :=
  | FinishAlready
  | FinishVerifyFailed (error : option jsstring)
  | FinishNeedsReview
  | FinishCommitFailed (scripts : list jsstring) (stats err : jsstring)
  | FinishCommitted (scripts : list jsstring) (stats : jsstring).

Definition finish : L FinishMsg :=
  data ← requireProgress;
  if bool_decide (p_status data = Idle)
     || bool_decide (p_status data = Completed) then ret FinishAlready
  else if negb (isAllDone (p_tasks data)) then throw EUnfinished
  else
    result ← verify;
    if negb (v_passed result) then ret (FinishVerifyFailed (v_error result))
    else if negb (bool_decide (p_status data = Finishing)) then
      ret FinishNeedsReview
    else
      let stats := statsText (p_tasks data) in
      let titles := titlesText (p_tasks data) in
      runFinishHook (p_name data);;
      cleanupInjections;;
      cleanTags;;
      commitErr ← commit finishWord
                    (match p_name data with [] => defaultTitle | n => n end)
                    (stats ++ [10; 10]%N ++ titles);
      (if truthy commitErr then ret tt else clearAll);;
      ret (match commitErr with
           | Some (c :: cs) =>
               FinishCommitFailed (v_scripts result) stats (c :: cs)
           | _ => FinishCommitted (v_scripts result) stats
           end).





(** [abort]. *)
Definition abort : L (option jsstring) :=
  data ← loadProgress;
  match data with
  | None => ret None
  | Some data =>
      saveProgress (mkProgress (p_name data) Aborted (p_current data)
                               (p_tasks data));;
      cleanupInjections;;
      clearAll;;
      ret (Some (p_name data))
  end.

(** [status]. *)
Definition status : L (option ProgressData) := loadProgress.

End usecases.

(** The port of the first model that a world holds, before any call. *)
Definition repoOf (w : World) : Service.Repo :=
  Service.mkRepo (w_progress w) (w_summary w) (w_context w) [].

End Lifecycle.

(** ** The other use cases, as the specification words them *)

Module LifecycleSpec.
Import TaskStore Numbers Lifecycle.


(** The port after calls that changed nothing in it. *)
Definition logged (w : World) (calls : list call) : World :=
  mkWorld (w_progress w) (w_summary w) (w_context w) (w_tasksMd w)
          (w_calls w ++ calls).

(** The port after calls that stored a progress. *)
Definition stored (w : World) (data : ProgressData) (calls : list call)
  : World :=
  mkWorld (Some data) (w_summary w) (w_context w) (w_tasksMd w)
          (w_calls w ++ calls).

(** The calls of a use case that locks, reads, and unlocks, with the calls
    [mid] in between. *)
Definition locked (mid : list call) : list call :=
  [Port Service.EvLock; Port Service.EvLoadProgress] ++ mid
  ++ [Port Service.EvUnlock].

(** A final commit is among the calls. *)
Definition committed (calls : list call) : Prop :=
  exists id title summary files,
    Port (Service.EvCommit id title summary files) ∈ calls.

(** The title and the text of the final commit, and the calls that lead to
    it. *)
Definition finalTitle (data : ProgressData) : jsstring :=
  match p_name data with [] => defaultTitle | n => n end.

Definition finalSummary (data : ProgressData) : jsstring :=
  statsText (p_tasks data) ++ [10; 10]%N ++ titlesText (p_tasks data).

Definition finalCalls (data : ProgressData) : list call :=
  [Port Service.EvLoadProgress; Verify; FinishHook (p_name data);
   CleanupInjections; CleanTags;
   Port (Service.EvCommit finishWord (finalTitle data) (finalSummary data)
                          None)].

End LifecycleSpec.

(** * Properties *)

(** ** The index *)

Module IndexFacts.
Import TaskStore.

Lemma spread_id t : spread t = t.
Proof. destruct t; reflexivity. Qed.

Lemma map_spread (l : list TaskEntry) : map spread l = l.
Proof. induction l; simpl; [|rewrite spread_id]; congruence. Qed.

Lemma buildIndex_snoc l t :
  buildIndex (l ++ [t]) = <[t_id t := t]> (buildIndex l).
Proof. unfold buildIndex. rewrite fold_left_app. reflexivity. Qed.

Lemma buildIndex_lookup_elem l d u :
  buildIndex l !! d = Some u -> u ∈ l /\ t_id u = d.
Proof.
  induction l as [|t l IH] using rev_ind.
  - unfold buildIndex; simpl. rewrite lookup_empty. discriminate.
  - rewrite buildIndex_snoc, lookup_insert.
    case_decide.
    + intros [= <-]. split; [set_solver|assumption].
    + intros H'. destruct (IH H'). split; [set_solver|assumption].
Qed.

Lemma buildIndex_is_Some l d :
  is_Some (buildIndex l !! d) <-> d ∈ map t_id l.
Proof.
  induction l as [|t l IH] using rev_ind.
  - unfold buildIndex; simpl. rewrite lookup_empty. split.
    + intros [? ?]; discriminate.
    + intros H; inversion H.
  - rewrite buildIndex_snoc, lookup_insert, map_app. simpl.
    case_decide.
    + subst. split; [set_solver|eauto].
    + rewrite IH. set_solver.
Qed.

Lemma buildIndex_None l d :
  buildIndex l !! d = None <-> d ∉ map t_id l.
Proof. rewrite <- buildIndex_is_Some, eq_None_not_Some. reflexivity. Qed.

(** With unique ids, an id resolves to the task that carries it. *)
Lemma buildIndex_unique l u :
  NoDup (map t_id l) -> u ∈ l -> buildIndex l !! t_id u = Some u.
Proof.
  induction l as [|t l IH] using rev_ind; intros Hnd Hin.
  - inversion Hin.
  - rewrite buildIndex_snoc, lookup_insert.
    rewrite map_app in Hnd. apply NoDup_app in Hnd as (Hnd & Hdisj & _).
    case_decide as Heq.
    + apply elem_of_app in Hin as [Hin|Hin].
      * exfalso. apply (Hdisj (t_id u)).
        -- apply list_elem_of_fmap. exists u. split; [reflexivity|assumption].
        -- rewrite <- Heq. simpl. set_solver.
      * apply list_elem_of_singleton in Hin. congruence.
    + apply elem_of_app in Hin as [Hin|Hin]; [auto|].
      apply list_elem_of_singleton in Hin. congruence.
Qed.

(** Rewriting every task without touching ids rewrites the index pointwise. *)
Lemma buildIndex_map (G : TaskEntry -> TaskEntry) l d :
  (forall t, t_id (G t) = t_id t) ->
  buildIndex (map G l) !! d = G <$> (buildIndex l !! d).
Proof.
  intros HG. induction l as [|t l IH] using rev_ind.
  - unfold buildIndex; simpl. rewrite !lookup_empty. reflexivity.
  - rewrite map_app. simpl. rewrite !buildIndex_snoc, !lookup_insert, HG.
    case_decide; [reflexivity|assumption].
Qed.

End IndexFacts.

(** ** Cascade skip *)

Module CascadeFacts.
Import TaskStore IndexFacts CascadeSpec.

Lemma willSkip_pending tasks t : willSkip tasks t -> t_status t = Pending.
Proof. destruct 1; assumption. Qed.

Lemma blocked_true idx t :
  blocked idx t = true <->
  exists d u, d ∈ t_deps t /\ idx !! d = Some u /\
              (t_status u = Failed \/ t_status u = Skipped).
Proof.
  unfold blocked. rewrite existsb_exists. split.
  - intros (d & Hd & H). destruct (idx !! d) as [u|] eqn:E; [|discriminate].
    exists d, u. split; [apply list_elem_of_In; assumption|].
    split; [assumption|].
    apply orb_true_iff in H as [H|H]; apply bool_decide_eq_true in H; auto.
  - intros (d & u & Hd & E & H). exists d.
    split; [apply list_elem_of_In; assumption|]. rewrite E.
    apply orb_true_iff.
    destruct H as [H|H]; [left|right]; apply bool_decide_eq_true; assumption.
Qed.

Lemma existsb_false_map_step idx (l : list TaskEntry) :
  existsb (needsSkip idx) l = false -> map (cascadeStep idx) l = l.
Proof.
  induction l as [|t l IH]; simpl; [reflexivity|].
  intros H. apply orb_false_iff in H as [H1 H2].
  unfold cascadeStep at 1. rewrite H1, IH by assumption. reflexivity.
Qed.

Lemma cascadeWhile_unfold result :
  cascadeWhile result =
    if existsb (needsSkip (buildIndex result)) result
    then cascadeWhile (map (cascadeStep (buildIndex result)) result)
    else result.
Proof.
  rewrite cascadeWhile_equation_1. unfold cascadeWhile_clause_1.
  generalize (Equations.Prop.Logic.inspect (cascadeRound result)).
  intros [[r' [|]] E]; simp cascadeWhile;
    pose proof E as E'; rewrite cascadeRound_spec in E';
    injection E' as E1 E2; rewrite E2.
  - rewrite E1. reflexivity.
  - rewrite <- E1. apply existsb_false_map_step. assumption.
Qed.

(** The result of the loop is stable: a further round changes nothing. *)
Lemma cascadeWhile_stable result :
  existsb (needsSkip (buildIndex (cascadeWhile result))) (cascadeWhile result)
  = false.
Proof.
  remember (countPending result) as n eqn:Hn. revert result Hn.
  induction n as [n IH] using lt_wf_ind. intros result Hn.
  rewrite (cascadeWhile_unfold result).
  destruct (existsb _ result) eqn:Ex; [|assumption].
  eapply IH; [|reflexivity]. subst n. apply countPending_step. assumption.
Qed.

Lemma cascadeWhile_fixpoint result :
  existsb (needsSkip (buildIndex result)) result = false ->
  cascadeWhile result = result.
Proof. intros H. rewrite cascadeWhile_unfold, H. reflexivity. Qed.

Lemma skipsOnlyDoomed_id tasks G t :
  skipsOnlyDoomed tasks G -> t_id (G t) = t_id t.
Proof. intros H. destruct (H t) as [->|[_ ->]]; reflexivity. Qed.

Lemma skipsOnlyDoomed_step tasks G :
  skipsOnlyDoomed tasks G ->
  skipsOnlyDoomed tasks
    (fun t => cascadeStep (buildIndex (map G tasks)) (G t)).
Proof.
  intros HG t. unfold cascadeStep.
  destruct (HG t) as [Ht|[Hw Ht]]; rewrite Ht.
  - destruct (needsSkip _ t) eqn:Hn; [right|left; reflexivity].
    split; [|reflexivity].
    apply andb_true_iff in Hn as [Hp Hb]. apply bool_decide_eq_true in Hp.
    apply blocked_true in Hb as (d & u' & Hd & Hu' & Hbad).
    rewrite buildIndex_map in Hu'
      by (intros; apply (skipsOnlyDoomed_id tasks); assumption).
    destruct (buildIndex tasks !! d) as [u|] eqn:Hu; [|discriminate].
    simpl in Hu'. injection Hu' as <-.
    destruct (HG u) as [Hu'|[Hwu Hu']]; rewrite Hu' in Hbad.
    + eapply ws_direct; eassumption.
    + eapply ws_chain; eassumption.
  - right. split; [assumption|]. unfold needsSkip. simpl. reflexivity.
Qed.

Lemma cascadeWhile_char tasks G :
  skipsOnlyDoomed tasks G ->
  exists G', cascadeWhile (map G tasks) = map G' tasks /\
             skipsOnlyDoomed tasks G'.
Proof.
  remember (countPending (map G tasks)) as n eqn:Hn. revert G Hn.
  induction n as [n IH] using lt_wf_ind. intros G Hn HG.
  rewrite cascadeWhile_unfold.
  destruct (existsb _ (map G tasks)) eqn:Ex.
  - rewrite map_map. eapply IH; [|reflexivity|].
    + subst n. rewrite <- (map_map G). apply countPending_step. assumption.
    + apply skipsOnlyDoomed_step. assumption.
  - exists G. split; [reflexivity|assumption].
Qed.

(** Once a round changes nothing, every doomed task has been skipped. *)
Lemma stable_complete tasks G :
  skipsOnlyDoomed tasks G ->
  existsb (needsSkip (buildIndex (map G tasks))) (map G tasks) = false ->
  forall t, t ∈ tasks -> willSkip tasks t -> G t = skipT t.
Proof.
  intros HG Hst t Hin Hw. revert Hin.
  assert (Hall : forall x, x ∈ tasks ->
            needsSkip (buildIndex (map G tasks)) (G x) = false).
  { intros x Hx. destruct (needsSkip _ (G x)) eqn:E; [|reflexivity].
    rewrite <- Hst. symmetry. apply existsb_exists. exists (G x).
    split; [|assumption]. apply in_map. apply list_elem_of_In. assumption. }
  assert (Hidx : forall d u, buildIndex tasks !! d = Some u ->
            buildIndex (map G tasks) !! d = Some (G u)).
  { intros d u Hu. rewrite buildIndex_map, Hu; [reflexivity|].
    intros; apply (skipsOnlyDoomed_id tasks); assumption. }
  induction Hw as [t d u Hp Hd Hu Hbad | t d u Hp Hd Hu Hw IHw]; intros Hin.
  - destruct (HG t) as [Ht|[_ Ht]]; [|assumption]. exfalso.
    specialize (Hall t Hin). rewrite Ht in Hall.
    assert (needsSkip (buildIndex (map G tasks)) t = true); [|congruence].
    apply andb_true_iff. split; [apply bool_decide_eq_true; assumption|].
    apply blocked_true. exists d, (G u). split; [assumption|].
    split; [auto|]. destruct (HG u) as [->|[_ ->]]; [assumption|].
    right; reflexivity.
  - destruct (HG t) as [Ht|[_ Ht]]; [|assumption]. exfalso.
    specialize (Hall t Hin). rewrite Ht in Hall.
    assert (needsSkip (buildIndex (map G tasks)) t = true); [|congruence].
    apply andb_true_iff. split; [apply bool_decide_eq_true; assumption|].
    apply blocked_true. exists d, (G u). split; [assumption|].
    split; [auto|]. rewrite IHw.
    + right; reflexivity.
    + apply (buildIndex_lookup_elem _ _ _ Hu).
Qed.

(** [cascadeSkip] rewrites the sequence pointwise: doomed tasks are skipped,
    all others are kept. *)
Lemma cascadeSkip_map tasks :
  exists G, cascadeSkip tasks = map G tasks /\
    forall t, t ∈ tasks ->
      (willSkip tasks t /\ G t = skipT t) \/ (~ willSkip tasks t /\ G t = t).
Proof.
  unfold cascadeSkip. rewrite map_spread.
  destruct (cascadeWhile_char tasks (fun t => t)) as (G & HG & Hd).
  { intros t. left. reflexivity. }
  rewrite map_id in HG. exists G. split; [assumption|].
  intros t Hin.
  pose proof (cascadeWhile_stable tasks) as Hst. rewrite HG in Hst.
  destruct (Hd t) as [Ht|[Hw Ht]]; [|left; split; assumption].
  right. split; [|assumption]. intros Hw.
  pose proof (stable_complete tasks G Hd Hst t Hin Hw) as Hs.
  rewrite Ht in Hs. apply willSkip_pending in Hw.
  apply (f_equal t_status) in Hs. simpl in Hs. congruence.
Qed.

(** C2 as worded does not hold: in [doneInBetween] the pending task 003
    reaches the failed task 001 through its dependency 002, which is done,
    and [cascadeSkip] leaves it pending. *)
Lemma cascadeSkip_stops_at_done :
  let tasks := Examples.doneInBetween in
  let t := Examples.task Examples.i003 Pending [Examples.i002] in
  tasks !! 2 = Some t /\ t_status t = Pending /\
  (exists u, reaches tasks t u /\ t_status u = Failed) /\
  cascadeSkip tasks !! 2 = Some t /\
  ~ (forall i t, tasks !! i = Some t ->
       (cascadeSkip tasks !! i <> Some t <->
        t_status t = Pending /\
        exists u, reaches tasks t u /\
                  (t_status u = Failed \/ t_status u = Skipped))).
Proof.
  intros tasks t.
  assert (Hreach : reaches tasks t (Examples.task Examples.i001 Failed [])).
  { exists Examples.i002, Examples.i001. split; [set_solver|]. split.
    - apply rtc_once. exists (Examples.task Examples.i002 Done [Examples.i001]).
      split; [reflexivity|set_solver].
    - reflexivity. }
  split; [reflexivity|]. split; [reflexivity|].
  split; [eexists; split; [exact Hreach|reflexivity]|].
  split; [reflexivity|].
  intros H. apply (H 2 t eq_refl); [|reflexivity].
  split; [reflexivity|]. eexists. split; [exact Hreach|]. left. reflexivity.
Qed.

(** C5.  [cascadeSkip] is idempotent: applied to its own result it returns
    that result. *)
Theorem cascadeSkip_idempotent tasks :
  cascadeSkip (cascadeSkip tasks) = cascadeSkip tasks.
Proof.
  unfold cascadeSkip at 1. rewrite map_spread.
  apply cascadeWhile_fixpoint. unfold cascadeSkip. apply cascadeWhile_stable.
Qed.

End CascadeFacts.


(** ** Cycle detection *)

Module CycleFacts.
Import TaskStore IndexFacts Graph DfsInvariant.

Section dfs.
Context (idx : gmap jsstring TaskEntry).
Implicit Types (x y id dep : jsstring) (l stk : list jsstring).
Implicit Types (st : DfsState) (par : gmap jsstring jsstring).

Local Abbreviation edge := (edge idx).
Local Abbreviation linked := (linked idx).
Local Abbreviation chained := (chained idx).
Local Abbreviation Inv := (Inv idx).

Lemma last_cons {A} (z : A) (l : list A) (x : A) :
  List.last (z :: l) x = List.last l z.
Proof.
  revert z x. induction l as [|a l IH]; intros z x; [reflexivity|].
  change (List.last (a :: l) x = List.last (a :: l) z).
  rewrite !IH. reflexivity.
Qed.

Lemma linked_snoc x l y :
  linked x l -> edge (List.last l x) y -> linked x (l ++ [y]).
Proof.
  revert x. induction l as [|z l IH]; intros x Hl He.
  - split; [assumption|exact I].
  - destruct Hl as [Hxz Hl]. split; [assumption|].
    apply IH; [assumption|]. rewrite <- (last_cons z l x). assumption.
Qed.

Lemma linked_tc x l y : linked x (l ++ [y]) -> tc edge x y.
Proof.
  revert x. induction l as [|z l IH]; simpl; intros x [He Hl].
  - apply tc_once. assumption.
  - eapply tc_l; [eassumption|]. apply IH. assumption.
Qed.

Lemma isCycle_hasCycle c : isCycle idx c -> hasCycle idx.
Proof. intros (x & l & _ & Hl). exists x. eapply linked_tc. eassumption. Qed.

Lemma chained_app_inv par l1 l2 :
  chained par (l1 ++ l2) -> chained par l1 /\ chained par l2.
Proof.
  induction l1 as [|a l1 IH]; simpl; [auto|].
  intros [H1 H2]. destruct (IH H2) as [H3 H4].
  split; [|assumption]. split; [|assumption].
  destruct l1; [exact I|exact H1].
Qed.

Lemma chained_snoc par l a b :
  chained par (l ++ [a]) -> edge a b -> par !! b = Some a ->
  chained par ((l ++ [a]) ++ [b]).
Proof.
  induction l as [|c l IH]; simpl; intros H He Hp.
  - auto.
  - destruct H as [H1 H2]. split; [|auto].
    destruct l; simpl in *; assumption.
Qed.

Lemma chained_ext par par' l :
  (forall x, x ∈ l -> par' !! x = par !! x) ->
  chained par l -> chained par' l.
Proof.
  induction l as [|a l IH]; simpl; [auto|].
  intros Hext [H1 H2]. split.
  - destruct l as [|b l]; [exact I|]. destruct H1 as [He Hp].
    split; [assumption|]. rewrite Hext; [assumption|set_solver].
  - apply IH; [|assumption]. intros x Hx. apply Hext. set_solver.
Qed.

Lemma chained_linked par x l : chained par (x :: l) -> linked x l.
Proof.
  revert x. induction l as [|y l IH]; intros x; simpl; [auto|].
  intros [[He _] H]. split; [assumption|]. apply IH. exact H.
Qed.

Lemma chained_last par x l z :
  chained par (x :: l ++ [z]) ->
  edge (List.last l x) z /\ par !! z = Some (List.last l x) /\
  chained par (x :: l).
Proof.
  revert x. induction l as [|y l IH]; intros x.
  - simpl. intros [[He Hp] _]. auto.
  - intros H. change (chained par (x :: y :: l ++ [z])) in H.
    destruct H as [Hxy H]. destruct (IH y H) as (He & Hp & Hc).
    rewrite (last_cons y l x).
    split; [assumption|]. split; [assumption|].
    split; [exact Hxy | exact Hc].
Qed.

Lemma chained_dom par x l y :
  chained par (x :: l) -> y ∈ l -> is_Some (par !! y).
Proof.
  revert x. induction l as [|z l IH]; intros x H Hy; [inversion Hy|].
  destruct H as [[_ Hp] H].
  apply elem_of_cons in Hy as [->|Hy]; [eauto|].
  eapply IH; eassumption.
Qed.

(** The path reconstruction walks the stack down to [dep]. *)
Lemma climb_chain par dep post :
  chained par (dep :: post) -> dep ∉ post ->
  forall fuel path, length post <= fuel ->
    climb fuel par dep (List.last post dep) path = Some (path ++ rev post).
Proof.
  induction post as [|z post IH] using rev_ind; intros Hc Hn fuel path Hf.
  - simpl. destruct fuel; simpl; rewrite decide_True by reflexivity;
      rewrite app_nil_r; reflexivity.
  - rewrite last_last. rewrite length_app in Hf. simpl in Hf.
    destruct fuel as [|fuel]; [lia|]. simpl.
    rewrite decide_False by (intros ->; apply Hn; set_solver).
    destruct (chained_last _ _ _ _ Hc) as (_ & Hp & Hc').
    rewrite Hp, IH; [|assumption|set_solver|lia].
    rewrite rev_app_distr. simpl. rewrite <- app_assoc. reflexivity.
Qed.

Lemma chain_length_bound par x l :
  chained par (x :: l) -> NoDup l -> length l <= size par.
Proof.
  intros Hc Hnd.
  rewrite <- (size_list_to_set (C := gset jsstring) l) by assumption.
  rewrite <- size_dom. apply subseteq_size.
  intros y Hy. apply elem_of_list_to_set in Hy. apply elem_of_dom.
  eapply chained_dom; eassumption.
Qed.

Lemma last_of_split l a pre dep post :
  l ++ [a] = pre ++ dep :: post -> List.last post dep = a.
Proof.
  intros H.
  assert (List.last (l ++ [a]) dep = a) as Ha by apply last_last.
  rewrite H in Ha. rewrite <- Ha. clear.
  induction pre as [|p pre IH].
  - simpl. symmetry. apply last_cons.
  - rewrite IH. simpl.
    destruct (pre ++ dep :: post) eqn:E; [destruct pre; discriminate|].
    reflexivity.
Qed.

Lemma black_rtc st stk x y :
  Inv st stk -> black st x -> rtc edge x y -> black st y.
Proof.
  intros HI Hb Hr. induction Hr as [|x y z He _ IH]; [assumption|].
  apply IH. eapply inv_closed; eassumption.
Qed.

Lemma tc_inv_l x z : tc edge x z -> exists y, edge x y /\ rtc edge y z.
Proof.
  destruct 1 as [x z He|x y z He Ht].
  - exists z. split; [assumption|apply rtc_refl].
  - exists y. split; [assumption|apply tc_rtc; assumption].
Qed.

Lemma Inv_push st stk id :
  Inv st stk -> id ∉ visited st -> chained (parent st) (stk ++ [id]) ->
  Inv (mkDfs ({[id]} ∪ visited st) ({[id]} ∪ inStack st) (parent st))
      (stk ++ [id]).
Proof.
  intros [Hnd Hst Hsub Hch Hcl Hac] Hid Hc.
  assert (Hbl : forall x,
            black (mkDfs ({[id]} ∪ visited st) ({[id]} ∪ inStack st)
                         (parent st)) x <-> black st x).
  { intros x. unfold black. simpl. set_solver. }
  split; simpl.
  - apply NoDup_app. split; [assumption|]. split; [|apply NoDup_singleton].
    intros x Hx Hx'. apply list_elem_of_singleton in Hx'. subst x.
    apply Hid, Hsub. rewrite Hst. apply elem_of_list_to_set. assumption.
  - rewrite Hst, list_to_set_app_L. simpl. set_solver.
  - set_solver.
  - assumption.
  - intros x y Hx He. apply Hbl. apply Hbl in Hx. eauto.
  - intros x Hx. apply Hbl in Hx. auto.
Qed.

Lemma Inv_pop st stk id :
  Inv st (stk ++ [id]) -> (forall y, edge id y -> black st y) ->
  Inv (mkDfs (visited st) (inStack st ∖ {[id]}) (parent st)) stk.
Proof.
  intros HI Hdeps. pose proof HI as [Hnd Hst Hsub Hch Hcl Hac].
  apply NoDup_app in Hnd as (Hnd & Hdisj & _).
  assert (Hin : id ∈ inStack st).
  { rewrite Hst. apply elem_of_list_to_set. set_solver. }
  assert (Hbl : forall x,
            black (mkDfs (visited st) (inStack st ∖ {[id]}) (parent st)) x
            <-> black st x \/ x = id).
  { intros x. unfold black. simpl. split.
    - intros [Hv Hs]. destruct (decide (x = id)); [auto|]. left. set_solver.
    - intros [[Hv Hs]| ->]; set_solver. }
  split; simpl.
  - assumption.
  - rewrite Hst, list_to_set_app_L. simpl.
    assert (id ∉ stk) by (intros H; apply (Hdisj id H); set_solver).
    assert (id ∉ (list_to_set stk : gset jsstring))
      by (rewrite elem_of_list_to_set; assumption).
    set_solver.
  - set_solver.
  - apply chained_app_inv in Hch. tauto.
  - intros x y Hx He. apply Hbl. left. apply Hbl in Hx as [Hx| ->]; eauto.
  - intros x Hx Ht. apply Hbl in Hx as [Hx| ->]; [eapply Hac; eassumption|].
    apply tc_inv_l in Ht as (y & He & Hr).
    assert (Hb : black st id).
    { eapply black_rtc; [exact HI|apply Hdeps; eassumption|eassumption]. }
    destruct Hb as [_ Hb]. contradiction.
Qed.

(** The ids the traversal may visit. *)
Context (U : gset jsstring).
Context (HU : forall x y, edge x y -> y ∈ U).

Local Abbreviation dfsPost := (dfsPost idx).
Local Abbreviation dfsOk := (dfsOk idx U).

Lemma visitDeps_spec fuel rec id stk :
  dfsOk fuel rec ->
  forall deps st,
    Inv st (stk ++ [id]) -> (forall d, d ∈ deps -> edge id d) ->
    size (U ∖ visited st) <= fuel ->
    exists res, visitDeps rec id deps st = Some res /\
      match res with
      | (Some c, _) => isCycle idx c
      | (None, st') =>
          Inv st' (stk ++ [id]) /\ visited st ⊆ visited st' /\
          inStack st' = inStack st /\ forall d, d ∈ deps -> black st' d
      end.
Proof.
  intros Hrec. induction deps as [|dep rest IH]; intros st HI Hdeps Hsz.
  - eexists. split; [reflexivity|]. simpl.
    split; [assumption|]. split; [reflexivity|]. split; [reflexivity|].
    intros d Hd. inversion Hd.
  - simpl. assert (He : edge id dep) by (apply Hdeps; set_solver).
    assert (Hrest : forall d, d ∈ rest -> edge id d)
      by (intros; apply Hdeps; set_solver).
    destruct (decide (dep ∉ visited st)) as [Hnv|Hv].
    + (* tree edge *)
      set (sp := mkDfs (visited st) (inStack st) (<[dep:=id]> (parent st))).
      assert (Hnst : forall x, x ∈ stk ++ [id] -> x ≠ dep).
      { intros x Hx ->. apply Hnv. apply (inv_sub _ _ _ HI).
        rewrite (inv_stack _ _ _ HI). apply elem_of_list_to_set. assumption. }
      assert (HIp : Inv sp (stk ++ [id])).
      { destruct HI as [Hnd Hst Hsub Hch Hcl Hac]. split; simpl; try assumption.
        eapply chained_ext; [|eassumption].
        intros x Hx. apply lookup_insert_ne. intros <-. eapply Hnst; eauto. }
      destruct (Hrec dep sp (stk ++ [id])) as ([[c|] st'] & Hr & Hpost);
        try assumption.
      * apply chained_snoc; [apply (inv_chain _ _ _ HIp)|assumption|].
        apply lookup_insert_eq.
      * eapply HU; eassumption.
      * rewrite Hr. eexists. split; [reflexivity|]. exact Hpost.
      * rewrite Hr. destruct Hpost as (HI' & Hvis & Hdv & Hstk).
        simpl in Hvis, Hstk.
        destruct (IH st' HI' Hrest) as ([[c|] st''] & Hr' & Hpost').
        { etrans; [|exact Hsz]. apply subseteq_size. set_solver. }
        -- eexists. split; [eassumption|]. exact Hpost'.
        -- eexists. split; [eassumption|].
           destruct Hpost' as (HI'' & Hvis' & Hstk' & Hbl).
           split; [assumption|]. split; [set_solver|].
           split; [congruence|].
           intros d Hd. apply elem_of_cons in Hd as [->|Hd]; [|auto].
           split; [set_solver|]. rewrite Hstk', Hstk.
           intros Hin. apply Hnv. apply (inv_sub _ _ _ HI). assumption.
    + apply dec_stable in Hv.
      destruct (decide (dep ∈ inStack st)) as [Hin|Hnin].
      * (* back edge *)
        assert (Hin' : dep ∈ stk ++ [id]).
        { rewrite (inv_stack _ _ _ HI) in Hin.
          apply elem_of_list_to_set in Hin. assumption. }
        apply list_elem_of_split in Hin' as (pre & post & Hsplit).
        pose proof (last_of_split _ _ _ _ _ Hsplit) as Hlast.
        pose proof (inv_nodup _ _ _ HI) as Hnd. rewrite Hsplit in Hnd.
        apply NoDup_app in Hnd as (_ & _ & Hnd).
        apply NoDup_cons in Hnd as [Hnp Hnd].
        pose proof (inv_chain _ _ _ HI) as Hch. rewrite Hsplit in Hch.
        apply chained_app_inv in Hch as [_ Hch].
        rewrite <- Hlast.
        rewrite (climb_chain (parent st) dep post Hch Hnp)
          by (eapply chain_length_bound; eassumption).
        eexists. split; [reflexivity|]. simpl.
        exists dep, post. split.
        -- rewrite !rev_app_distr. simpl. rewrite rev_involutive. reflexivity.
        -- apply linked_snoc; [eapply chained_linked; eassumption|].
           rewrite Hlast. assumption.
      * (* already finished *)
        destruct (IH st HI Hrest Hsz) as ([[c|] st'] & Hr & Hpost).
        -- eexists. split; [eassumption|]. exact Hpost.
        -- eexists. split; [eassumption|].
           destruct Hpost as (HI' & Hvis & Hstk & Hbl).
           split; [assumption|]. split; [assumption|]. split; [assumption|].
           intros d Hd. apply elem_of_cons in Hd as [->|Hd]; [|auto].
           split; [set_solver|]. rewrite Hstk. assumption.
Qed.

Lemma dfs_spec fuel : dfsOk fuel (dfs fuel idx).
Proof.
  induction fuel as [|fuel IH]; intros id st stk HI Hnv Hch HidU Hsz.
  - exfalso. assert (Hin : id ∈ U ∖ visited st) by set_solver.
    assert (size (U ∖ visited st) = 0) as H0 by lia.
    apply size_empty_inv in H0. set_solver.
  - simpl.
    set (st1 := mkDfs ({[id]} ∪ visited st) ({[id]} ∪ inStack st) (parent st)).
    assert (HI1 : Inv st1 (stk ++ [id])) by (apply Inv_push; assumption).
    assert (Hsz1 : size (U ∖ visited st1) <= fuel).
    { assert (size (U ∖ visited st1) < size (U ∖ visited st)); [|lia].
      apply subset_size. simpl. set_solver. }
    assert (Hnst : id ∉ inStack st).
    { intros Hin. apply Hnv. apply (inv_sub _ _ _ HI). assumption. }
    destruct (idx !! id) as [task|] eqn:Htask.
    + destruct (visitDeps_spec fuel (dfs fuel idx) id stk IH (t_deps task) st1)
        as ([[c|] st'] & Hr & Hpost); try assumption.
      * intros d Hd. exists task. split; assumption.
      * rewrite Hr. eexists. split; [reflexivity|]. exact Hpost.
      * rewrite Hr. eexists. split; [reflexivity|].
        destruct Hpost as (HI' & Hvis & Hstk & Hbl). simpl in Hvis, Hstk.
        split; [|simpl; split; [set_solver|split; [set_solver|]]].
        -- apply Inv_pop; [assumption|].
           intros y (t & Ht & Hy). apply Hbl. congruence.
        -- rewrite Hstk. set_solver.
    + eexists. split; [reflexivity|].
      split; [|simpl; split; [set_solver|split; [set_solver|]]].
      * apply (Inv_pop st1); [assumption|].
        intros y (t & Ht & _). congruence.
      * set_solver.
Qed.

Lemma dfsRoots_spec tasks :
  (forall t, t ∈ tasks -> t_id t ∈ U) ->
  forall st, Inv st [] ->
    exists r, dfsRoots (size U) idx tasks st = Some r /\
      match r with
      | Some c => isCycle idx c
      | None =>
          exists st', Inv st' [] /\ visited st ⊆ visited st' /\
                      forall t, t ∈ tasks -> t_id t ∈ visited st'
      end.
Proof.
  induction tasks as [|t rest IH]; intros HinU st HI.
  - exists None. split; [reflexivity|]. exists st.
    split; [assumption|]. split; [reflexivity|]. intros t Ht. inversion Ht.
  - simpl. assert (HrestU : forall t, t ∈ rest -> t_id t ∈ U)
      by (intros; apply HinU; set_solver).
    destruct (decide (t_id t ∉ visited st)) as [Hnv|Hv].
    + destruct (dfs_spec (size U) (t_id t) st [] HI Hnv)
        as ([[c|] st'] & Hr & Hpost).
      * simpl. auto.
      * apply HinU. set_solver.
      * apply subseteq_size. set_solver.
      * rewrite Hr. exists (Some c). split; [reflexivity|]. exact Hpost.
      * rewrite Hr. destruct Hpost as (HI' & Hvis & Hid & _).
        destruct (IH HrestU st' HI') as ([c|] & Hr' & Hpost').
        -- exists (Some c). split; assumption.
        -- exists None. split; [assumption|].
           destruct Hpost' as (st'' & HI'' & Hvis' & Hall).
           exists st''. split; [assumption|]. split; [set_solver|].
           intros u Hu. apply elem_of_cons in Hu as [->|Hu]; [set_solver|auto].
    + apply dec_stable in Hv.
      destruct (IH HrestU st HI) as ([c|] & Hr' & Hpost').
      * exists (Some c). split; assumption.
      * exists None. split; [assumption|].
        destruct Hpost' as (st'' & HI'' & Hvis' & Hall).
        exists st''. split; [assumption|]. split; [assumption|].
        intros u Hu. apply elem_of_cons in Hu as [->|Hu]; [set_solver|auto].
Qed.

End dfs.

Lemma Inv_init idx : Inv idx (mkDfs ∅ ∅ ∅) [].
Proof.
  split; simpl.
  - apply NoDup_nil. exact I.
  - reflexivity.
  - set_solver.
  - exact I.
  - intros x y [Hx _]. set_solver.
  - intros x [Hx _]. set_solver.
Qed.

(** [detectCycles] always returns; what it returns is a cycle of the
    dependency graph, and it returns [null] only when there is none. *)
Lemma detectCycles_spec tasks :
  exists r, detectCycles tasks = Some r /\
    match r with
    | Some c => isCycle (buildIndex tasks) c
    | None => ~ hasCycle (buildIndex tasks)
    end.
Proof.
  unfold detectCycles.
  destruct (dfsRoots_spec (buildIndex tasks) (idUniverse tasks)) with
    (tasks := tasks) (st := mkDfs ∅ ∅ ∅) as ([c|] & Hr & Hpost).
  - intros x y (t & Ht & Hy). apply buildIndex_lookup_elem in Ht as [Ht _].
    unfold idUniverse. apply elem_of_union_r, elem_of_list_to_set.
    apply list_elem_of_In, in_concat. exists (t_deps t).
    split; [apply in_map|]; apply list_elem_of_In; assumption.
  - intros t Ht. unfold idUniverse.
    apply elem_of_union_l, elem_of_list_to_set, list_elem_of_fmap.
    exists t. split; [reflexivity|assumption].
  - apply Inv_init.
  - exists (Some c). split; assumption.
  - exists None. split; [assumption|].
    destruct Hpost as (st' & HI & _ & Hall). intros [x Hx].
    pose proof Hx as Hx'. apply tc_inv_l in Hx' as (y & (t & Ht & _) & _).
    apply buildIndex_lookup_elem in Ht as [Ht <-].
    apply (inv_acyclic _ _ _ HI (t_id t)); [|assumption].
    split; [auto|]. rewrite (inv_stack _ _ _ HI). set_solver.
Qed.

Lemma acyclic_by_detect tasks :
  detectCycles tasks = Some None -> ~ hasCycle (buildIndex tasks).
Proof.
  intros H. destruct (detectCycles_spec tasks) as (r & Hr & Hpost).
  rewrite H in Hr. injection Hr as <-. exact Hpost.
Qed.

Lemma cyclic_by_detect tasks c :
  detectCycles tasks = Some (Some c) -> hasCycle (buildIndex tasks).
Proof.
  intros H. destruct (detectCycles_spec tasks) as (r & Hr & Hpost).
  rewrite H in Hr. injection Hr as <-.
  eapply isCycle_hasCycle. exact Hpost.
Qed.

End CycleFacts.

(** ** Next-task selection *)

Module SelectionFacts.
Import TaskStore IndexFacts Graph Selection CycleFacts.

Lemma depDone_true idx d :
  depDone idx d = true <-> exists u, idx !! d = Some u /\ t_status u = Done.
Proof.
  unfold depDone. destruct (idx !! d) as [u|]; split.
  - intros H. apply bool_decide_eq_true in H. eauto.
  - intros (u' & [= <-] & H). apply bool_decide_eq_true. assumption.
  - discriminate.
  - intros (u' & [=] & _).
Qed.

Lemma readyb_iff tasks t :
  isPending t && forallb (depDone (buildIndex tasks)) (t_deps t) = true
  <-> ready tasks t.
Proof.
  unfold ready, isPending.
  rewrite andb_true_iff, bool_decide_eq_true, forallb_forall.
  split; intros [Hp Hd]; (split; [assumption|]); intros d Hin.
  - apply depDone_true, Hd, list_elem_of_In. assumption.
  - apply depDone_true, Hd, list_elem_of_In. assumption.
Qed.

Lemma firstReady_spec all tasks :
  match firstReady (buildIndex all) tasks with
  | Some t => exists pre post, tasks = pre ++ t :: post /\ ready all t /\
                               forall u, u ∈ pre -> ~ ready all u
  | None => forall u, u ∈ tasks -> ~ ready all u
  end.
Proof.
  induction tasks as [|t rest IH]; simpl.
  - intros u Hu. inversion Hu.
  - pose proof (readyb_iff all t) as Hr.
    destruct (isPending t) eqn:Hp; simpl in *.
    + destruct (forallb _ (t_deps t)) eqn:Hd.
      * exists [], rest. split; [reflexivity|]. split; [apply Hr; reflexivity|].
        intros u Hu. inversion Hu.
      * assert (Hnr : ~ ready all t) by (intros H; apply Hr in H; discriminate).
        destruct (firstReady _ rest) as [t'|].
        -- destruct IH as (pre & post & -> & Hrd & Hpre).
           exists (t :: pre), post. split; [reflexivity|]. split; [assumption|].
           intros u Hu. apply elem_of_cons in Hu as [->|Hu]; auto.
        -- intros u Hu. apply elem_of_cons in Hu as [->|Hu]; auto.
    + assert (Hnr : ~ ready all t) by (intros H; apply Hr in H; discriminate).
      destruct (firstReady _ rest) as [t'|].
      * destruct IH as (pre & post & -> & Hrd & Hpre).
        exists (t :: pre), post. split; [reflexivity|]. split; [assumption|].
        intros u Hu. apply elem_of_cons in Hu as [->|Hu]; auto.
      * intros u Hu. apply elem_of_cons in Hu as [->|Hu]; auto.
Qed.

(** With unique ids, resolving an id through the index is finding the task
    that carries it: edges and readiness read as in the data model. *)
Lemma NoDup_ids_filter (p : TaskEntry -> bool) (l : list TaskEntry) :
  NoDup (map t_id l) -> NoDup (map t_id (List.filter p l)).
Proof.
  induction l as [|t l IH]; simpl; [auto|].
  intros Hnd. apply NoDup_cons in Hnd as [Hnin Hnd].
  destruct (p t); simpl; [|auto].
  apply NoDup_cons. split; [|auto].
  intros Hin. apply Hnin. apply list_elem_of_fmap in Hin as (u & -> & Hu).
  apply list_elem_of_fmap. exists u. split; [reflexivity|].
  apply list_elem_of_In in Hu. apply filter_In in Hu as [Hu _].
  apply list_elem_of_In. assumption.
Qed.

Lemma edge_unique tasks x y :
  NoDup (map t_id tasks) ->
  edge (buildIndex tasks) x y <->
  exists t, t ∈ tasks /\ t_id t = x /\ y ∈ t_deps t.
Proof.
  intros Hnd. split.
  - intros (t & Ht & Hy). apply buildIndex_lookup_elem in Ht as [Ht Hid]. eauto.
  - intros (t & Ht & <- & Hy). exists t.
    split; [apply buildIndex_unique; assumption|assumption].
Qed.

Lemma pendingGraph_edge_unique tasks x y :
  NoDup (map t_id tasks) ->
  edge (pendingGraph tasks) x y <->
  exists t, t ∈ tasks /\ t_status t = Pending /\ t_id t = x /\ y ∈ t_deps t.
Proof.
  intros Hnd. unfold pendingGraph.
  rewrite (edge_unique _ x y (NoDup_ids_filter isPending tasks Hnd)).
  split.
  - intros (t & Ht & Hid & Hy). apply list_elem_of_In, filter_In in Ht as [Ht Hp].
    apply bool_decide_eq_true in Hp. exists t.
    split; [apply list_elem_of_In; assumption|auto].
  - intros (t & Ht & Hp & Hid & Hy). exists t.
    split; [|auto]. apply list_elem_of_In, filter_In.
    split; [apply list_elem_of_In; assumption|].
    apply bool_decide_eq_true. assumption.
Qed.

Lemma ready_unique tasks t :
  NoDup (map t_id tasks) ->
  ready tasks t <->
  t_status t = Pending /\
  forall d, d ∈ t_deps t ->
    exists u, u ∈ tasks /\ t_id u = d /\ t_status u = Done.
Proof.
  intros Hnd. unfold ready. split; intros [Hp Hd]; (split; [assumption|]);
    intros d Hin; destruct (Hd d Hin) as (u & Hu & Hrest).
  - apply buildIndex_lookup_elem in Hu as [Hu Hid]. eauto.
  - destruct Hrest as [<- Hs]. exists u.
    split; [apply buildIndex_unique; assumption|assumption].
Qed.

(** [findNextTask] decides whether the pending tasks contain a cycle. *)
Lemma findNextTask_cases tasks :
  (hasCycle (pendingGraph tasks) /\
   exists c, findNextTask tasks = Throw (ECyclic c) /\
             isCycle (pendingGraph tasks) c)
  \/ (~ hasCycle (pendingGraph tasks) /\
      exists r, findNextTask tasks = Ret r /\ firstReadyOf tasks r).
Proof.
  unfold findNextTask, pendingGraph.
  destruct (detectCycles_spec (List.filter isPending tasks))
    as ([c|] & -> & Hc).
  - left. split; [eapply isCycle_hasCycle; eassumption|]. eauto.
  - right. split; [assumption|]. eexists. split; [reflexivity|].
    apply firstReady_spec.
Qed.

(** C1.  When the pending tasks contain no dependency cycle, [findNextTask]
    returns the first task, in stored order, that is pending and whose every
    dependency id resolves to a done task, and [null] when there is none.
    When they do contain a cycle, it throws the cyclic-dependency error, and
    the path it names is a cycle of the pending tasks; nothing is selected. *)
Theorem findNextTask_correct tasks :
  (~ hasCycle (pendingGraph tasks) ->
   exists r, findNextTask tasks = Ret r /\ firstReadyOf tasks r) /\
  (hasCycle (pendingGraph tasks) ->
   exists c, findNextTask tasks = Throw (ECyclic c) /\
             isCycle (pendingGraph tasks) c).
Proof.
  destruct (findNextTask_cases tasks) as [[Hc Ht]|[Hn Hr]]; split; intros H;
    solve [assumption | contradiction].
Qed.

Lemma findNextTask_correct_witness :
  (exists r, findNextTask Examples.fanOut = Ret r /\
             firstReadyOf Examples.fanOut r) /\
  (exists c, findNextTask Examples.skipAndCycle = Throw (ECyclic c) /\
             isCycle (pendingGraph Examples.skipAndCycle) c).
Proof.
  split.
  - apply (proj1 (findNextTask_correct Examples.fanOut)).
    unfold pendingGraph. apply acyclic_by_detect. vm_compute. reflexivity.
  - apply (proj2 (findNextTask_correct Examples.skipAndCycle)).
    unfold pendingGraph.
    apply (cyclic_by_detect _ [Examples.i003; Examples.i004; Examples.i003]).
    vm_compute. reflexivity.
Defined.

End SelectionFacts.

(** ** Lifecycle transitions *)

Module TransitionFacts.
Import TaskStore IndexFacts TransitionSpec.

Lemma failTask_absent data id :
  id ∉ map t_id (p_tasks data) -> failTask data id = Throw (ETaskNotFound id).
Proof.
  intros H. apply buildIndex_None in H. unfold failTask. rewrite H. reflexivity.
Qed.

Lemma map_ext_elem {A B} (f g : A -> B) (l : list A) :
  (forall x, x ∈ l -> f x = g x) -> map f l = map g l.
Proof.
  intros H. apply map_ext_in. intros x Hx. apply H, list_elem_of_In, Hx.
Qed.

(** With unique ids, [failTask] touches the one task that carries the id. *)
Lemma failTask_unique data t :
  uniqueIds (p_tasks data) -> t ∈ p_tasks data ->
  failTask data (t_id t) =
    Ret (failVerdict t,
         mkProgress (p_name data) (p_status data) None
           (map (fun u => if decide (t_id u = t_id t) then failedOnce u else u)
                (p_tasks data))).
Proof.
  intros Hnd Hin. unfold failTask, failVerdict.
  rewrite (buildIndex_unique _ _ Hnd Hin).
  assert (Hu : forall u, u ∈ p_tasks data -> t_id u = t_id t -> u = t).
  { intros u Hu He. pose proof (buildIndex_unique _ _ Hnd Hu) as H1.
    rewrite He, (buildIndex_unique _ _ Hnd Hin) in H1. congruence. }
  destruct (3 <=? t_retries t + 1) eqn:E; do 3 f_equal;
    apply map_ext_elem; intros u Hin'; case_decide as Hd; try reflexivity;
    rewrite (Hu u Hin' Hd); unfold failedOnce; rewrite E; reflexivity.
Qed.

Lemma failStep_lookup (tasks : list TaskEntry) id i t :
  tasks !! i = Some t -> t_id t = id ->
  map (fun u => if decide (t_id u = id) then failedOnce u else u) tasks !! i
  = Some (failedOnce t).
Proof.
  intros Hi Hid. rewrite list_lookup_fmap, Hi. simpl.
  rewrite decide_True by assumption. reflexivity.
Qed.

Lemma failStep_ids (tasks : list TaskEntry) id :
  map t_id (map (fun u => if decide (t_id u = id) then failedOnce u else u)
                tasks) = map t_id tasks.
Proof.
  rewrite map_map. apply map_ext. intros u. case_decide; reflexivity.
Qed.

Lemma three_failures t :
  t_retries t = 0 ->
  let t1 := failedOnce t in
  let t2 := failedOnce t1 in
  let t3 := failedOnce t2 in
  failVerdict t = Retry /\ failVerdict t1 = Retry /\ failVerdict t2 = Skip /\
  t_retries t1 = 1 /\ t_status t1 = Pending /\
  t_retries t2 = 2 /\ t_status t2 = Pending /\
  t_retries t3 = 3 /\ t_status t3 = Failed.
Proof.
  destruct t as [i ti de ty st dp sm r]. simpl. intros ->.
  unfold failVerdict, failedOnce. simpl. repeat split; reflexivity.
Qed.

(** C3.  In an aggregate with unique ids that holds a task with the given
    id, [failTask] adds one to the retries of that task and clears
    [current]; the result is skip and the status failed when the new count
    is at least 3, retry and pending otherwise.  Starting from retries 0,
    three applications in a row give retry (1), retry (2), skip (3, failed).
    When no task has the id, [failTask] throws the task-not-found error. *)
Theorem failTask_correct data id :
  (forall i t,
     uniqueIds (p_tasks data) -> p_tasks data !! i = Some t -> t_id t = id ->
     (exists res data',
        failTask data id = Ret (res, data') /\
        p_current data' = None /\
        p_tasks data' !! i = Some (failedOnce t) /\
        t_retries (failedOnce t) = t_retries t + 1 /\
        (3 <= t_retries t + 1 ->
         res = Skip /\ t_status (failedOnce t) = Failed) /\
        (t_retries t + 1 < 3 ->
         res = Retry /\ t_status (failedOnce t) = Pending)) /\
     (t_retries t = 0 ->
      exists d1 d2 d3 t1 t2 t3,
        failTask data id = Ret (Retry, d1) /\ p_tasks d1 !! i = Some t1 /\
        t_retries t1 = 1 /\ t_status t1 = Pending /\
        failTask d1 id = Ret (Retry, d2) /\ p_tasks d2 !! i = Some t2 /\
        t_retries t2 = 2 /\ t_status t2 = Pending /\
        failTask d2 id = Ret (Skip, d3) /\ p_tasks d3 !! i = Some t3 /\
        t_retries t3 = 3 /\ t_status t3 = Failed)) /\
  (id ∉ map t_id (p_tasks data) -> failTask data id = Throw (ETaskNotFound id)).
Proof.
  split; [|apply failTask_absent].
  intros i t Hnd Hi <-. split.
  - rewrite (failTask_unique data t Hnd) by (eapply list_elem_of_lookup_2; eauto).
    eexists _, _. split; [reflexivity|].
    split; [reflexivity|]. split; [apply failStep_lookup; auto|].
    split; [reflexivity|].
    split; intros H; [apply Nat.leb_le in H|apply Nat.leb_gt in H];
      unfold failedOnce, failVerdict; rewrite H; auto.
  - intros H0.
    pose (step := fun d : ProgressData =>
            mkProgress (p_name d) (p_status d) None
              (map (fun u => if decide (t_id u = t_id t) then failedOnce u else u)
                   (p_tasks d))).
    assert (Hstep : forall d u, uniqueIds (p_tasks d) ->
              p_tasks d !! i = Some u -> t_id u = t_id t ->
              failTask d (t_id t) = Ret (failVerdict u, step d) /\
              uniqueIds (p_tasks (step d)) /\
              p_tasks (step d) !! i = Some (failedOnce u)).
    { intros d u Hd Hu He. rewrite <- He.
      rewrite (failTask_unique d u Hd) by (eapply list_elem_of_lookup_2; eauto).
      rewrite He. split; [reflexivity|]. split.
      - unfold uniqueIds, step. simpl. rewrite failStep_ids. assumption.
      - apply failStep_lookup; assumption. }
    destruct (Hstep data t Hnd Hi eq_refl) as (E1 & Hn1 & L1).
    destruct (Hstep (step data) (failedOnce t) Hn1 L1 eq_refl) as (E2 & Hn2 & L2).
    destruct (Hstep (step (step data)) (failedOnce (failedOnce t)) Hn2 L2 eq_refl)
      as (E3 & Hn3 & L3).
    exists (step data), (step (step data)), (step (step (step data))).
    exists (failedOnce t), (failedOnce (failedOnce t)),
           (failedOnce (failedOnce (failedOnce t))).
    destruct (three_failures t H0) as (V1 & V2 & V3 & R1 & S1 & R2 & S2 & R3 & S3).
    rewrite V1 in E1. rewrite V2 in E2. rewrite V3 in E3.
    repeat split; assumption.
Qed.

Lemma failTask_correct_witness :
  (exists d1 d2 d3 t1 t2 t3,
     failTask (Examples.prog Examples.oneActive) Examples.i001
     = Ret (Retry, d1) /\ p_tasks d1 !! 0 = Some t1 /\
     t_retries t1 = 1 /\ t_status t1 = Pending /\
     failTask d1 Examples.i001 = Ret (Retry, d2) /\
     p_tasks d2 !! 0 = Some t2 /\
     t_retries t2 = 2 /\ t_status t2 = Pending /\
     failTask d2 Examples.i001 = Ret (Skip, d3) /\
     p_tasks d3 !! 0 = Some t3 /\
     t_retries t3 = 3 /\ t_status t3 = Failed) /\
  failTask (Examples.prog Examples.oneActive) Examples.i002
  = Throw (ETaskNotFound Examples.i002).
Proof.
  destruct (failTask_correct (Examples.prog Examples.oneActive) Examples.i001)
    as [Hpresent _].
  destruct (failTask_correct (Examples.prog Examples.oneActive) Examples.i002)
    as [_ Habsent].
  split.
  - refine (proj2 (Hpresent 0 (Examples.task Examples.i001 Active []) _
                     eq_refl eq_refl) eq_refl).
    apply NoDup_singleton.
  - apply Habsent. simpl. intros H. apply list_elem_of_singleton in H.
    discriminate H.
Defined.

(** [failTask] never reads the status of the task it names. *)
Lemma failTask_any_status data i t s :
  uniqueIds (p_tasks data) -> p_tasks data !! i = Some t ->
  failTask (mkProgress (p_name data) (p_status data) (p_current data)
              (<[i := withStatus t s]> (p_tasks data))) (t_id t)
  = failTask data (t_id t).
Proof.
  intros Hnd Hi.
  assert (Hi' : <[i := withStatus t s]> (p_tasks data) !! i
                = Some (withStatus t s)).
  { apply list_lookup_insert_eq. eapply lookup_lt_Some. eassumption. }
  assert (Hids : map t_id (<[i := withStatus t s]> (p_tasks data))
                 = map t_id (p_tasks data)).
  { change (map t_id ?l) with (t_id <$> l) at 1.
    rewrite list_fmap_insert. apply list_insert_id.
    rewrite list_lookup_fmap, Hi. reflexivity. }
  rewrite (failTask_unique data t Hnd) by (eapply list_elem_of_lookup_2; eauto).
  change (t_id t) with (t_id (withStatus t s)) at 1.
  rewrite failTask_unique; simpl.
  - f_equal. f_equal. f_equal.
    change (map ?f ?l) with (f <$> l).
    rewrite list_fmap_insert. simpl. rewrite decide_True by reflexivity.
    apply list_insert_id. rewrite list_lookup_fmap, Hi. simpl.
    rewrite decide_True by reflexivity. reflexivity.
  - unfold uniqueIds. simpl. rewrite Hids. assumption.
  - eapply list_elem_of_lookup_2. eassumption.
Qed.

(** ** Resuming *)

Lemma resumeMap_fst tasks fid :
  fst (resumeMap tasks fid) = map resetActive tasks.
Proof.
  revert fid. induction tasks as [|t rest IH]; intros fid; [reflexivity|].
  simpl. unfold resetActive at 1. case_decide.
  - specialize (IH (if falsyId fid then Some (t_id t) else fid)).
    destruct (resumeMap rest _). simpl in *. congruence.
  - specialize (IH fid). destruct (resumeMap rest _). simpl in *. congruence.
Qed.



Lemma hasActive_false (tasks : list TaskEntry) :
  (forall t, t ∈ tasks -> t_status t <> Active) ->
  existsb (fun t => bool_decide (t_status t = Active)) tasks = false.
Proof.
  intros H. induction tasks as [|t rest IH]; [reflexivity|]. simpl.
  rewrite bool_decide_eq_false_2 by (apply H; set_solver).
  apply IH. intros; apply H; set_solver.
Qed.




End TransitionFacts.

(** ** The orchestrator *)

Module ServiceFacts.
Import TaskStore IndexFacts Graph Selection CycleFacts SelectionFacts.
Import TransitionSpec TransitionFacts Service ServiceSpec.

Lemma quiet_ret {A} (a : A) : quiet (mret a).
Proof.
  intros r. exists a, r, []. rewrite app_nil_r. repeat split. constructor.
Qed.

Lemma quiet_bind {A B} (m : M A) (k : A -> M B) :
  quiet m -> (forall a, quiet (k a)) -> quiet (m ≫= k).
Proof.
  intros Hm Hk r. destruct (Hm r) as (a & r1 & e1 & E1 & P1 & T1 & F1).
  destruct (Hk a r1) as (b & r2 & e2 & E2 & P2 & T2 & F2).
  exists b, r2, (e1 ++ e2). unfold mbind, M_bind, bind. rewrite E1, E2.
  split; [reflexivity|]. split; [congruence|].
  split; [rewrite T2, T1, app_assoc; reflexivity|].
  apply Forall_app; split; assumption.
Qed.

Lemma quiet_emit {A} (a : A) (e : event) :
  notSave e -> quiet (fun r => (Ret a, emit e r)).
Proof.
  intros He r. exists a, (emit e r), [e]. repeat split. 
  constructor; [assumption|constructor].
Qed.

Lemma quiet_loadTaskContext id : quiet (loadTaskContext id).
Proof.
  intros r. exists (r_context r !! id), (emit (EvLoadTaskContext id) r),
    [EvLoadTaskContext id].
  repeat split. constructor; [exact I|constructor].
Qed.

Lemma quiet_loadDepContexts deps parts : quiet (loadDepContexts deps parts).
Proof.
  revert parts. induction deps as [|d deps IH]; intros parts; simpl.
  - apply quiet_ret.
  - apply quiet_bind; [apply quiet_loadTaskContext|].
    intros [[|c cs]|]; apply IH.
Qed.

Lemma quiet_startHooks tasks : quiet (startHooks tasks).
Proof.
  induction tasks as [|t rest IH]; simpl; [apply quiet_ret|].
  apply quiet_bind; [|intros; assumption].
  apply (quiet_emit tt). exact I.
Qed.

Lemma quiet_batchContexts summary tasks results :
  quiet (batchContexts summary tasks results).
Proof.
  revert results. induction tasks as [|t rest IH]; intros results; simpl.
  - apply quiet_ret.
  - apply quiet_bind; [apply quiet_loadDepContexts|]. intros; apply IH.
Qed.

#[local] Opaque startHooks batchContexts loadDepContexts.

Ltac run_port :=
  unfold finally, mbind, M_bind, bind, lock, requireProgress, lift;
  unfold mbind, M_bind, bind, loadProgress; simpl.

Lemma next_cyclic repo c r' :
  next repo = (Throw (ECyclic c), r') ->
  r_progress r' = r_progress repo /\
  r_trace r' = r_trace repo ++ [EvLock; EvLoadProgress; EvUnlock] /\
  exists data,
    r_progress repo = Some data /\
    findNextTask (cascadeSkip (p_tasks data)) = Throw (ECyclic c).
Proof.
  unfold next. run_port.
  destruct (r_progress repo) as [data|] eqn:Hp; simpl; [|discriminate].
  destruct (isAllDone (p_tasks data)); simpl; [discriminate|].
  destruct (negb _); simpl; [discriminate|].
  destruct (findNextTask _) as [[task|]|e|] eqn:Hf; simpl.
  - match goal with |- context [loadDepContexts ?d ?p ?r] =>
      destruct (quiet_loadDepContexts d p r) as (a & r1 & evs & -> & _)
    end. discriminate.
  - discriminate.
  - intros [= -> <-]. simpl. rewrite <- !app_assoc. eauto.
  - discriminate.
Qed.

Lemma nextBatch_cyclic repo c r' :
  nextBatch repo = (Throw (ECyclic c), r') ->
  r_progress r' = r_progress repo /\
  r_trace r' = r_trace repo ++ [EvLock; EvLoadProgress; EvUnlock] /\
  exists data,
    r_progress repo = Some data /\
    findParallelTasks (cascadeSkip (p_tasks data)) = Throw (ECyclic c).
Proof.
  unfold nextBatch. run_port.
  destruct (r_progress repo) as [data|] eqn:Hp; simpl; [|discriminate].
  destruct (isAllDone (p_tasks data)); simpl; [discriminate|].
  destruct (negb _); simpl; [discriminate|].
  destruct (findParallelTasks _) as [[|first rest]|e|] eqn:Hf; simpl.
  - discriminate.
  - match goal with |- context [startHooks ?t ?r] =>
      destruct (quiet_startHooks t r) as (a & r1 & evs & -> & _)
    end.
    unfold loadSummary.
    match goal with |- context [batchContexts ?s ?t ?x ?r] =>
      destruct (quiet_batchContexts s t x r) as (a' & r2 & evs' & -> & _)
    end. discriminate.
  - intros [= -> <-]. simpl. rewrite <- !app_assoc. eauto.
  - discriminate.
Qed.

(** C7 (as amended).  When [next] or [nextBatch] throws the
    cyclic-dependency error, [saveProgress] has not been called in that
    invocation: the port was locked, read and unlocked, and the stored
    progress is what it was before the call. *)
Theorem cyclic_throw_saves_nothing repo c r' :
  next repo = (Throw (ECyclic c), r') \/
  nextBatch repo = (Throw (ECyclic c), r') ->
  r_progress r' = r_progress repo /\
  r_trace r' = r_trace repo ++ [EvLock; EvLoadProgress; EvUnlock].
Proof.
  intros [H|H].
  - apply next_cyclic in H. tauto.
  - apply nextBatch_cyclic in H. tauto.
Qed.

Lemma cyclic_throw_saves_nothing_witness :
  let repo := Examples.repoOf Examples.skipAndCycle in
  let r' := mkRepo (Some (Examples.prog Examples.skipAndCycle)) [] ∅
                   [EvLock; EvLoadProgress; EvUnlock] in
  r_progress r' = r_progress repo /\
  r_trace r' = r_trace repo ++ [EvLock; EvLoadProgress; EvUnlock].
Proof.
  intros repo r'.
  apply (cyclic_throw_saves_nothing repo
           [Examples.i003; Examples.i004; Examples.i003] r').
  left. vm_compute. reflexivity.
Defined.

(** It does not hold: on [skipAndCycle] both [next] and [nextBatch] throw
    the cyclic-dependency error without any call to [saveProgress], and the
    stored progress still has 002 pending, which [cascadeSkip] had skipped. *)
Lemma cyclic_throw_loses_skips :
  let repo := Examples.repoOf Examples.skipAndCycle in
  exists c r',
    next repo = (Throw (ECyclic c), r') /\
    nextBatch repo = (Throw (ECyclic c), r') /\
    ~ savedCascade repo r' /\
    r_trace r' = [EvLock; EvLoadProgress; EvUnlock] /\
    r_progress r' = Some (Examples.prog Examples.skipAndCycle) /\
    map t_status Examples.skipAndCycle = [Failed; Pending; Pending; Pending] /\
    map t_status (cascadeSkip Examples.skipAndCycle)
    = [Failed; Skipped; Pending; Pending].
Proof.
  intros repo.
  exists [Examples.i003; Examples.i004; Examples.i003],
         (mkRepo (Some (Examples.prog Examples.skipAndCycle)) [] ∅
                 [EvLock; EvLoadProgress; EvUnlock]).
  split; [vm_compute; reflexivity|]. split; [vm_compute; reflexivity|].
  split.
  - intros (data & _ & Hin). simpl in Hin.
    destruct Hin as [H|[H|[H|[]]]]; discriminate H.
  - repeat split; vm_compute; reflexivity.
Qed.

Lemma next_all_done repo data :
  r_progress repo = Some data -> isAllDone (p_tasks data) = true ->
  next repo = (Ret None, readOnly repo).
Proof.
  intros Hp Hd. unfold next. run_port. rewrite Hp. simpl. rewrite Hd. simpl.
  unfold readOnly, emit. simpl. rewrite <- !app_assoc, Hp. reflexivity.
Qed.

Lemma nextBatch_all_done repo data :
  r_progress repo = Some data -> isAllDone (p_tasks data) = true ->
  nextBatch repo = (Ret [], readOnly repo).
Proof.
  intros Hp Hd. unfold nextBatch. run_port. rewrite Hp. simpl. rewrite Hd.
  simpl. unfold readOnly, emit. simpl. rewrite <- !app_assoc, Hp. reflexivity.
Qed.

(** C10.  [isAllDone] of the empty sequence is true; so on a workflow
    without tasks [next] returns [null] and [nextBatch] the empty list right
    after reading the progress: nothing is saved, no task is activated, no
    hook runs, and neither the active-task error nor the cycle error can
    arise. *)
Theorem empty_workflow_returns_at_once :
  isAllDone [] = true /\
  forall repo data,
    r_progress repo = Some data -> p_tasks data = [] ->
    next repo = (Ret None, readOnly repo) /\
    nextBatch repo = (Ret [], readOnly repo).
Proof.
  split; [reflexivity|]. intros repo data Hp Ht. split.
  - apply (next_all_done repo data Hp). rewrite Ht. reflexivity.
  - apply (nextBatch_all_done repo data Hp). rewrite Ht. reflexivity.
Qed.

Lemma empty_workflow_returns_at_once_witness :
  next (Examples.repoOf []) = (Ret None, readOnly (Examples.repoOf [])) /\
  nextBatch (Examples.repoOf []) = (Ret [], readOnly (Examples.repoOf [])).
Proof.
  apply (proj2 empty_workflow_returns_at_once (Examples.repoOf [])
           (Examples.prog [])); reflexivity.
Defined.

(** ** Checkpoint *)

Lemma find_firstWithId tasks id t :
  List.find (fun t => bool_decide (t_id t = id)) tasks = Some t
  <-> firstWithId tasks id t.
Proof.
  induction tasks as [|u rest IH]; simpl.
  - split; [discriminate|]. intros (pre & post & H & _). destruct pre; discriminate.
  - destruct (bool_decide_reflect (t_id u = id)) as [He|Hne].
    + split.
      * intros [= <-]. exists [], rest. split; [reflexivity|].
        split; [assumption|]. intros x Hx. inversion Hx.
      * intros ([|p pre] & post & H & Hid & Hpre).
        -- simpl in H. congruence.
        -- exfalso. simpl in H. injection H as <- _. apply (Hpre u); set_solver.
    + rewrite IH. split.
      * intros (pre & post & -> & Hid & Hpre). exists (u :: pre), post.
        split; [reflexivity|]. split; [assumption|].
        intros x Hx. apply elem_of_cons in Hx as [->|Hx]; auto.
      * intros ([|p pre] & post & H & Hid & Hpre).
        -- simpl in H. congruence.
        -- simpl in H. injection H as <- ->. exists pre, post.
           split; [reflexivity|]. split; [assumption|].
           intros x Hx. apply Hpre. set_solver.
Qed.

Lemma find_None_ids (tasks : list TaskEntry) id :
  List.find (fun t => bool_decide (t_id t = id)) tasks = None
  <-> id ∉ map t_id tasks.
Proof.
  induction tasks as [|u rest IH]; simpl.
  - split; [intros _ H; inversion H|reflexivity].
  - destruct (bool_decide_reflect (t_id u = id)) as [He|Hne].
    + split; [discriminate|]. intros H. exfalso. apply H. set_solver.
    + rewrite IH. set_solver.
Qed.

(** *** Trimming, first line and truncation

    What the string operations of [checkpoint] compute, in the words of the
    specification: [trim] leaves nothing exactly of the blank strings,
    [split('\n')[0]] is the first line and [slice(0, 80)] the truncation;
    each wording has one solution only. *)

Lemma isWhiteSpace_blankUnits c : isWhiteSpace c = true <-> c ∈ blankUnits.
Proof.
  unfold isWhiteSpace, blankUnits.
  rewrite !orb_true_iff, andb_true_iff, !N.eqb_eq, !N.leb_le.
  rewrite !elem_of_cons, elem_of_nil. lia.
Qed.

Lemma trimStart_nil s :
  trimStart s = [] <-> Forall (fun c => isWhiteSpace c = true) s.
Proof.
  induction s as [|c s IH]; simpl.
  - split; [constructor|reflexivity].
  - destruct (isWhiteSpace c) eqn:E.
    + rewrite IH. split; [intros H; constructor; assumption|].
      intros H. inversion H; assumption.
    + split; [discriminate|]. intros H. inversion H; congruence.
Qed.

Lemma trimStart_head s :
  match trimStart s with
  | [] => True
  | c :: _ => isWhiteSpace c = false
  end.
Proof.
  induction s as [|c s IH]; simpl; [exact I|].
  destruct (isWhiteSpace c) eqn:E; [exact IH|exact E].
Qed.

Lemma trim_nil s :
  trim s = [] <-> Forall (fun c => isWhiteSpace c = true) s.
Proof.
  unfold trim. split.
  - intros H. apply (f_equal (@rev N)) in H. rewrite rev_involutive in H.
    simpl in H. apply trimStart_nil, Forall_rev in H.
    rewrite rev_involutive in H. apply trimStart_nil.
    pose proof (trimStart_head s) as Hh.
    destruct (trimStart s) as [|c r]; [reflexivity|].
    inversion H; congruence.
  - intros H. apply trimStart_nil in H. rewrite H. reflexivity.
Qed.

Lemma trim_blank s : trim s = [] <-> blank s.
Proof.
  rewrite trim_nil. unfold blank. rewrite !Forall_forall.
  split; intros H c Hc; apply isWhiteSpace_blankUnits, H, Hc.
Qed.

Lemma firstLine_spec s : firstLineOf s (firstLine s).
Proof.
  unfold firstLineOf. induction s as [|c s [IHn IHs]]; simpl.
  - split; [apply not_elem_of_nil|left; reflexivity].
  - destruct (N.eqb_spec c 10) as [->|Hne].
    + split; [apply not_elem_of_nil|]. right. exists s. reflexivity.
    + split.
      * rewrite not_elem_of_cons. split; [congruence|assumption].
      * destruct IHs as [IHs|[rest IHs]].
        -- left. congruence.
        -- right. exists rest. simpl. congruence.
Qed.

Lemma firstLineOf_inv s line : firstLineOf s line -> line = firstLine s.
Proof.
  revert s. induction line as [|c line IH]; intros s [Hn Hs].
  - destruct Hs as [->|[rest ->]]; reflexivity.
  - apply not_elem_of_cons in Hn as [Hc Hn].
    assert (Hcut : exists s', s = c :: s' /\ firstLineOf s' line).
    { destruct Hs as [->|[rest ->]].
      - exists line. split; [reflexivity|]. split; [assumption|]. left.
        reflexivity.
      - exists (line ++ 10%N :: rest). split; [reflexivity|].
        split; [assumption|]. right. exists rest. reflexivity. }
    destruct Hcut as (s' & -> & Hs'). simpl.
    destruct (N.eqb_spec c 10) as [->|_]; [contradiction|].
    f_equal. apply IH. assumption.
Qed.

Lemma slice0_spec n line : truncatedTo n line (slice0 n line).
Proof.
  exists (skipn n line). unfold slice0.
  split; [symmetry; apply firstn_skipn|apply length_firstn].
Qed.

Lemma truncatedTo_inv n line cut :
  truncatedTo n line cut -> cut = slice0 n line.
Proof.
  intros (rest & -> & Hlen). unfold slice0. rewrite length_app in Hlen.
  rewrite firstn_app.
  destruct (Nat.le_gt_cases n (length cut + length rest)) as [Hle|Hgt].
  - rewrite Nat.min_l in Hlen by assumption. subst n.
    rewrite firstn_all, Nat.sub_diag. simpl. rewrite app_nil_r. reflexivity.
  - rewrite Nat.min_r in Hlen by lia.
    assert (Hr : rest = [])
      by (destruct rest; [reflexivity|simpl in Hlen; lia]).
    subst rest. rewrite firstn_all2 by lia. simpl in *.
    rewrite firstn_nil, app_nil_r. reflexivity.
Qed.

Section checkpoint_facts.
Context (ext : Externals).

Local Abbreviation afterComplete := (afterComplete ext).
Local Abbreviation checkpointBody := (checkpointBody ext).

Lemma quiet_saveTaskContext id text : quiet (saveTaskContext id text).
Proof.
  intros r. eexists tt, _, [EvSaveTaskContext id text].
  split; [reflexivity|]. repeat split. constructor; [exact I|constructor].
Qed.

Lemma quiet_saveSummary text : quiet (saveSummary text).
Proof.
  intros r. eexists tt, _, [EvSaveSummary text].
  split; [reflexivity|]. repeat split. constructor; [exact I|constructor].
Qed.

Lemma quiet_loadContexts tasks acc : quiet (loadContexts tasks acc).
Proof.
  revert acc. induction tasks as [|t rest IH]; intros acc; simpl.
  - apply quiet_ret.
  - apply quiet_bind; [apply quiet_loadTaskContext|]. intros; apply IH.
Qed.

Lemma quiet_updateSummary data : quiet (updateSummary ext data).
Proof.
  apply quiet_bind; [apply quiet_loadContexts|].
  intros; apply quiet_saveSummary.
Qed.

Lemma quiet_commit id title summary files :
  quiet (commit ext id title summary files).
Proof. apply quiet_emit. exact I. Qed.

Lemma quiet_tag id : quiet (tag id).
Proof. apply (quiet_emit tt). exact I. Qed.

Lemma quiet_hook name id title : quiet (runLifecycleHook name id title).
Proof. apply (quiet_emit tt). exact I. Qed.

Lemma quiet_appendFailureContext id task detail :
  quiet (appendFailureContext ext id task detail).
Proof.
  apply quiet_bind; [apply quiet_loadTaskContext|].
  intros; apply quiet_saveTaskContext.
Qed.

Lemma quiet_detectFailurePattern id task :
  quiet (detectFailurePattern ext id task).
Proof.
  apply quiet_bind; [apply quiet_loadTaskContext|]. intros; apply quiet_ret.
Qed.

Lemma quiet_afterComplete id detail files task summaryLine newData :
  quiet (afterComplete id detail files task summaryLine newData).
Proof.
  unfold ServiceSpec.afterComplete.
  apply quiet_bind; [apply quiet_saveTaskContext|]. intros _.
  apply quiet_bind; [apply quiet_updateSummary|]. intros _.
  apply quiet_bind; [apply quiet_commit|]. intros commitErr.
  apply quiet_bind;
    [destruct commitErr as [[|c cs]|];
     [apply quiet_tag|apply quiet_ret|apply quiet_tag]|].
  intros _. apply quiet_bind; [apply quiet_hook|]. intros _. apply quiet_ret.
Qed.

Lemma checkpoint_unfold repo data id detail files :
  r_progress repo = Some data ->
  checkpoint ext id detail files repo =
    finally
      (match List.find (fun t => bool_decide (t_id t = id)) (p_tasks data) with
       | None => throw (ETaskNotFound id)
       | Some task => checkpointBody data id detail files task
       end)
      unlock (emit EvLoadProgress (emit EvLock repo)).
Proof.
  intros Hp.
  unfold checkpoint, ServiceSpec.checkpointBody, ServiceSpec.afterComplete.
  unfold finally, mbind at 1, M_bind at 1, bind at 1, lock.
  unfold requireProgress, mbind at 1, M_bind at 1, bind at 1, loadProgress.
  unfold mbind at 1, M_bind at 1, bind at 1. cbv beta.
  change (r_progress (emit EvLock repo)) with (r_progress repo).
  rewrite Hp. reflexivity.
Qed.

Lemma completeTask_present data id summary :
  id ∈ map t_id (p_tasks data) ->
  completeTask data id summary = Ret (completed data id summary).
Proof.
  intros H. apply buildIndex_is_Some in H as [u Hu].
  unfold completeTask. rewrite Hu. reflexivity.
Qed.

Lemma failTask_present data id :
  id ∈ map t_id (p_tasks data) ->
  exists res data', failTask data id = Ret (res, data').
Proof.
  intros H. apply buildIndex_is_Some in H as [u Hu].
  unfold failTask. rewrite Hu. destruct (3 <=? _); eauto.
Qed.

Lemma body_not_active data id detail files task r :
  t_status task <> Active ->
  checkpointBody data id detail files task r
  = (Throw (ETaskNotActive id (t_status task)), r).
Proof.
  intros H. unfold ServiceSpec.checkpointBody.
  rewrite bool_decide_eq_false_2 by assumption. reflexivity.
Qed.

Lemma body_failed data id detail files task r :
  t_status task = Active -> detail = sentinelFailed ->
  id ∈ map t_id (p_tasks data) ->
  exists msg r', checkpointBody data id detail files task r = (Ret msg, r').
Proof.
  intros Ha Hd Hin. unfold ServiceSpec.checkpointBody.
  rewrite (bool_decide_eq_true_2 _ Ha), (bool_decide_eq_true_2 _ Hd). simpl.
  destruct (failTask_present data id Hin) as (res & data' & Hf). rewrite Hf.
  unfold mbind, M_bind, bind.
  destruct (quiet_appendFailureContext id task detail r)
    as ([] & r1 & e1 & -> & _).
  destruct (quiet_detectFailurePattern id task r1)
    as (w & r2 & e2 & -> & _).
  simpl. eauto.
Qed.

Lemma body_empty data id detail files task r :
  t_status task = Active -> detail <> sentinelFailed -> trim detail = [] ->
  checkpointBody data id detail files task r = (Throw (ECheckpointEmpty id), r).
Proof.
  intros Ha Hd Ht. unfold ServiceSpec.checkpointBody.
  rewrite (bool_decide_eq_true_2 _ Ha), (bool_decide_eq_false_2 _ Hd),
    (bool_decide_eq_true_2 _ Ht). reflexivity.
Qed.

Lemma body_done data id detail files task r :
  t_status task = Active -> detail <> sentinelFailed -> trim detail <> [] ->
  id ∈ map t_id (p_tasks data) ->
  let newData := completed data id (slice0 80 (firstLine detail)) in
  exists msg r' evs,
    checkpointBody data id detail files task r = (Ret msg, r') /\
    r_progress r' = Some newData /\
    r_trace r' = r_trace r ++ EvSaveProgress newData :: evs /\
    Forall notSave evs.
Proof.
  intros Ha Hd Ht Hin newData. unfold ServiceSpec.checkpointBody.
  rewrite (bool_decide_eq_true_2 _ Ha), (bool_decide_eq_false_2 _ Hd),
    (bool_decide_eq_false_2 _ Ht). simpl.
  rewrite (completeTask_present _ _ _ Hin). fold newData.
  unfold mbind at 1 2, M_bind at 1 2, bind at 1 2, lift, saveProgress.
  match goal with |- context [afterComplete ?a ?b ?c ?d ?e ?f ?r0] =>
    destruct (quiet_afterComplete a b c d e f r0)
      as (msg & r1 & evs & E & P & T & F)
  end.
  exists msg, r1, evs. rewrite E. split; [reflexivity|].
  split; [rewrite P; reflexivity|]. split; [|assumption].
  rewrite T. simpl. rewrite <- app_assoc. reflexivity.
Qed.

Lemma finally_unlock {A} (body : M A) r o r1 :
  body r = (o, r1) -> o <> Diverge ->
  finally body unlock r = (o, emit EvUnlock r1).
Proof.
  intros E Ho. unfold finally. rewrite E.
  destruct o; [reflexivity|reflexivity|contradiction].
Qed.

(** C8.  On a stored workflow, [checkpoint] throws the task-not-found error
    exactly when no task has the id, and the task-not-active error exactly
    when the task with the id is not active.  For an active task and a detail
    other than the word FAILED, it throws the checkpoint-content-empty error
    exactly when the detail is blank, that is holds only code units that
    trimming removes; otherwise it returns, and the progress it has saved,
    which is the stored one, has that task done with, as summary, the first
    line of the detail truncated to 80 code units: what precedes the first
    line feed, cut after 80 units when it is longer. *)
Theorem checkpoint_correct repo data id detail files :
  r_progress repo = Some data ->
  let out := checkpoint ext id detail files repo in
  (fst out = Throw (ETaskNotFound id) <-> id ∉ map t_id (p_tasks data)) /\
  (forall st, fst out = Throw (ETaskNotActive id st) <->
              exists t, firstWithId (p_tasks data) id t /\
                        t_status t = st /\ st <> Active) /\
  (forall t,
     firstWithId (p_tasks data) id t -> t_status t = Active ->
     detail <> failedWord ->
     (fst out = Throw (ECheckpointEmpty id) <-> blank detail) /\
     (~ blank detail ->
      exists line summaryLine msg evs,
        firstLineOf detail line /\ truncatedTo 80 line summaryLine /\
        length summaryLine <= 80 /\
        fst out = Ret msg /\
        r_progress (snd out) = Some (completed data id summaryLine) /\
        r_trace (snd out) =
          r_trace repo ++ [EvLock; EvLoadProgress;
                           EvSaveProgress (completed data id summaryLine)]
                       ++ evs /\
        Forall notSave evs /\
        forall i u, p_tasks data !! i = Some u -> t_id u = id ->
          exists u', p_tasks (completed data id summaryLine) !! i = Some u' /\
                     t_status u' = Done /\ t_summary u' = summaryLine)).
Proof.
  intros Hp out. subst out. rewrite (checkpoint_unfold _ _ _ _ _ Hp).
  set (r0 := emit EvLoadProgress (emit EvLock repo)).
  pose proof (trim_blank detail) as Hblank.
  change failedWord with sentinelFailed.
  destruct (List.find _ (p_tasks data)) as [task|] eqn:Hfind.
  - (* the id denotes a task *)
    pose proof Hfind as Hfw. apply find_firstWithId in Hfw.
    assert (Hin : id ∈ map t_id (p_tasks data)).
    { destruct Hfw as (pre & post & -> & <- & _). rewrite map_app. set_solver. }
    assert (Huniq : forall t, firstWithId (p_tasks data) id t -> t = task).
    { intros t Ht. apply find_firstWithId in Ht. congruence. }
    destruct (decide (t_status task = Active)) as [Ha|Hna].
    + destruct (decide (detail = sentinelFailed)) as [Hd|Hd].
      * destruct (body_failed data id detail files task r0 Ha Hd Hin)
          as (msg & r1 & E).
        rewrite (finally_unlock _ _ _ _ E) by discriminate. simpl.
        split; [split; [discriminate|contradiction]|].
        split.
        -- intros st. split; [discriminate|].
           intros (t & Ht & Hs & Hne). rewrite (Huniq t Ht) in Hs. congruence.
        -- intros t _ _ Hne. contradiction.
      * destruct (decide (trim detail = [])) as [Ht|Ht].
        -- rewrite (finally_unlock _ _ _ _
                      (body_empty data id detail files task r0 Ha Hd Ht))
             by discriminate. simpl.
           split; [split; [discriminate|contradiction]|].
           split.
           ++ intros st. split; [discriminate|].
              intros (t & Hft & Hs & Hne). rewrite (Huniq t Hft) in Hs.
              congruence.
           ++ intros t _ _ _. split; [tauto|]. intros Hnb. tauto.
        -- destruct (body_done data id detail files task r0 Ha Hd Ht Hin)
             as (msg & r1 & evs & E & P & T & F).
           rewrite (finally_unlock _ _ _ _ E) by discriminate. simpl.
           split; [split; [discriminate|contradiction]|].
           split.
           ++ intros st. split; [discriminate|].
              intros (t & Hft & Hs & Hne). rewrite (Huniq t Hft) in Hs.
              congruence.
           ++ intros t _ _ _. split; [split; [discriminate|tauto]|].
              intros _.
              exists (firstLine detail), (slice0 80 (firstLine detail)),
                     msg, (evs ++ [EvUnlock]).
              split; [apply firstLine_spec|].
              split; [apply slice0_spec|].
              split; [unfold slice0; rewrite length_firstn; lia|].
              split; [reflexivity|]. split; [assumption|].
              split; [|split].
              ** rewrite T. unfold r0. simpl. rewrite <- !app_assoc.
                 reflexivity.
              ** apply Forall_app. split; [assumption|].
                 constructor; [exact I|constructor].
              ** intros i u Hi Hu. eexists. split.
                 { simpl. rewrite list_lookup_fmap, Hi. simpl.
                   rewrite decide_True by assumption. reflexivity. }
                 split; reflexivity.
    + rewrite (finally_unlock _ _ _ _
                 (body_not_active data id detail files task r0 Hna))
        by discriminate. simpl.
      split; [split; [discriminate|contradiction]|].
      split.
      * intros st. split.
        -- intros [= <-]. exists task. auto.
        -- intros (t & Hft & Hs & Hne). rewrite (Huniq t Hft) in Hs.
           congruence.
      * intros t Hft Hta. rewrite (Huniq t Hft) in Hta. contradiction.
  - (* no task has the id *)
    pose proof Hfind as Hnone. apply find_None_ids in Hnone.
    rewrite (finally_unlock _ r0 (Throw (ETaskNotFound id)) r0)
      by (reflexivity || discriminate). simpl.
    split; [tauto|]. split.
    + intros st. split; [discriminate|].
      intros (t & Hft & _). apply find_firstWithId in Hft. congruence.
    + intros t Hft. apply find_firstWithId in Hft. congruence.
Qed.

Lemma checkpoint_not_active repo data id t detail files :
  r_progress repo = Some data ->
  firstWithId (p_tasks data) id t -> t_status t <> Active ->
  checkpoint ext id detail files repo
  = (Throw (ETaskNotActive id (t_status t)), readOnly repo).
Proof.
  intros Hp Hft Hna. rewrite (checkpoint_unfold _ _ _ _ _ Hp).
  apply find_firstWithId in Hft. rewrite Hft.
  rewrite (finally_unlock _ _ _ _ (body_not_active data id detail files t _ Hna))
    by discriminate.
  unfold readOnly, emit. simpl. rewrite <- !app_assoc. reflexivity.
Qed.

(** C9.  [failTask] does not look at the status of the task it names: the
    same call on an aggregate in which that task has any other status gives
    the same result, so a done, skipped or failed task too gets one more
    retry and becomes pending or failed.  What keeps [failTask] away from
    such a task is the check of [checkpoint], which throws the
    task-not-active error, and saves nothing, before it would call it. *)
Theorem failTask_ignores_status :
  (forall data i t s,
     uniqueIds (p_tasks data) -> p_tasks data !! i = Some t ->
     failTask (mkProgress (p_name data) (p_status data) (p_current data)
                 (<[i := withStatus t s]> (p_tasks data))) (t_id t)
     = failTask data (t_id t) /\
     exists res data' t',
       failTask data (t_id t) = Ret (res, data') /\
       p_tasks data' !! i = Some t' /\
       t_retries t' = t_retries t + 1 /\
       (t_status t' = Pending \/ t_status t' = Failed)) /\
  (forall repo data id t detail files,
     r_progress repo = Some data ->
     firstWithId (p_tasks data) id t -> t_status t <> Active ->
     checkpoint ext id detail files repo
     = (Throw (ETaskNotActive id (t_status t)), readOnly repo)).
Proof.
  split; [|apply checkpoint_not_active].
  intros data i t s Hnd Hi. split; [apply failTask_any_status; assumption|].
  rewrite (failTask_unique data t Hnd)
    by (apply (list_elem_of_lookup_2 _ i); assumption).
  eexists _, _, (failedOnce t). split; [reflexivity|].
  split; [apply failStep_lookup; auto|]. split; [reflexivity|].
  unfold failedOnce. destruct (3 <=? t_retries t + 1); simpl; auto.
Qed.

End checkpoint_facts.

Lemma checkpoint_correct_witness :
  let repo := Examples.repoOf Examples.oneActive in
  let data := Examples.prog Examples.oneActive in
  let long := checkpoint Examples.silent Examples.i001 Examples.longDetail
                         None repo in
  let empty := checkpoint Examples.silent Examples.i001 Examples.blankDetail
                          None repo in
  let cut := repeat 97%N 80 in
  (exists msg evs,
     fst long = Ret msg /\
     r_progress (snd long) = Some (completed data Examples.i001 cut) /\
     r_trace (snd long) =
       r_trace repo ++ [EvLock; EvLoadProgress;
                        EvSaveProgress (completed data Examples.i001 cut)]
                    ++ evs /\
     Forall notSave evs /\
     forall i u, Examples.oneActive !! i = Some u -> t_id u = Examples.i001 ->
       exists u', p_tasks (completed data Examples.i001 cut) !! i = Some u' /\
                  t_status u' = Done /\ t_summary u' = cut) /\
  fst empty = Throw (ECheckpointEmpty Examples.i001).
Proof.
  intros repo data long empty cut.
  assert (Hfirst : firstWithId (p_tasks data) Examples.i001
                     (Examples.task Examples.i001 Active [])).
  { exists [], []. split; [reflexivity|]. split; [reflexivity|].
    intros u Hu. inversion Hu. }
  split.
  - destruct (checkpoint_correct Examples.silent repo data Examples.i001
                Examples.longDetail None eq_refl) as (_ & _ & H).
    destruct (H (Examples.task Examples.i001 Active []) Hfirst eq_refl)
      as [_ Hdone]; [discriminate|].
    destruct Hdone as (line & summaryLine & msg & evs & Hl & Hc & _ & Hrest).
    + intros Hb. inversion Hb as [|c l Hc _]; subst.
      repeat (apply elem_of_cons in Hc as [Hc|Hc]; [discriminate Hc|]).
      inversion Hc.
    + apply firstLineOf_inv in Hl. apply truncatedTo_inv in Hc. subst.
      exists msg, evs. exact Hrest.
  - destruct (checkpoint_correct Examples.silent repo data Examples.i001
                Examples.blankDetail None eq_refl) as (_ & _ & H).
    destruct (H (Examples.task Examples.i001 Active []) Hfirst eq_refl)
      as [Hempty _]; [discriminate|].
    apply Hempty. unfold blank, Examples.blankDetail, blankUnits.
    repeat (constructor; [rewrite !elem_of_cons; tauto|]). constructor.
Defined.

Lemma failTask_ignores_status_witness :
  failTask (Examples.prog [Examples.task Examples.i001 Done []]) Examples.i001
  = failTask (Examples.prog Examples.oneActive) Examples.i001 /\
  checkpoint Examples.silent Examples.i001 sentinelFailed None
             (Examples.repoOf [Examples.task Examples.i001 Done []])
  = (Throw (ETaskNotActive Examples.i001 Done),
     readOnly (Examples.repoOf [Examples.task Examples.i001 Done []])).
Proof.
  destruct (failTask_ignores_status Examples.silent) as [Hfail Hcheck].
  split.
  - apply (proj1 (Hfail (Examples.prog Examples.oneActive) 0
                    (Examples.task Examples.i001 Active []) Done
                    (NoDup_singleton _) eq_refl)).
  - apply (Hcheck _ (Examples.prog [Examples.task Examples.i001 Done []])
             Examples.i001 (Examples.task Examples.i001 Done [])).
    + reflexivity.
    + exists [], []. split; [reflexivity|]. split; [reflexivity|].
      intros u Hu. inversion Hu.
    + discriminate.
Defined.

End ServiceFacts.

(** ** The object store *)

Module HeapFacts.
Import IndexFacts CascadeSpec TransitionSpec TransitionFacts CascadeFacts.
Import Heap HeapSpec.

Implicit Types (s : Store) (ls : list loc) (ts : list TaskEntry).

Lemma taskExt_refl s : taskExt s s.
Proof. split; [reflexivity|split; reflexivity]. Qed.

Lemma taskExt_trans s1 s2 s3 : taskExt s1 s2 -> taskExt s2 s3 -> taskExt s1 s3.
Proof.
  intros (T1 & A1 & P1) (T2 & A2 & P2).
  split; [etrans; eassumption|]. split; congruence.
Qed.

Lemma denotes_mono s s' ls ts :
  s_tasks s ⊆ s_tasks s' -> denotes s ls ts -> denotes s' ls ts.
Proof.
  intros Hsub Hd. eapply Forall2_impl; [exact Hd|]. intros l t Hl.
  cbv beta in *. eapply lookup_weaken; eassumption.
Qed.

Lemma viewTasks_denotes s ls ts : viewTasks s ls = Some ts <-> denotes s ls ts.
Proof. apply mapM_Some. Qed.

Lemma allocTask_spec t s :
  exists l, allocTask t s
            = Ret (l, mkStore (<[l := t]> (s_tasks s)) (s_arrays s) (s_progs s))
            /\ s_tasks s !! l = None.
Proof.
  eexists. split; [reflexivity|].
  apply not_elem_of_dom. apply is_fresh.
Qed.

Lemma allocTask_ext t s :
  exists l s', allocTask t s = Ret (l, s') /\ taskExt s s' /\
               s_tasks s' !! l = Some t.
Proof.
  destruct (allocTask_spec t s) as (l & E & Hf). eexists _, _.
  split; [exact E|]. split.
  - split; [apply insert_subseteq; assumption|]. split; reflexivity.
  - apply lookup_insert_eq.
Qed.

(** [map] with a callback that copies or keeps each element. *)
Lemma mapRefs_spec (cb : loc -> H loc) (g : TaskEntry -> TaskEntry) :
  (forall l t s, s_tasks s !! l = Some t ->
     exists l' s', cb l s = Ret (l', s') /\ taskExt s s' /\
                   s_tasks s' !! l' = Some (g t)) ->
  forall ls ts s, denotes s ls ts ->
    exists ls' s', mapRefs cb ls s = Ret (ls', s') /\ taskExt s s' /\
                   denotes s' ls' (map g ts).
Proof.
  intros Hcb ls. induction ls as [|l ls IH]; intros ts s Hd.
  - apply Forall2_nil_inv_l in Hd as ->. exists [], s.
    split; [reflexivity|]. split; [apply taskExt_refl|]. constructor.
  - apply Forall2_cons_inv_l in Hd as (t & ts' & Hl & Hd & ->).
    destruct (Hcb l t s Hl) as (l' & s1 & E1 & X1 & L1).
    destruct (IH ts' s1) as (ls' & s2 & E2 & X2 & D2).
    { eapply denotes_mono; [apply X1|assumption]. }
    exists (l' :: ls'), s2. simpl. unfold mbind, H_bind, hbind.
    rewrite E1, E2. split; [reflexivity|].
    split; [eapply taskExt_trans; eassumption|].
    constructor; [|assumption].
    eapply lookup_weaken; [eassumption|apply X2].
Qed.

Lemma readTask_ok s l t : s_tasks s !! l = Some t -> readTask l s = Ret (t, s).
Proof. intros H. unfold readTask. rewrite H. reflexivity. Qed.

(** The two shapes of callback: copy with a change, or keep. *)
Lemma copy_or_keep (P : TaskEntry -> Prop) `{forall t, Decision (P t)}
    (f : TaskEntry -> TaskEntry) l t s :
  s_tasks s !! l = Some t ->
  exists l' s',
    (t0 ← readTask l; if decide (P t0) then allocTask (f t0) else mret l) s
    = Ret (l', s') /\ taskExt s s' /\
    s_tasks s' !! l' = Some (if decide (P t) then f t else t).
Proof.
  intros Hl. unfold mbind, H_bind, hbind. rewrite (readTask_ok _ _ _ Hl).
  destruct (decide (P t)).
  - apply allocTask_ext.
  - exists l, s. split; [reflexivity|]. split; [apply taskExt_refl|assumption].
Qed.

Lemma mapRefs_copy_or_keep (P : TaskEntry -> Prop)
    `{forall t, Decision (P t)} (f : TaskEntry -> TaskEntry) ls ts s :
  denotes s ls ts ->
  exists ls' s',
    mapRefs (fun l => t0 ← readTask l;
                      if decide (P t0) then allocTask (f t0) else mret l) ls s
    = Ret (ls', s') /\ taskExt s s' /\
    denotes s' ls' (map (fun t => if decide (P t) then f t else t) ts).
Proof.
  apply (mapRefs_spec _ (fun t => if decide (P t) then f t else t)).
  intros l t s0. apply copy_or_keep.
Qed.

Lemma indexView_mono s s' idxh idx :
  s_tasks s ⊆ s_tasks s' -> indexView s idxh idx -> indexView s' idxh idx.
Proof.
  intros Hsub Hv d. specialize (Hv d). destruct (idxh !! d); [|assumption].
  destruct Hv as (u & Hu & Hd). exists u.
  split; [eapply lookup_weaken; eassumption|assumption].
Qed.

Lemma buildIndexFrom_spec s ls ts mh m :
  denotes s ls ts -> indexView s mh m ->
  exists idxh, buildIndexFrom ls mh s = Ret (idxh, s) /\
    indexView s idxh (fold_left (fun m t => <[t_id t := t]> m) ts m).
Proof.
  intros Hd. revert mh m. induction Hd as [|l t ls ts Hl Hd IH]; intros mh m Hv.
  - exists mh. split; [reflexivity|assumption].
  - simpl. unfold mbind, H_bind, hbind. rewrite (readTask_ok _ _ _ Hl).
    apply IH. intros d. rewrite !lookup_insert. case_decide; [|apply Hv].
    eauto.
Qed.

Lemma buildIndex_spec s ls ts :
  denotes s ls ts ->
  exists idxh, buildIndex ls s = Ret (idxh, s) /\
               indexView s idxh (TaskStore.buildIndex ts).
Proof.
  intros Hd. apply buildIndexFrom_spec; [assumption|].
  intros d. rewrite !lookup_empty. reflexivity.
Qed.

Lemma viewProg_inv s p data :
  viewProg s p = Some data ->
  exists o ls, s_progs s !! p = Some o /\ s_arrays s !! o_tasks o = Some ls /\
               denotes s ls (p_tasks data) /\
               data = mkProgress (o_name o) (o_status o) (o_current o)
                                 (p_tasks data).
Proof.
  unfold viewProg, viewArray. intros H.
  destruct (s_progs s !! p) as [o|] eqn:Ho; [|discriminate]. simpl in H.
  destruct (s_arrays s !! o_tasks o) as [ls|] eqn:Ha; [|discriminate].
  simpl in H. destruct (viewTasks s ls) as [ts|] eqn:Hv; [|discriminate].
  simpl in H. injection H as <-. exists o, ls.
  split; [reflexivity|]. split; [assumption|].
  split; [apply viewTasks_denotes; assumption|reflexivity].
Qed.

Lemma viewProg_intro s p o ls ts :
  s_progs s !! p = Some o -> s_arrays s !! o_tasks o = Some ls ->
  denotes s ls ts ->
  viewProg s p = Some (mkProgress (o_name o) (o_status o) (o_current o) ts).
Proof.
  intros Ho Ha Hd. unfold viewProg, viewArray. rewrite Ho. simpl.
  rewrite Ha. simpl. apply viewTasks_denotes in Hd. rewrite Hd. reflexivity.
Qed.

Lemma viewProg_mono s s' p data :
  unchanged s s' -> viewProg s p = Some data -> viewProg s' p = Some data.
Proof.
  intros (Ht & Ha & Hp) Hv.
  apply viewProg_inv in Hv as (o & ls & Ho & Hl & Hd & ->).
  apply (viewProg_intro _ _ o ls).
  - eapply lookup_weaken; eassumption.
  - eapply lookup_weaken; eassumption.
  - eapply denotes_mono; eassumption.
Qed.

(** Allocating the new array and the new aggregate. *)
Lemma publish s0 s ls ts name st cur :
  taskExt s0 s -> denotes s ls ts ->
  exists p s',
    (tasks ← allocArray ls; allocProg (mkProgObj name st cur tasks)) s
    = Ret (p, s') /\
    unchanged s0 s' /\ s_progs s0 !! p = None /\
    viewProg s' p = Some (mkProgress name st cur ts).
Proof.
  intros (Ht & Ha & Hp) Hd. unfold mbind, H_bind, hbind, allocArray, allocProg.
  set (a := fresh (dom (s_arrays s))).
  set (p := fresh (dom (s_progs s))). simpl.
  assert (Hfa : s_arrays s !! a = None) by apply not_elem_of_dom, is_fresh.
  assert (Hfp : s_progs s !! p = None) by apply not_elem_of_dom, is_fresh.
  eexists p, _. split; [reflexivity|]. split; [|split].
  - split; [assumption|]. simpl. split.
    + rewrite <- Ha. apply insert_subseteq. exact Hfa.
    + rewrite <- Hp. apply insert_subseteq. exact Hfp.
  - rewrite <- Hp. assumption.
  - apply (viewProg_intro _ _ (mkProgObj name st cur a) ls); simpl.
    + apply lookup_insert_eq.
    + apply lookup_insert_eq.
    + assumption.
Qed.

Lemma readProg_ok s p o : s_progs s !! p = Some o -> readProg p s = Ret (o, s).
Proof. intros H. unfold readProg. rewrite H. reflexivity. Qed.

Lemma readArray_ok s a ls :
  s_arrays s !! a = Some ls -> readArray a s = Ret (ls, s).
Proof. intros H. unfold readArray. rewrite H. reflexivity. Qed.

Lemma completeTask_refines s p data id summary :
  viewProg s p = Some data ->
  match TaskStore.completeTask data id summary with
  | Ret d' =>
      exists p' s', Heap.completeTask p id summary s = Ret (p', s') /\
                    unchanged s s' /\ s_progs s !! p' = None /\
                    viewProg s' p' = Some d'
  | Throw e => Heap.completeTask p id summary s = Throw e
  | Diverge => False
  end.
Proof.
  intros Hv. apply viewProg_inv in Hv as (o & ls & Ho & Ha & Hd & ->).
  destruct (buildIndex_spec s ls _ Hd) as (idxh & Ei & Hidx).
  specialize (Hidx id).
  assert (Hhead : Heap.completeTask p id summary s =
            match idxh !! id with
            | None => Throw (ETaskNotFound id)
            | Some _ =>
                (ls' ← mapRefs (fun l => t ← readTask l;
                                   if decide (t_id t = id)
                                   then allocTask (withStatusSummary t Done summary)
                                   else mret l) ls;
                 tasks ← allocArray ls';
                 allocProg (mkProgObj (o_name o) (o_status o) None tasks)) s
            end).
  { unfold Heap.completeTask. unfold mbind at 1 2 3, H_bind, hbind at 1 2 3.
    rewrite (readProg_ok _ _ _ Ho), (readArray_ok _ _ _ Ha), Ei.
    destruct (idxh !! id); reflexivity. }
  rewrite Hhead. clear Hhead.
  unfold TaskStore.completeTask. simpl p_tasks.
  destruct (idxh !! id) as [l|].
  - destruct Hidx as (u & _ & ->). simpl.
    destruct (mapRefs_copy_or_keep (fun t => t_id t = id)
                (fun t => withStatusSummary t Done summary) ls _ s Hd)
      as (ls' & s1 & E1 & X1 & D1).
    cbv beta in E1, D1.
    unfold mbind at 1, H_bind at 1, hbind at 1. rewrite E1.
    apply publish; assumption.
  - rewrite Hidx. reflexivity.
Qed.

Lemma failTask_refines s p data id :
  viewProg s p = Some data ->
  match TaskStore.failTask data id with
  | Ret (res, d') =>
      exists p' s', Heap.failTask p id s = Ret ((res, p'), s') /\
                    unchanged s s' /\ s_progs s !! p' = None /\
                    viewProg s' p' = Some d'
  | Throw e => Heap.failTask p id s = Throw e
  | Diverge => False
  end.
Proof.
  intros Hv. apply viewProg_inv in Hv as (o & ls & Ho & Ha & Hd & ->).
  destruct (buildIndex_spec s ls _ Hd) as (idxh & Ei & Hidx).
  specialize (Hidx id).
  assert (Hhead : Heap.failTask p id s =
            match idxh !! id with
            | None => Throw (ETaskNotFound id)
            | Some oldRef =>
                (old ← readTask oldRef;
                 let retries := t_retries old + 1 in
                 let st := if 3 <=? retries then Failed else Pending in
                 ls' ← mapRefs (fun l => t ← readTask l;
                                   if decide (t_id t = id)
                                   then allocTask (withRetriesStatus t retries st)
                                   else mret l) ls;
                 tasks ← allocArray ls';
                 p ← allocProg (mkProgObj (o_name o) (o_status o) None tasks);
                 mret (if 3 <=? retries then TaskStore.Skip
                       else TaskStore.Retry, p)) s
            end).
  { unfold Heap.failTask. unfold mbind at 1 2 3, H_bind, hbind at 1 2 3.
    rewrite (readProg_ok _ _ _ Ho), (readArray_ok _ _ _ Ha), Ei.
    destruct (idxh !! id); reflexivity. }
  rewrite Hhead. clear Hhead.
  unfold TaskStore.failTask. simpl p_tasks.
  destruct (idxh !! id) as [l|].
  - destruct Hidx as (u & Hu & ->).
    unfold mbind at 1, H_bind at 1, hbind at 1. rewrite (readTask_ok _ _ _ Hu).
    cbv zeta.
    destruct (mapRefs_copy_or_keep (fun t => t_id t = id)
                (fun t => withRetriesStatus t (t_retries u + 1)
                            (if 3 <=? t_retries u + 1 then Failed else Pending))
                ls _ s Hd)
      as (ls' & s1 & E1 & X1 & D1).
    cbv beta in E1, D1.
    unfold mbind at 1, H_bind at 1, hbind at 1. rewrite E1.
    destruct (publish s s1 ls' _ (o_name o) (o_status o) None X1 D1)
      as (p' & s2 & E2 & U2 & F2 & V2).
    unfold mbind, H_bind, hbind in E2 |- *.
    destruct (allocArray ls' s1) as [[a sa]| |]; try discriminate.
    rewrite E2.
    destruct (3 <=? t_retries u + 1) eqn:E3; simpl p_name; simpl p_status;
      exists p', s2; (split; [reflexivity|]);
      (split; [assumption|]); (split; [assumption|]); exact V2.
  - rewrite Hidx. reflexivity.
Qed.

Lemma hasActive_spec s ls ts :
  denotes s ls ts ->
  hasActive ls s
  = Ret (existsb (fun t => bool_decide (t_status t = Active)) ts, s).
Proof.
  induction 1 as [|l t ls ts Hl Hd IH]; [reflexivity|].
  simpl. unfold mbind, H_bind, hbind. rewrite (readTask_ok _ _ _ Hl).
  destruct (bool_decide (t_status t = Active)); [reflexivity|exact IH].
Qed.

Lemma resumeMap_spec ls :
  forall ts s fid, denotes s ls ts ->
    exists ls' s',
      Heap.resumeMap ls fid s
      = Ret ((ls', snd (TaskStore.resumeMap ts fid)), s') /\
      taskExt s s' /\ denotes s' ls' (fst (TaskStore.resumeMap ts fid)).
Proof.
  induction ls as [|l ls IH]; intros ts s fid Hd.
  - apply Forall2_nil_inv_l in Hd as ->. exists [], s.
    split; [reflexivity|]. split; [apply taskExt_refl|constructor].
  - apply Forall2_cons_inv_l in Hd as (t & ts' & Hl & Hd & ->).
    simpl. unfold mbind at 1, H_bind at 1, hbind at 1.
    rewrite (readTask_ok _ _ _ Hl).
    destruct (decide (t_status t = Active)).
    + destruct (allocTask_ext (withStatus t Pending) s)
        as (l' & s1 & E1 & X1 & L1).
      unfold mbind at 1, H_bind at 1, hbind at 1. rewrite E1.
      destruct (IH ts' s1 (if TaskStore.falsyId fid then Some (t_id t)
                           else fid))
        as (ls' & s2 & E2 & X2 & D2).
      { eapply denotes_mono; [apply X1|assumption]. }
      unfold mbind, H_bind, hbind. rewrite E2.
      destruct (TaskStore.resumeMap ts' _) as [rest' fid'].
      exists (l' :: ls'), s2. split; [reflexivity|].
      split; [eapply taskExt_trans; eassumption|].
      constructor; [|assumption].
      eapply lookup_weaken; [eassumption|apply X2].
    + destruct (IH ts' s fid Hd) as (ls' & s2 & E2 & X2 & D2).
      unfold mbind, H_bind, hbind. rewrite E2.
      destruct (TaskStore.resumeMap ts' _) as [rest' fid'].
      exists (l :: ls'), s2. split; [reflexivity|]. split; [assumption|].
      constructor; [|assumption].
      eapply lookup_weaken; [eassumption|apply X2].
Qed.

Lemma resumeProgress_refines s p data :
  viewProg s p = Some data ->
  exists p' s',
    Heap.resumeProgress p s
    = Ret ((p', snd (TaskStore.resumeProgress data)), s') /\
    unchanged s s' /\
    viewProg s' p' = Some (fst (TaskStore.resumeProgress data)) /\
    ((forall t, t ∈ p_tasks data -> t_status t <> Active) ->
     p' = p /\ s' = s).
Proof.
  intros Hv. pose proof Hv as Hv0.
  apply viewProg_inv in Hv as (o & ls & Ho & Ha & Hd & Hdata).
  destruct data as [nm st cur ts]. simpl in Hd, Hdata |- *.
  injection Hdata as -> -> ->.
  assert (Hhead : Heap.resumeProgress p s =
            if negb (existsb (fun t => bool_decide (t_status t = Active))
                             ts)
            then Ret ((p, if decide (o_status o = Running)
                          then o_current o else None), s)
            else (r ← Heap.resumeMap ls None;
                  tasks ← allocArray (fst r);
                  p ← allocProg (mkProgObj (o_name o) Running None tasks);
                  mret (p, snd r)) s).
  { unfold Heap.resumeProgress. unfold mbind at 1 2 3, H_bind, hbind at 1 2 3.
    rewrite (readProg_ok _ _ _ Ho), (readArray_ok _ _ _ Ha),
      (hasActive_spec _ _ _ Hd).
    destruct (negb _); reflexivity. }
  rewrite Hhead. clear Hhead. unfold TaskStore.resumeProgress.
  cbn [p_tasks p_status p_current p_name].
  destruct (existsb _ ts) eqn:Hact; simpl negb; cbv iota.
  - destruct (resumeMap_spec ls _ s None Hd) as (ls' & s1 & E1 & X1 & D1).
    unfold mbind at 1, H_bind at 1, hbind at 1. rewrite E1.
    destruct (TaskStore.resumeMap ts None) as [ts' fid].
    simpl in D1. simpl fst. simpl snd.
    destruct (publish s s1 ls' ts' (o_name o) Running None X1 D1)
      as (p' & s2 & E2 & U2 & F2 & V2).
    unfold mbind, H_bind, hbind in E2 |- *.
    destruct (allocArray ls' s1) as [[a sa]| |]; try discriminate.
    rewrite E2. exists p', s2. split; [reflexivity|].
    split; [assumption|]. split; [assumption|].
    intros Hna. rewrite hasActive_false in Hact by assumption. discriminate.
  - exists p, s. split; [reflexivity|].
    split; [split; [reflexivity|split; reflexivity]|].
    split; [assumption|]. auto.
Qed.

(** *** Cascade skip over the store *)

Lemma blocked_refines s idxh idx deps :
  indexView s idxh idx ->
  Heap.blocked idxh deps s
  = Ret (existsb (fun d => match idx !! d with
                           | Some dep => bool_decide (t_status dep = Failed)
                                         || bool_decide (t_status dep = Skipped)
                           | None => false
                           end) deps, s).
Proof.
  intros Hv. induction deps as [|d deps IH]; [reflexivity|]. simpl.
  specialize (Hv d). destruct (idxh !! d) as [l|].
  - destruct Hv as (u & Hu & ->). unfold mbind, H_bind, hbind.
    rewrite (readTask_ok _ _ _ Hu).
    destruct (bool_decide (t_status u = Failed) || _); [reflexivity|exact IH].
  - rewrite Hv. exact IH.
Qed.

Lemma cascadeFor_refines idxh idx r n :
  forall i changed s cur vals,
    s_arrays s !! r = Some cur -> denotes s cur vals ->
    indexView s idxh idx ->
    exists s' cur',
      Heap.cascadeFor idxh n i r changed s
      = Ret (snd (TaskStore.cascadeFor idx n i vals changed), s') /\
      roundExt r s s' cur' /\
      denotes s' cur' (fst (TaskStore.cascadeFor idx n i vals changed)).
Proof.
  induction n as [|n IH]; intros i changed s cur vals Ha Hd Hv.
  - exists s, cur. split; [reflexivity|]. split; [|assumption].
    split; [reflexivity|]. split; [reflexivity|].
    symmetry. apply insert_id. assumption.
  - simpl. unfold mbind at 1, H_bind at 1, hbind at 1.
    rewrite (readArray_ok _ _ _ Ha).
    destruct (vals !! i) as [t|] eqn:Hvi.
    + destruct (Forall2_lookup_r _ _ _ _ _ Hd Hvi) as (l & Hli & Hl).
      rewrite Hli. unfold mbind at 1, H_bind at 1, hbind at 1.
      rewrite (readTask_ok _ _ _ Hl).
      destruct (bool_decide (t_status t = Pending)); cbn [negb]; cbv beta iota.
      * unfold mbind at 1, H_bind at 1, hbind at 1.
        rewrite (blocked_refines _ _ _ _ Hv).
        fold (TaskStore.blocked idx t).
        destruct (TaskStore.blocked idx t).
        -- destruct (allocTask_spec (withStatusSummary t Skipped TaskStore.skipSummary) s)
             as (l' & E1 & Hf).
           unfold mbind at 1 2, H_bind at 1 2, hbind at 1 2.
           rewrite E1. unfold writeArray. simpl s_arrays. rewrite Ha.
           set (s2 := mkStore _ _ _).
           destruct (IH (S i) true s2 (<[i := l']> cur)
                       (<[i := withStatusSummary t Skipped TaskStore.skipSummary]> vals))
             as (s' & cur' & E & (T & P & A) & D).
           { apply lookup_insert_eq. }
           { apply Forall2_insert; [|apply lookup_insert_eq].
             eapply denotes_mono; [|exact Hd].
             apply insert_subseteq. assumption. }
           { eapply indexView_mono; [|exact Hv].
             apply insert_subseteq. assumption. }
           exists s', cur'. split; [exact E|]. split; [|exact D].
           split; [etrans; [|exact T]; apply insert_subseteq; assumption|].
           split; [rewrite P; reflexivity|].
           rewrite A. simpl. apply insert_insert_eq.
        -- eapply IH; eassumption.
      * eapply IH; eassumption.
    + assert (cur !! i = None) as ->.
      { apply lookup_ge_None. apply lookup_ge_None in Hvi.
        rewrite (Forall2_length _ _ _ Hd). assumption. }
      exists s, cur. split; [reflexivity|]. split; [|assumption].
      split; [reflexivity|]. split; [reflexivity|].
      symmetry. apply insert_id. assumption.
Qed.

Lemma cascadeRound_refines r s cur vals :
  s_arrays s !! r = Some cur -> denotes s cur vals ->
  exists s' cur',
    Heap.cascadeRound r s = Ret (snd (TaskStore.cascadeRound vals), s') /\
    roundExt r s s' cur' /\
    denotes s' cur' (fst (TaskStore.cascadeRound vals)).
Proof.
  intros Ha Hd. unfold Heap.cascadeRound, TaskStore.cascadeRound.
  destruct (buildIndex_spec s cur vals Hd) as (idxh & Ei & Hv).
  unfold mbind at 1 2, H_bind at 1 2, hbind at 1 2.
  rewrite (readArray_ok _ _ _ Ha), Ei, (Forall2_length _ _ _ Hd).
  eapply cascadeFor_refines; eassumption.
Qed.

Lemma cascadeWhile_refines r fuel :
  forall s cur vals,
    s_arrays s !! r = Some cur -> denotes s cur vals ->
    TaskStore.countPending vals < fuel ->
    exists s' cur',
      Heap.cascadeWhile fuel r s = Ret (r, s') /\ roundExt r s s' cur' /\
      denotes s' cur' (TaskStore.cascadeWhile vals).
Proof.
  induction fuel as [|fuel IH]; intros s cur vals Ha Hd Hf; [lia|].
  simpl. destruct (cascadeRound_refines r s cur vals Ha Hd)
    as (s1 & cur1 & E1 & (T1 & P1 & A1) & D1).
  unfold mbind, H_bind, hbind. rewrite E1.
  rewrite TaskStore.cascadeRound_spec in D1 |- *. simpl in D1 |- *.
  rewrite (cascadeWhile_unfold vals).
  destruct (existsb _ vals) eqn:Ex.
  - destruct (IH s1 cur1
                (map (TaskStore.cascadeStep (TaskStore.buildIndex vals)) vals))
      as (s2 & cur2 & E2 & (T2 & P2 & A2) & D2).
    { rewrite A1. apply lookup_insert_eq. }
    { exact D1. }
    { pose proof (TaskStore.countPending_step (TaskStore.buildIndex vals) vals) as [_ Hlt].
      specialize (Hlt Ex). lia. }
    exists s2, cur2. split; [exact E2|]. split; [|exact D2].
    split; [etrans; eassumption|]. split; [congruence|].
    rewrite A2, A1. apply insert_insert_eq.
  - exists s1, cur1. split; [reflexivity|]. split; [repeat split; assumption|].
    rewrite existsb_false_map_step in D1 by assumption. exact D1.
Qed.

Lemma countPending_le (vals : list TaskEntry) : TaskStore.countPending vals <= length vals.
Proof. unfold TaskStore.countPending. apply length_filter. Qed.

Lemma cascadeSkip_refines s a ts :
  viewArray s a = Some ts ->
  exists r s',
    Heap.cascadeSkip a s = Ret (r, s') /\ unchanged s s' /\
    s_arrays s !! r = None /\
    viewArray s' r = Some (TaskStore.cascadeSkip ts).
Proof.
  unfold viewArray. intros Hv.
  destruct (s_arrays s !! a) as [ls|] eqn:Ha; [|discriminate]. simpl in Hv.
  apply viewTasks_denotes in Hv.
  unfold Heap.cascadeSkip. unfold mbind at 1, H_bind at 1, hbind at 1.
  rewrite (readArray_ok _ _ _ Ha).
  destruct (mapRefs_spec (fun l => t ← readTask l; allocTask (spread t)) spread)
    with (ls := ls) (ts := ts) (s := s) as (copies & s1 & E1 & (T1 & A1 & P1) & D1).
  { intros l t s0 Hl. unfold mbind, H_bind, hbind.
    rewrite (readTask_ok _ _ _ Hl). apply allocTask_ext. }
  { assumption. }
  unfold mbind at 1, H_bind at 1, hbind at 1. rewrite E1.
  unfold mbind at 1, H_bind at 1, hbind at 1. unfold allocArray at 1.
  set (r := fresh (dom (s_arrays s1))).
  assert (Hfr : s_arrays s1 !! r = None) by apply not_elem_of_dom, is_fresh.
  set (s2 := mkStore _ _ _).
  destruct (cascadeWhile_refines r (S (length ls)) s2 copies (map spread ts))
    as (s3 & cur & E3 & (T3 & P3 & A3) & D3).
  { apply lookup_insert_eq. }
  { exact D1. }
  { pose proof (countPending_le (map spread ts)) as Hle.
    rewrite length_map in Hle. rewrite (Forall2_length _ _ _ Hv). lia. }
  exists r, s3. split; [exact E3|]. split; [|split].
  - split; [etrans; eassumption|]. split.
    + rewrite A3. simpl. rewrite insert_insert_eq, A1.
      apply insert_subseteq. rewrite <- A1. assumption.
    + rewrite P3. simpl. rewrite P1. reflexivity.
  - rewrite <- A1. assumption.
  - rewrite A3, lookup_insert_eq. simpl.
    apply viewTasks_denotes. exact D3.
Qed.

(** C6.  Whenever [completeTask] or [failTask] returns, and always for
    [resumeProgress], every object of the store before the call, the
    aggregate given as argument, its array and its tasks among them, has the
    same content after the call: the argument still denotes the same
    aggregate, with the same task statuses, summaries and retries, the same
    [current] and the same workflow status.  The result is denoted by the
    reference that is returned. *)
Theorem transitions_leave_input_unmodified s p data :
  viewProg s p = Some data ->
  (forall id summary d',
     TaskStore.completeTask data id summary = Ret d' ->
     exists p' s',
       Heap.completeTask p id summary s = Ret (p', s') /\
       unchanged s s' /\ viewProg s' p = Some data /\
       viewProg s' p' = Some d') /\
  (forall id res d',
     TaskStore.failTask data id = Ret (res, d') ->
     exists p' s',
       Heap.failTask p id s = Ret ((res, p'), s') /\
       unchanged s s' /\ viewProg s' p = Some data /\
       viewProg s' p' = Some d') /\
  (exists p' s',
     Heap.resumeProgress p s
     = Ret ((p', snd (TaskStore.resumeProgress data)), s') /\
     unchanged s s' /\ viewProg s' p = Some data /\
     viewProg s' p' = Some (fst (TaskStore.resumeProgress data))).
Proof.
  intros Hv. split; [|split].
  - intros id summary d' Hc.
    pose proof (completeTask_refines s p data id summary Hv) as H.
    rewrite Hc in H. destruct H as (p' & s' & E & U & _ & V).
    exists p', s'. split; [assumption|]. split; [assumption|].
    split; [eapply viewProg_mono; eassumption|assumption].
  - intros id res d' Hf.
    pose proof (failTask_refines s p data id Hv) as H.
    rewrite Hf in H. destruct H as (p' & s' & E & U & _ & V).
    exists p', s'. split; [assumption|]. split; [assumption|].
    split; [eapply viewProg_mono; eassumption|assumption].
  - destruct (resumeProgress_refines s p data Hv) as (p' & s' & E & U & V & _).
    exists p', s'. split; [assumption|]. split; [assumption|].
    split; [eapply viewProg_mono; eassumption|assumption].
Qed.

Lemma transitions_leave_input_unmodified_witness :
  exists p' s',
    Heap.completeTask 1%positive Examples.i001 (js "ok") Examples.storeOneActive
    = Ret (p', s') /\
    unchanged Examples.storeOneActive s' /\
    viewProg s' 1%positive = Some (Examples.prog Examples.oneActive) /\
    viewProg s' p'
    = Some (mkProgress (js "test") Running None
              [withStatusSummary (Examples.task Examples.i001 Active [])
                                 Done (js "ok")]).
Proof.
  apply (proj1 (transitions_leave_input_unmodified Examples.storeOneActive
                  1%positive (Examples.prog Examples.oneActive) eq_refl)
           Examples.i001 (js "ok")).
  reflexivity.
Defined.

Lemma viewArray_mono s s' a ts :
  unchanged s s' -> viewArray s a = Some ts -> viewArray s' a = Some ts.
Proof.
  intros (Ht & Ha & _). unfold viewArray. intros Hv.
  destruct (s_arrays s !! a) as [ls|] eqn:E; [|discriminate].
  rewrite (lookup_weaken _ _ _ _ E Ha). simpl in *.
  apply viewTasks_denotes. apply viewTasks_denotes in Hv.
  eapply denotes_mono; eassumption.
Qed.

(** C2 (as amended).  [cascadeSkip] returns a sequence of the same length
    in which exactly those tasks are changed that were pending and one of
    whose dependencies resolves to a failed or skipped task, or to a pending
    task that is itself changed by the same computation; each of them gets
    status skipped and the fixed summary, and every task that was not
    pending is returned as it was.  Over the store, the result is a new
    array, and every object that existed before the call, the input array and
    its tasks among them, has the same content after it. *)
Theorem cascadeSkip_correct tasks :
  length (TaskStore.cascadeSkip tasks) = length tasks /\
  (forall i t, tasks !! i = Some t ->
     exists r, TaskStore.cascadeSkip tasks !! i = Some r /\
       (r <> t <-> willSkip tasks t) /\
       (r <> t -> r = withStatusSummary t Skipped TaskStore.skipSummary) /\
       (t_status t <> Pending -> r = t)) /\
  (forall s a, viewArray s a = Some tasks ->
     exists r s',
       Heap.cascadeSkip a s = Ret (r, s') /\ unchanged s s' /\
       viewArray s' a = Some tasks /\ s_arrays s !! r = None /\
       viewArray s' r = Some (TaskStore.cascadeSkip tasks)).
Proof.
  destruct (cascadeSkip_map tasks) as (G & HG & Hchar).
  split; [rewrite HG; apply length_map|]. split.
  - intros i t Hi. exists (G t). rewrite HG, list_lookup_fmap, Hi.
    split; [reflexivity|].
    assert (Hin : t ∈ tasks) by (apply (list_elem_of_lookup_2 _ i); exact Hi).
    destruct (Hchar t Hin) as [[Hw Hg]|[Hn Hg]]; rewrite Hg.
    + split; [|split].
      * split; [intros _; exact Hw|]. intros _ Heq.
        apply willSkip_pending in Hw. apply (f_equal t_status) in Heq.
        simpl in Heq. congruence.
      * reflexivity.
      * intros Hp. apply willSkip_pending in Hw. contradiction.
    + split; [|split].
      * split; [intros H; contradiction|intros Hw; contradiction].
      * intros H; contradiction.
      * reflexivity.
  - intros s a Hv.
    destruct (cascadeSkip_refines s a tasks Hv) as (r & s' & E & U & F & V).
    exists r, s'. split; [exact E|]. split; [exact U|].
    split; [eapply viewArray_mono; eassumption|]. split; assumption.
Qed.

Lemma cascadeSkip_correct_witness :
  (exists r, TaskStore.cascadeSkip Examples.failedChain !! 2 = Some r /\
     (r <> Examples.task Examples.i003 Pending [Examples.i002]
      <-> willSkip Examples.failedChain
            (Examples.task Examples.i003 Pending [Examples.i002])) /\
     (r <> Examples.task Examples.i003 Pending [Examples.i002] ->
      r = withStatusSummary
            (Examples.task Examples.i003 Pending [Examples.i002])
            Skipped TaskStore.skipSummary) /\
     (t_status (Examples.task Examples.i003 Pending [Examples.i002])
      <> Pending ->
      r = Examples.task Examples.i003 Pending [Examples.i002])) /\
  (exists r s',
     Heap.cascadeSkip 1%positive Examples.storeFailedChain = Ret (r, s') /\
     unchanged Examples.storeFailedChain s' /\
     viewArray s' 1%positive = Some Examples.failedChain /\
     s_arrays Examples.storeFailedChain !! r = None /\
     viewArray s' r = Some (TaskStore.cascadeSkip Examples.failedChain)).
Proof.
  destruct (cascadeSkip_correct Examples.failedChain) as (_ & Hvalues & Hstore).
  split.
  - apply (Hvalues 2). reflexivity.
  - apply (Hstore Examples.storeFailedChain 1%positive). vm_compute. reflexivity.
Defined.

End HeapFacts.



Module NumberFacts.
Import Numbers.

Lemma digitsPrefix_unitsOf d : digitsPrefix (unitsOf d) = d.
Proof. induction d; simpl; congruence. Qed.

Lemma digitsPrefix_pad k d :
  digitsPrefix (repeat 48%N k ++ unitsOf d) = Nat.iter k Decimal.D0 d.
Proof. induction k; simpl; [apply digitsPrefix_unitsOf|congruence]. Qed.

Lemma of_uint_pad k d : N.of_uint (Nat.iter k Decimal.D0 d) = N.of_uint d.
Proof. induction k; simpl; auto. Qed.

Lemma unitsOf_digits d : Forall (fun c => isDigit c = true) (unitsOf d).
Proof. induction d; simpl; constructor; auto. Qed.

Lemma unitsOf_length_pos n : 0 < length (unitsOf (N.to_uint n)).
Proof.
  destruct n as [|p]; simpl; [lia|].
  pose proof (DecimalPos.Unsigned.to_uint_nonnil p) as H.
  destruct (Pos.to_uint p); simpl; try lia. contradiction.
Qed.

Lemma digit_not_space c : isDigit c = true -> isWhiteSpace c = false.
Proof.
  unfold isDigit, isWhiteSpace. intros H.
  apply andb_true_iff in H as [H1 H2].
  apply N.leb_le in H1, H2.
  repeat (apply orb_false_iff; split);
    try (apply N.eqb_neq; lia).
  apply andb_false_iff. left. apply N.leb_gt. lia.
Qed.

Lemma makeTaskId_nat (n : N) :
  makeTaskId (Some (Z.of_N n)) =
    repeat 48%N (3 - length (unitsOf (N.to_uint n))) ++ unitsOf (N.to_uint n).
Proof.
  unfold makeTaskId, padStart, toString.
  destruct n; simpl; reflexivity.
Qed.

Lemma makeTaskId_digits (n : N) :
  Forall (fun c => isDigit c = true) (makeTaskId (Some (Z.of_N n))).
Proof.
  rewrite makeTaskId_nat. apply Forall_app. split; [|apply unitsOf_digits].
  apply Forall_forall. intros c Hc. apply list_elem_of_In, repeat_spec in Hc. subst. reflexivity.
Qed.

(** Reading back a string of digits that starts with one. *)
Lemma parseInt_digits c s :
  isDigit c = true ->
  parseInt (c :: s) =
    match digitsPrefix (c :: s) with
    | Decimal.Nil => None
    | d => Some (Z.of_N (N.of_uint d))
    end.
Proof.
  intros Hc. unfold parseInt. cbn [trimStart].
  rewrite (digit_not_space c Hc).
  assert (H1 : c <> 45%N /\ c <> 43%N).
  { unfold isDigit in Hc. apply andb_true_iff in Hc as [Hc _].
    apply N.leb_le in Hc. lia. }
  destruct H1 as [H1 H2].
  destruct c as [|p]; [reflexivity|].
  do 6 (destruct p as [p|p|]; try reflexivity); contradiction.
Qed.

Lemma parseInt_makeTaskId (n : N) :
  parseInt (makeTaskId (Some (Z.of_N n))) = Some (Z.of_N n).
Proof.
  pose proof (makeTaskId_digits n) as Hd.
  pose proof (makeTaskId_nat n) as He.
  pose proof (unitsOf_length_pos n) as Hl.
  destruct (makeTaskId (Some (Z.of_N n))) as [|c s] eqn:E.
  { apply (f_equal (@length N)) in He. rewrite length_app in He.
    simpl in He. lia. }
  rewrite parseInt_digits by (inversion Hd; assumption).
  rewrite He, digitsPrefix_pad.
  assert (Hv : N.of_uint (Nat.iter (3 - length (unitsOf (N.to_uint n)))
                            Decimal.D0 (N.to_uint n)) = n)
    by (rewrite of_uint_pad; apply DecimalN.Unsigned.of_to).
  destruct (Nat.iter _ Decimal.D0 (N.to_uint n)) eqn:Ei;
    try (rewrite Hv; reflexivity).
  exfalso. rewrite <- digitsPrefix_pad, <- He in Ei. simpl in Ei.
  inversion Hd as [|? ? Hc _]; subst.
  unfold isDigit in Hc. apply andb_true_iff in Hc as [H1 H2].
  apply N.leb_le in H1, H2.
  destruct (digitOf c) eqn:Ed; [destruct c as [|p]; [discriminate|];
    do 6 (destruct p as [p|p|]; try discriminate)|].
  all: try (injection Ed as <-; discriminate).
  destruct c as [|p]; [lia|].
  do 6 (destruct p as [p|p|]; try discriminate; try lia).
Qed.


Lemma makeTaskId_inj (m n : N) :
  makeTaskId (Some (Z.of_N m)) = makeTaskId (Some (Z.of_N n)) -> m = n.
Proof.
  intros H. apply (f_equal parseInt) in H.
  rewrite !parseInt_makeTaskId in H. injection H. lia.
Qed.

Lemma idAt_inj i j : idAt i = idAt j -> i = j.
Proof.
  unfold idAt. rewrite <- !nat_N_Z. intros H. apply makeTaskId_inj in H. lia.
Qed.

Lemma parseInt_idAt i : parseInt (idAt i) = Some (Z.of_nat (i + 1)).
Proof. unfold idAt. rewrite <- nat_N_Z. apply parseInt_makeTaskId. Qed.


End NumberFacts.

(** ** The task sequence: cycles, cascade, selection *)

Module StoreFacts.
Import TaskStore IndexFacts Graph Selection CascadeSpec CascadeFacts.
Import CycleFacts SelectionFacts TransitionSpec TransitionFacts StoreSpec.

Lemma linked_resolves idx x l z :
  linked idx x (l ++ [z]) -> forall y, y ∈ x :: l -> is_Some (idx !! y).
Proof.
  revert x. induction l as [|a l IH]; intros x; simpl.
  - intros [(t & Ht & _) _] y Hy. apply list_elem_of_singleton in Hy.
    subst. eauto.
  - intros [(t & Ht & _) Hl] y Hy.
    apply elem_of_cons in Hy as [->|Hy]; [eauto|]. eapply IH; eauto.
Qed.

(** X2.  [detectCycles] returns on every task sequence.  A path it
    returns starts and ends at the same id, follows dependency edges of the
    index and visits ids of tasks only; it returns [null] exactly when the
    dependency graph of the index has no cycle. *)
Theorem detectCycles_decides tasks :
  exists r, detectCycles tasks = Some r /\
    match r with
    | Some c => isCycle (buildIndex tasks) c /\
                hasCycle (buildIndex tasks) /\
                Forall (fun y => y ∈ map t_id tasks) c
    | None => ~ hasCycle (buildIndex tasks)
    end.
Proof.
  destruct (detectCycles_spec tasks) as ([c|] & Hr & Hpost);
    eexists; (split; [eassumption|]); [|assumption].
  split; [assumption|]. split; [eapply isCycle_hasCycle; eassumption|].
  destruct Hpost as (x & l & -> & Hl).
  apply Forall_forall. intros y Hy. apply buildIndex_is_Some.
  apply (linked_resolves _ x l x Hl). set_solver.
Qed.

(** *** Cascade skip *)

Lemma stable_unblocked l :
  existsb (needsSkip (buildIndex l)) l = false <-> unblocked l.
Proof.
  unfold unblocked. split.
  - intros H t d u Ht Hp Hd Hu.
    assert (Hn : needsSkip (buildIndex l) t = false).
    { destruct (needsSkip _ t) eqn:E; [|reflexivity]. rewrite <- H.
      symmetry. apply existsb_exists. exists t.
      split; [apply list_elem_of_In; assumption|assumption]. }
    unfold needsSkip in Hn. rewrite (bool_decide_eq_true_2 _ Hp) in Hn.
    simpl in Hn.
    split; intros Hs;
      (assert (blocked (buildIndex l) t = true);
       [apply blocked_true; exists d, u; auto|congruence]).
  - intros H. apply not_true_iff_false. intros Hex.
    apply existsb_exists in Hex as (t & Ht & Hn).
    apply andb_true_iff in Hn as [Hp Hb]. apply bool_decide_eq_true in Hp.
    apply blocked_true in Hb as (d & u & Hd & Hu & Hs).
    apply list_elem_of_In in Ht.
    destruct (H t d u Ht Hp Hd Hu) as [H1 H2]. destruct Hs; contradiction.
Qed.

Lemma cascadeSkip_unblocked tasks : unblocked (cascadeSkip tasks).
Proof. apply stable_unblocked. unfold cascadeSkip. apply cascadeWhile_stable. Qed.

(** X3.  In the sequence [cascadeSkip] returns, no pending task is left
    with a dependency that resolves to a failed or skipped task. *)
Theorem cascadeSkip_closed tasks i t d u :
  cascadeSkip tasks !! i = Some t -> t_status t = Pending ->
  d ∈ t_deps t -> buildIndex (cascadeSkip tasks) !! d = Some u ->
  t_status u <> Failed /\ t_status u <> Skipped.
Proof.
  intros Hi. apply cascadeSkip_unblocked.
  apply (list_elem_of_lookup_2 _ i). exact Hi.
Qed.

Lemma cascadeSkip_closed_witness :
  t_status (Examples.task Examples.i001 Done []) <> Failed /\
  t_status (Examples.task Examples.i001 Done []) <> Skipped.
Proof.
  apply (cascadeSkip_closed Examples.fanOut 1
           (Examples.task Examples.i002 Pending [Examples.i001])
           Examples.i001 (Examples.task Examples.i001 Done [])).
  - vm_compute. reflexivity.
  - reflexivity.
  - simpl. apply list_elem_of_singleton. reflexivity.
  - vm_compute. reflexivity.
Defined.

Lemma cascadeSkip_noop tasks : unblocked tasks -> cascadeSkip tasks = tasks.
Proof.
  intros H. unfold cascadeSkip. rewrite map_spread.
  apply cascadeWhile_fixpoint, stable_unblocked, H.
Qed.

(** X4.  [cascadeSkip] returns the sequence it was given exactly when no
    pending task of it has a dependency that resolves to a failed or skipped
    task. *)
Theorem cascadeSkip_noop_iff tasks :
  cascadeSkip tasks = tasks <->
  (forall t d u, t ∈ tasks -> t_status t = Pending -> d ∈ t_deps t ->
     buildIndex tasks !! d = Some u ->
     t_status u <> Failed /\ t_status u <> Skipped).
Proof.
  split.
  - intros H. rewrite <- H. apply cascadeSkip_unblocked.
  - apply cascadeSkip_noop.
Qed.

(** *** What no transition changes *)

Lemma map_shape (G : TaskEntry -> TaskEntry) (l : list TaskEntry) :
  (forall t, t ∈ l -> shape (G t) = shape t) ->
  map shape (map G l) = map shape l.
Proof.
  intros H. rewrite map_map. apply map_ext_elem. exact H.
Qed.

Lemma shape_ids (l l' : list TaskEntry) :
  map shape l = map shape l' -> map t_id l = map t_id l'.
Proof.
  intros H.
  apply (f_equal (map (fun s : jsstring * jsstring * jsstring * TaskType *
                                 list jsstring => fst (fst (fst (fst s)))))) in H.
  rewrite !map_map in H. exact H.
Qed.

Lemma cascadeSkip_shape tasks :
  map shape (cascadeSkip tasks) = map shape tasks.
Proof.
  destruct (cascadeSkip_map tasks) as (G & -> & HG).
  apply map_shape. intros t Ht.
  destruct (HG t Ht) as [[_ ->]|[_ ->]]; reflexivity.
Qed.

Lemma completeTask_shape data id s d' :
  completeTask data id s = Ret d' ->
  map shape (p_tasks d') = map shape (p_tasks data) /\
  p_name d' = p_name data /\ p_status d' = p_status data.
Proof.
  unfold completeTask. destruct (_ !! id); [|discriminate].
  intros [= <-]. simpl. split; [|auto].
  apply map_shape. intros x _. case_decide; reflexivity.
Qed.

Lemma failTask_shape data id res d' :
  failTask data id = Ret (res, d') ->
  map shape (p_tasks d') = map shape (p_tasks data) /\
  p_name d' = p_name data /\ p_status d' = p_status data.
Proof.
  unfold failTask. destruct (_ !! id); [|discriminate].
  destruct (3 <=? _); intros [= <- <-]; simpl; (split; [|auto]);
    apply map_shape; intros x _; case_decide; reflexivity.
Qed.

Lemma resetActive_id (l : list TaskEntry) :
  (forall t, t ∈ l -> t_status t <> Active) -> map resetActive l = l.
Proof.
  intros H. rewrite <- (map_id l) at 2. apply map_ext_elem.
  intros t Ht. unfold resetActive. rewrite decide_False by auto. reflexivity.
Qed.

Lemma existsb_active_false (l : list TaskEntry) :
  existsb (fun t => bool_decide (t_status t = Active)) l = false ->
  forall t, t ∈ l -> t_status t <> Active.
Proof.
  intros H t Ht Ha.
  assert (existsb (fun t => bool_decide (t_status t = Active)) l = true);
    [|congruence].
  apply existsb_exists. exists t.
  split; [apply list_elem_of_In; assumption|].
  apply bool_decide_eq_true. assumption.
Qed.

Lemma resumeProgress_tasks data :
  p_tasks (fst (resumeProgress data)) = map resetActive (p_tasks data) /\
  p_name (fst (resumeProgress data)) = p_name data.
Proof.
  unfold resumeProgress.
  destruct (existsb _ (p_tasks data)) eqn:E; simpl.
  - pose proof (resumeMap_fst (p_tasks data) None) as H.
    destruct (resumeMap _ None). simpl in *. subst. auto.
  - split; [|reflexivity]. symmetry. apply resetActive_id.
    apply existsb_active_false. assumption.
Qed.

Lemma resumeProgress_shape data :
  map shape (p_tasks (fst (resumeProgress data))) = map shape (p_tasks data).
Proof.
  rewrite (proj1 (resumeProgress_tasks data)). apply map_shape.
  intros t _. unfold resetActive. case_decide; reflexivity.
Qed.

(** X5.  Neither [cascadeSkip] nor a transition that returns changes the
    number of tasks, their order, or the id, title, description, type and
    dependencies of any of them, nor the name of the workflow; in
    particular ids that were unique remain so. *)
Theorem transitions_keep_shape data :
  map shape (cascadeSkip (p_tasks data)) = map shape (p_tasks data) /\
  (forall id s d', completeTask data id s = Ret d' ->
     map shape (p_tasks d') = map shape (p_tasks data) /\
     p_name d' = p_name data) /\
  (forall id res d', failTask data id = Ret (res, d') ->
     map shape (p_tasks d') = map shape (p_tasks data) /\
     p_name d' = p_name data) /\
  (map shape (p_tasks (fst (resumeProgress data))) = map shape (p_tasks data) /\
   p_name (fst (resumeProgress data)) = p_name data) /\
  (forall tasks', map shape tasks' = map shape (p_tasks data) ->
     length tasks' = length (p_tasks data) /\
     (uniqueIds (p_tasks data) -> uniqueIds tasks')).
Proof.
  split; [apply cascadeSkip_shape|].
  split; [intros id s d' H; apply completeTask_shape in H; tauto|].
  split; [intros id res d' H; apply failTask_shape in H; tauto|].
  split; [split; [apply resumeProgress_shape|apply resumeProgress_tasks]|].
  intros tasks' H. split.
  - apply (f_equal (@length _)) in H. rewrite !length_map in H. exact H.
  - unfold uniqueIds. rewrite (shape_ids _ _ H). auto.
Qed.

Lemma resumeProgress_clears_active_helper data :
  p_tasks (fst (resumeProgress data)) = map resetActive (p_tasks data) /\
  noneActive (p_tasks (fst (resumeProgress data))).
Proof.
  destruct (resumeProgress_tasks data) as [Ht _]. split; [assumption|].
  rewrite Ht. intros t Hin. apply list_elem_of_fmap in Hin as (u & -> & _).
  unfold resetActive. case_decide; [discriminate|assumption].
Qed.

(** X6.  After [resumeProgress] no task is active: the tasks are those of
    the argument with every active one made pending, whatever the ids; and
    resuming what was resumed changes nothing more. *)
Theorem resumeProgress_clears_active data :
  let r := fst (resumeProgress data) in
  p_tasks r = map resetActive (p_tasks data) /\
  noneActive (p_tasks r) /\
  fst (resumeProgress r) = r.
Proof.
  intros r. destruct (resumeProgress_tasks data) as [Ht _]. fold r in Ht.
  assert (Hn : noneActive (p_tasks r)).
  { rewrite Ht. intros t Hin. apply list_elem_of_fmap in Hin as (u & -> & _).
    unfold resetActive. case_decide; [discriminate|assumption]. }
  split; [assumption|]. split; [assumption|].
  unfold resumeProgress at 1. rewrite hasActive_false by exact Hn. reflexivity.
Qed.

(** *** Parallel selection *)

Lemma find_unique (tasks : list TaskEntry) d :
  NoDup (map t_id tasks) ->
  List.find (fun x => bool_decide (t_id x = d)) tasks = buildIndex tasks !! d.
Proof.
  intros Hnd.
  destruct (List.find _ tasks) as [u|] eqn:E.
  - apply find_some in E as [Hin He]. apply bool_decide_eq_true in He.
    subst d. symmetry. apply buildIndex_unique; [assumption|].
    apply list_elem_of_In. assumption.
  - symmetry. apply buildIndex_None. intros Hin.
    apply list_elem_of_fmap in Hin as (u & -> & Hu).
    pose proof (find_none _ _ E u (proj1 (list_elem_of_In _ _) Hu)) as Hf.
    apply bool_decide_eq_false in Hf. contradiction.
Qed.

Lemma depDoneFind_unique tasks d :
  NoDup (map t_id tasks) -> depDoneFind tasks d = depDone (buildIndex tasks) d.
Proof.
  intros Hnd. unfold depDoneFind, depDone. rewrite find_unique by assumption.
  reflexivity.
Qed.

Lemma forallb_ext {A} (f g : A -> bool) (l : list A) :
  (forall x, f x = g x) -> forallb f l = forallb g l.
Proof. intros H. induction l; simpl; [|rewrite H]; congruence. Qed.

Lemma parallel_filter tasks :
  NoDup (map t_id tasks) ->
  List.filter (fun t => isPending t && forallb (depDoneFind tasks) (t_deps t))
              tasks
  = List.filter (readyb tasks) tasks.
Proof.
  intros Hnd. apply filter_ext. intros t. unfold readyb. f_equal.
  apply forallb_ext. intros d. apply depDoneFind_unique. assumption.
Qed.

Lemma firstReady_head idx (l : list TaskEntry) :
  firstReady idx l
  = head (List.filter (fun t => isPending t && forallb (depDone idx) (t_deps t))
                      l).
Proof.
  induction l as [|t l IH]; simpl; [reflexivity|].
  destruct (isPending t); simpl; [|assumption].
  destruct (forallb _ (t_deps t)); simpl; [reflexivity|assumption].
Qed.

Lemma filter_sublist {A} (p : A -> bool) (l : list A) :
  sublist (List.filter p l) l.
Proof.
  induction l as [|x l IH]; simpl; [constructor|].
  destruct (p x); [apply sublist_skip|apply sublist_cons]; assumption.
Qed.

Lemma parallel_spec tasks batch :
  uniqueIds tasks -> findParallelTasks tasks = Ret batch ->
  batch = List.filter (readyb tasks) tasks /\
  sublist batch tasks /\
  (forall t, t ∈ batch <-> t ∈ tasks /\ ready tasks t) /\
  findNextTask tasks = Ret (head batch) /\
  (forall t u, t ∈ batch -> u ∈ batch -> t_id u ∉ t_deps t).
Proof.
  unfold findParallelTasks, findNextTask. cbv zeta. intros Hnd.
  destruct (detectCycles _) as [[c'|]|]; try discriminate.
  intros [= <-]. rewrite (parallel_filter tasks Hnd).
  assert (Hmem : forall t, t ∈ List.filter (readyb tasks) tasks <->
                           t ∈ tasks /\ ready tasks t).
  { intros t. rewrite !list_elem_of_In, filter_In. unfold readyb.
    rewrite readyb_iff. reflexivity. }
  split; [reflexivity|].
  split; [apply filter_sublist|]. split; [exact Hmem|].
  split; [rewrite firstReady_head; reflexivity|].
  intros t u Ht Hu Hin. apply Hmem in Ht as [_ [_ Hd]].
  apply Hmem in Hu as [Hu [Hp _]].
  destruct (Hd _ Hin) as (v & Hv & Hdone).
  rewrite (buildIndex_unique tasks u Hnd Hu) in Hv. congruence.
Qed.

(** X7.  [findParallelTasks] throws the cyclic-dependency error on the
    same sequences, and with the same path, as [findNextTask].  Where ids
    are unique and it returns, the batch is a subsequence of the tasks that
    holds exactly the ready ones (pending, every dependency resolving to a
    done task); its first element is what [findNextTask] selects; and no
    task of the batch depends on another task of the batch. *)
Theorem findParallelTasks_correct tasks :
  (forall c, findParallelTasks tasks = Throw (ECyclic c) <->
             findNextTask tasks = Throw (ECyclic c)) /\
  (forall batch,
     uniqueIds tasks -> findParallelTasks tasks = Ret batch ->
     sublist batch tasks /\
     (forall t, t ∈ batch <-> t ∈ tasks /\ ready tasks t) /\
     findNextTask tasks = Ret (head batch) /\
     (forall t u, t ∈ batch -> u ∈ batch -> t_id u ∉ t_deps t)).
Proof.
  split.
  - unfold findParallelTasks, findNextTask. cbv zeta.
    intros c. destruct (detectCycles _) as [[c'|]|]; split; intros H.
    all: first [discriminate H | injection H as ->; reflexivity].
  - intros batch Hnd Hf. apply (parallel_spec tasks batch Hnd Hf).
Qed.

(** *** A finished workflow *)

Lemma filter_none {A} (p : A -> bool) (l : list A) :
  (forall x, x ∈ l -> p x = false) -> List.filter p l = [].
Proof.
  induction l as [|x l IH]; intros H; simpl; [reflexivity|].
  rewrite (H x) by set_solver. apply IH. intros; apply H; set_solver.
Qed.

Lemma isAllDone_terminal tasks t :
  isAllDone tasks = true -> t ∈ tasks -> isTerminal (t_status t) = true.
Proof.
  unfold isAllDone. rewrite forallb_forall. intros H Ht.
  apply H, list_elem_of_In, Ht.
Qed.

Lemma done_not_live tasks t :
  isAllDone tasks = true -> t ∈ tasks ->
  t_status t <> Pending /\ t_status t <> Active.
Proof.
  intros Hd Ht. apply (isAllDone_terminal _ _ Hd) in Ht.
  destruct (t_status t); split; discriminate.
Qed.

Lemma done_cascade_noop tasks :
  isAllDone tasks = true -> cascadeSkip tasks = tasks.
Proof.
  intros Hd. apply cascadeSkip_noop. intros t d u Ht Hp. exfalso.
  apply (proj1 (done_not_live tasks t Hd Ht)). exact Hp.
Qed.

(** X8.  Once every task is done, skipped or failed, nothing moves any
    more: [cascadeSkip] returns the sequence unchanged, [findNextTask]
    returns [null], [findParallelTasks] returns the empty batch, neither
    throws, and [resumeProgress] returns the aggregate it was given. *)
Theorem finished_is_inert data :
  isAllDone (p_tasks data) = true ->
  cascadeSkip (p_tasks data) = p_tasks data /\
  findNextTask (p_tasks data) = Ret None /\
  findParallelTasks (p_tasks data) = Ret [] /\
  fst (resumeProgress data) = data.
Proof.
  intros Hd.
  pose proof (done_not_live (p_tasks data)) as Hterm.
  specialize (fun t => Hterm t Hd).
  assert (Hnp : List.filter isPending (p_tasks data) = []).
  { apply filter_none. intros t Ht. apply bool_decide_eq_false, Hterm, Ht. }
  split; [|split; [|split]].
  - apply done_cascade_noop, Hd.
  - unfold findNextTask. rewrite Hnp. simpl.
    rewrite firstReady_head.
    rewrite filter_none; [reflexivity|].
    intros t Ht. unfold isPending.
    rewrite bool_decide_eq_false_2 by apply Hterm, Ht. reflexivity.
  - unfold findParallelTasks. rewrite Hnp. simpl.
    rewrite filter_none; [reflexivity|].
    intros t Ht. unfold isPending.
    rewrite bool_decide_eq_false_2 by apply Hterm, Ht. reflexivity.
  - unfold resumeProgress. rewrite hasActive_false; [reflexivity|].
    intros t Ht. apply Hterm, Ht.
Qed.

Lemma finished_is_inert_witness :
  let data := Examples.prog [Examples.task Examples.i001 Done [];
                             Examples.task Examples.i002 Failed [Examples.i001]]
  in
  cascadeSkip (p_tasks data) = p_tasks data /\
  findNextTask (p_tasks data) = Ret None /\
  findParallelTasks (p_tasks data) = Ret [] /\
  fst (resumeProgress data) = data.
Proof.
  intros data. apply (finished_is_inert data). reflexivity.
Defined.

(** *** Selection never stalls *)

(** An acyclic index in which some id resolves has a task none of whose
    dependencies resolves. *)
Lemma sink_search (idx : gmap jsstring TaskEntry) :
  ~ hasCycle idx ->
  forall n (seen : gset jsstring) x,
    is_Some (idx !! x) -> x ∉ seen ->
    size (dom idx ∖ seen) <= n ->
    (forall s, s ∈ seen -> tc (edge idx) s x) ->
    exists y t, idx !! y = Some t /\
                forall d, d ∈ t_deps t -> idx !! d = None.
Proof.
  intros Hac. induction n as [|n IH]; intros seen x [t Ht] Hx Hsz Hseen.
  - exfalso. assert (Hin : x ∈ dom idx ∖ seen).
    { apply elem_of_difference. split; [apply elem_of_dom; eauto|assumption]. }
    assert (Hz : size (dom idx ∖ seen) = 0) by lia.
    apply size_empty_inv in Hz. set_solver.
  - destruct (decide (Exists (fun d => is_Some (idx !! d)) (t_deps t)))
      as [Hex|Hnex].
    + apply Exists_exists in Hex as (d & Hd & Hsome).
      assert (Hedge : edge idx x d) by (exists t; auto).
      destruct (decide (d = x)) as [->|Hne].
      { exfalso. apply Hac. exists x. apply tc_once. assumption. }
      destruct (decide (d ∈ seen)) as [Hds|Hds].
      { exfalso. apply Hac. exists d. eapply tc_r; [apply Hseen|]; eassumption. }
      apply (IH (seen ∪ {[x]}) d Hsome).
      * set_solver.
      * assert (Hsub : dom idx ∖ (seen ∪ {[x]}) ⊂ dom idx ∖ seen).
        { split; [set_solver|]. intros Hc.
          assert (Hin : x ∈ dom idx ∖ seen).
          { apply elem_of_difference.
            split; [apply elem_of_dom; eauto|assumption]. }
          apply Hc in Hin. set_solver. }
        apply subset_size in Hsub. lia.
      * intros s Hs. apply elem_of_union in Hs as [Hs|Hs].
        -- eapply tc_r; [apply Hseen|]; eassumption.
        -- apply elem_of_singleton in Hs. subst. apply tc_once. assumption.
    + exists x, t. split; [assumption|]. intros d Hd.
      apply eq_None_not_Some. intros Hs. apply Hnex.
      apply Exists_exists. eauto.
Qed.

Lemma sink_exists (idx : gmap jsstring TaskEntry) x :
  ~ hasCycle idx -> is_Some (idx !! x) ->
  exists y t, idx !! y = Some t /\ forall d, d ∈ t_deps t -> idx !! d = None.
Proof.
  intros Hac Hx.
  apply (sink_search idx Hac (size (dom idx)) ∅ x Hx).
  - set_solver.
  - apply subseteq_size. set_solver.
  - set_solver.
Qed.

Lemma pendingGraph_lookup tasks t :
  NoDup (map t_id tasks) -> t ∈ tasks -> t_status t = Pending ->
  pendingGraph tasks !! t_id t = Some t.
Proof.
  intros Hnd Ht Hp. unfold pendingGraph.
  apply buildIndex_unique; [apply NoDup_ids_filter; assumption|].
  apply list_elem_of_In, filter_In. split; [apply list_elem_of_In; assumption|].
  apply bool_decide_eq_true. assumption.
Qed.

Lemma pendingGraph_elem tasks d u :
  pendingGraph tasks !! d = Some u ->
  u ∈ tasks /\ t_status u = Pending /\ t_id u = d.
Proof.
  unfold pendingGraph. intros H. apply buildIndex_lookup_elem in H as [Hu Hid].
  apply list_elem_of_In, filter_In in Hu as [Hu Hp].
  apply bool_decide_eq_true in Hp.
  split; [apply list_elem_of_In; assumption|auto].
Qed.

(** In a sequence with unique ids, no dangling dependency, no active task
    and no pending task blocked by a failed or skipped one, a pending task
    means that some task is ready, unless the pending tasks form a cycle. *)
Lemma pending_gives_ready tasks t :
  uniqueIds tasks -> noDangling tasks -> noneActive tasks -> unblocked tasks ->
  ~ hasCycle (pendingGraph tasks) ->
  t ∈ tasks -> t_status t = Pending ->
  exists r, r ∈ tasks /\ ready tasks r.
Proof.
  intros Hnd Hdang Hact Hunb Hac Ht Hp.
  destruct (sink_exists (pendingGraph tasks) (t_id t) Hac) as (y & r & Hr & Hsink).
  { rewrite (pendingGraph_lookup tasks t Hnd Ht Hp). eauto. }
  apply pendingGraph_elem in Hr as (Hrin & Hrp & _).
  exists r. split; [assumption|]. split; [assumption|].
  intros d Hd.
  pose proof (Hdang r d Hrin Hd) as Hdin.
  apply list_elem_of_fmap in Hdin as (u & -> & Hu).
  exists u. split; [apply buildIndex_unique; assumption|].
  destruct (Hunb r (t_id u) u Hrin Hrp Hd (buildIndex_unique _ _ Hnd Hu))
    as [Hnf Hns].
  pose proof (Hact u Hu) as Hna.
  destruct (t_status u) eqn:Es; try contradiction; [|reflexivity].
  exfalso. specialize (Hsink _ Hd).
  rewrite (pendingGraph_lookup tasks u Hnd Hu Es) in Hsink. discriminate.
Qed.

Lemma cascadeSkip_status tasks i t :
  cascadeSkip tasks !! i = Some t ->
  exists t0, tasks !! i = Some t0 /\ shape t = shape t0 /\
             (t_status t = t_status t0 \/
              (t_status t0 = Pending /\ t_status t = Skipped)).
Proof.
  destruct (cascadeSkip_map tasks) as (G & -> & HG).
  rewrite list_lookup_fmap. destruct (tasks !! i) as [t0|] eqn:E; [|discriminate].
  simpl. intros [= <-]. exists t0. split; [reflexivity|].
  destruct (HG t0 (list_elem_of_lookup_2 _ _ _ E)) as [[Hw ->]|[_ ->]].
  - split; [reflexivity|]. right. split; [|reflexivity].
    apply (willSkip_pending tasks). assumption.
  - auto.
Qed.

Lemma never_stalls tasks :
  uniqueIds tasks -> noDangling tasks -> noneActive tasks ->
  findNextTask (cascadeSkip tasks) = Ret None ->
  isAllDone (cascadeSkip tasks) = true.
Proof.
  intros Hnd Hdang Hact Hnone.
  set (c := cascadeSkip tasks) in *.
  pose proof (cascadeSkip_shape tasks) as Hshape. fold c in Hshape.
  assert (Hnd' : uniqueIds c).
  { unfold uniqueIds. rewrite (shape_ids _ _ Hshape). assumption. }
  assert (Hst : forall t, t ∈ c -> exists t0, t0 ∈ tasks /\ shape t = shape t0 /\
            (t_status t = t_status t0 \/ t_status t = Skipped)).
  { intros t Ht. apply list_elem_of_lookup in Ht as [i Hi].
    apply cascadeSkip_status in Hi as (t0 & H0 & Hs & Hst).
    exists t0. split; [eapply list_elem_of_lookup_2; eassumption|].
    split; [assumption|]. destruct Hst as [?|[_ ?]]; auto. }
  assert (Hdang' : noDangling c).
  { intros t d Ht Hd. destruct (Hst t Ht) as (t0 & H0 & Hs & _).
    rewrite (shape_ids _ _ Hshape). apply (Hdang t0 d H0).
    unfold shape in Hs. injection Hs as _ _ _ _ <-. assumption. }
  assert (Hact' : noneActive c).
  { intros t Ht Ha. destruct (Hst t Ht) as (t0 & H0 & _ & [Hs|Hs]).
    - apply (Hact t0 H0). congruence.
    - congruence. }
  destruct (findNextTask_cases c) as [(_ & cy & Hthrow & _)|(Hac & r & Hr & Hfirst)];
    [congruence|].
  rewrite Hnone in Hr. injection Hr as <-. simpl in Hfirst.
  unfold isAllDone. apply forallb_forall. intros t Ht.
  apply list_elem_of_In in Ht.
  destruct (t_status t) eqn:Es; try reflexivity; exfalso.
  - destruct (pending_gives_ready c t Hnd' Hdang' Hact'
                (cascadeSkip_unblocked tasks) Hac Ht Es) as (r & Hr & Hready).
    apply (Hfirst r Hr Hready).
  - apply (Hact' t Ht Es).
Qed.

(** X9.  Selection does not stall.  For a sequence with unique ids, every
    dependency naming a task, and no active task: when [findNextTask]
    returns [null] on the cascaded sequence, every task of it is done,
    skipped or failed.  So as long as a task is pending, either one is
    selected or the cyclic-dependency error is thrown. *)
Theorem selection_never_stalls tasks :
  uniqueIds tasks -> noDangling tasks -> noneActive tasks ->
  findNextTask (cascadeSkip tasks) = Ret None ->
  isAllDone (cascadeSkip tasks) = true.
Proof. apply never_stalls. Qed.

Lemma selection_never_stalls_witness :
  isAllDone (cascadeSkip Examples.failedChain) = true.
Proof.
  apply (selection_never_stalls Examples.failedChain).
  - unfold uniqueIds. simpl. repeat (apply NoDup_cons; split; [set_solver|]).
    apply NoDup_nil. exact I.
  - intros t d Ht Hd. apply list_elem_of_In. apply list_elem_of_In in Ht.
    simpl in Ht.
    destruct Ht as [<-|[<-|[<-|[]]]];
      apply list_elem_of_In in Hd; simpl in Hd;
      intuition (subst; simpl; auto).
  - intros t Ht. apply list_elem_of_In in Ht. simpl in Ht.
    destruct Ht as [<-|[<-|[<-|[]]]]; discriminate.
  - vm_compute. reflexivity.
Defined.

(** *** Transitions and selection together *)

(** X10.  Completing a task unlocks its dependents: in an aggregate with
    unique ids, a pending task other than the completed one, each of whose
    dependencies is the completed id or resolves to a done task, is ready in
    the aggregate [completeTask] returns. *)
Theorem completeTask_unlocks data id s d' t :
  uniqueIds (p_tasks data) ->
  completeTask data id s = Ret d' ->
  t ∈ p_tasks data -> t_status t = Pending -> t_id t <> id ->
  (forall d, d ∈ t_deps t ->
     d = id \/ exists u, buildIndex (p_tasks data) !! d = Some u /\
                         t_status u = Done) ->
  t ∈ p_tasks d' /\ ready (p_tasks d') t.
Proof.
  intros Hnd Hc Ht Hp Hne Hdeps. unfold completeTask in Hc.
  destruct (buildIndex (p_tasks data) !! id) as [old|] eqn:Eold; [|discriminate].
  injection Hc as <-. simpl.
  set (F := fun x : TaskEntry =>
              if decide (t_id x = id) then withStatusSummary x Done s else x).
  assert (HFt : F t = t) by (unfold F; rewrite decide_False by assumption;
                             reflexivity).
  split.
  - rewrite <- HFt. apply list_elem_of_fmap. eauto.
  - split; [assumption|]. intros d Hd.
    assert (HFid : forall x, t_id (F x) = t_id x)
      by (intros x; unfold F; case_decide; reflexivity).
    rewrite (buildIndex_map F _ d HFid).
    destruct (Hdeps d Hd) as [->|(u & Hu & Hdone)].
    + rewrite Eold. simpl. eexists. split; [reflexivity|].
      apply buildIndex_lookup_elem in Eold as [_ Hid].
      unfold F. rewrite decide_True by assumption. reflexivity.
    + rewrite Hu. simpl. eexists. split; [reflexivity|].
      unfold F. case_decide; [reflexivity|assumption].
Qed.

Lemma completeTask_unlocks_witness :
  let t := Examples.task Examples.i002 Pending [Examples.i001] in
  let d' := mkProgress (js "test") Running None
              [withStatusSummary (Examples.task Examples.i001 Active [])
                                 Done (js "ok"); t] in
  t ∈ p_tasks d' /\ ready (p_tasks d') t.
Proof.
  intros t d'.
  apply (completeTask_unlocks
           (Examples.prog [Examples.task Examples.i001 Active []; t])
           Examples.i001 (js "ok") d' t).
  - unfold uniqueIds. simpl. apply NoDup_cons. split.
    + intros H. apply list_elem_of_singleton in H. discriminate H.
    + apply NoDup_singleton.
  - vm_compute. reflexivity.
  - simpl. apply list_elem_of_In. simpl. auto.
  - reflexivity.
  - discriminate.
  - intros d Hd. left. apply list_elem_of_singleton in Hd. exact Hd.
Defined.

(** X11.  A task that has used up its retries dooms its dependents: when
    [failTask] answers skip, every pending task of the new aggregate that
    lists the failed id among its dependencies is skipped, with the fixed
    summary, by the next [cascadeSkip]. *)
Theorem failTask_dooms_dependents data id d' i t :
  failTask data id = Ret (Skip, d') ->
  p_tasks d' !! i = Some t -> t_status t = Pending -> id ∈ t_deps t ->
  cascadeSkip (p_tasks d') !! i = Some (skipT t).
Proof.
  intros Hf Hi Hp Hd. unfold failTask in Hf.
  destruct (buildIndex (p_tasks data) !! id) as [old|] eqn:Eold; [|discriminate].
  destruct (3 <=? t_retries old + 1); [|discriminate].
  injection Hf as <-. simpl in *.
  set (F := fun x : TaskEntry =>
              if decide (t_id x = id)
              then withRetriesStatus x (t_retries old + 1) Failed else x) in *.
  assert (HFid : forall x, t_id (F x) = t_id x)
    by (intros x; unfold F; case_decide; reflexivity).
  assert (Hw : willSkip (map F (p_tasks data)) t).
  { apply (ws_direct _ t id (F old)); try assumption.
    - rewrite (buildIndex_map F _ id HFid), Eold. reflexivity.
    - left. apply buildIndex_lookup_elem in Eold as [_ Hid].
      unfold F. rewrite decide_True by assumption. reflexivity. }
  destruct (cascadeSkip_map (map F (p_tasks data))) as (G & -> & HG).
  rewrite list_lookup_fmap, Hi. simpl. f_equal.
  destruct (HG t (list_elem_of_lookup_2 _ _ _ Hi)) as [[_ ->]|[Hn _]];
    [reflexivity|contradiction].
Qed.

Lemma failTask_dooms_dependents_witness :
  let worn := mkTask Examples.i001 (js "a") [] General Active [] [] 2 in
  let t := Examples.task Examples.i002 Pending [Examples.i001] in
  cascadeSkip [withRetriesStatus worn 3 Failed; t] !! 1 = Some (skipT t).
Proof.
  intros worn t.
  apply (failTask_dooms_dependents (Examples.prog [worn; t]) Examples.i001
           (mkProgress (js "test") Running None
              [withRetriesStatus worn 3 Failed; t]) 1 t).
  - vm_compute. reflexivity.
  - reflexivity.
  - reflexivity.
  - simpl. apply list_elem_of_singleton. reflexivity.
Defined.

Lemma transitions_keep_shape_witness :
  let data := Examples.prog Examples.oneActive in
  let d' := mkProgress (js "test") Running None
              [withStatusSummary (Examples.task Examples.i001 Active [])
                                 Done (js "ok")] in
  (map shape (p_tasks d') = map shape (p_tasks data) /\
   p_name d' = p_name data) /\
  (length (p_tasks d') = length (p_tasks data) /\
   (uniqueIds (p_tasks data) -> uniqueIds (p_tasks d'))).
Proof.
  intros data d'.
  destruct (transitions_keep_shape data) as (_ & Hc & _ & _ & Hu).
  split.
  - apply (Hc Examples.i001 (js "ok") d'). vm_compute. reflexivity.
  - apply (Hu (p_tasks d')). reflexivity.
Defined.

Lemma findParallelTasks_correct_witness :
  let batch := [Examples.task Examples.i002 Pending [Examples.i001];
                Examples.task Examples.i003 Pending [Examples.i001]] in
  sublist batch Examples.fanOut /\
  (forall t, t ∈ batch <-> t ∈ Examples.fanOut /\ ready Examples.fanOut t) /\
  findNextTask Examples.fanOut = Ret (head batch) /\
  (forall t u, t ∈ batch -> u ∈ batch -> t_id u ∉ t_deps t).
Proof.
  intros batch.
  apply (proj2 (findParallelTasks_correct Examples.fanOut) batch).
  - unfold uniqueIds. simpl.
    repeat (apply NoDup_cons; split;
            [rewrite list_elem_of_In; simpl; intuition discriminate|]).
    apply NoDup_nil. exact I.
  - vm_compute. reflexivity.
Defined.
End StoreFacts.

(** ** The orchestrator: selection and the lock *)

Module PortFacts.
Import TaskStore IndexFacts Graph Selection CycleFacts SelectionFacts.
Import TransitionSpec TransitionFacts Service ServiceSpec StoreSpec StoreFacts.
Import PortSpec.

Lemma loadDepContexts_run deps parts r :
  loadDepContexts deps parts r
  = (Ret (parts ++ depParts (r_context r) deps),
     after r (r_progress r) (map EvLoadTaskContext deps)).
Proof.
  revert parts r. induction deps as [|d deps IH]; intros parts r.
  - simpl. unfold after. rewrite !app_nil_r. destruct r; reflexivity.
  - cbn [loadDepContexts depParts omap list_omap map].
    unfold mbind, M_bind, bind, loadTaskContext.
    fold (depParts (r_context r) deps).
    destruct (r_context r !! d) as [[|c cs]|] eqn:E; rewrite IH; simpl;
      unfold after, emit; simpl; rewrite <- ?app_assoc; reflexivity.
Qed.

Lemma startHooks_run tasks r :
  startHooks tasks r
  = (Ret tt, after r (r_progress r)
               (map (fun t => EvHook OnTaskStart (t_id t) (t_title t)) tasks)).
Proof.
  revert r. induction tasks as [|t tasks IH]; intros r.
  - simpl. unfold after. rewrite app_nil_r. destruct r; reflexivity.
  - cbn [startHooks map]. unfold mbind, M_bind, bind, runLifecycleHook.
    rewrite IH. unfold after, emit. simpl. rewrite <- app_assoc. reflexivity.
Qed.

Lemma batchContexts_run summary tasks results r :
  batchContexts summary tasks results r
  = (Ret (results ++
          map (fun t => (t, join separator
                              (truthyPart summary ++
                               depParts (r_context r) (t_deps t)))) tasks),
     after r (r_progress r)
           (concat (map (fun t => map EvLoadTaskContext (t_deps t)) tasks))).
Proof.
  revert results r. induction tasks as [|t tasks IH]; intros results r.
  - simpl. unfold after. rewrite !app_nil_r. destruct r; reflexivity.
  - cbn [batchContexts map concat]. unfold mbind, M_bind, bind.
    rewrite loadDepContexts_run, IH. unfold after. simpl.
    rewrite <- !app_assoc. reflexivity.
Qed.

(** What [next] does on a stored workflow, case by case. *)
Lemma next_unfold repo data :
  r_progress repo = Some data ->
  next repo =
    finally
      (if isAllDone (p_tasks data) then mret None
       else
         let active := activeTasks (p_tasks data) in
         if negb (Nat.eqb (length active) 0) then
           throw (EStillActive (length active) (map t_id active))
         else
           task ← lift (findNextTask (cascadeSkip (p_tasks data)));
           match task with
           | None => saveProgress (cascaded data);; mret None
           | Some task =>
               saveProgress (started data task);;
               runLifecycleHook OnTaskStart (t_id task) (t_title task);;
               summary ← loadSummary;
               parts ← loadDepContexts (t_deps task) (truthyPart summary);
               mret (Some (task, join separator parts))
           end)
      unlock (emit EvLoadProgress (emit EvLock repo)).
Proof.
  intros Hp. unfold next.
  unfold finally, mbind at 1, M_bind at 1, bind at 1, lock.
  unfold requireProgress, mbind at 1, M_bind at 1, bind at 1, loadProgress.
  unfold mbind at 1, M_bind at 1, bind at 1. cbv beta.
  change (r_progress (emit EvLock repo)) with (r_progress repo).
  rewrite Hp. reflexivity.
Qed.

Lemma no_active_length (tasks : list TaskEntry) :
  noneActive tasks <-> activeTasks tasks = [].
Proof.
  unfold noneActive, activeTasks. split.
  - intros H. apply filter_none. intros t Ht.
    apply bool_decide_eq_false. auto.
  - intros H t Ht Ha.
    assert (Hin : t ∈ List.filter (fun t => bool_decide (t_status t = Active))
                       tasks).
    { apply list_elem_of_In, filter_In.
      split; [apply list_elem_of_In; assumption|].
      apply bool_decide_eq_true. assumption. }
    rewrite H in Hin. inversion Hin.
Qed.

Lemma next_blocked repo data :
  r_progress repo = Some data -> activeTasks (p_tasks data) <> [] ->
  next repo =
    (Throw (EStillActive (length (activeTasks (p_tasks data)))
                         (map t_id (activeTasks (p_tasks data)))),
     readOnly repo).
Proof.
  intros Hp Ha. rewrite (next_unfold _ _ Hp).
  assert (Hd : isAllDone (p_tasks data) = false).
  { apply not_true_iff_false. intros Hd. apply Ha.
    apply filter_none. intros t Ht.
    apply (isAllDone_terminal _ _ Hd) in Ht.
    apply bool_decide_eq_false. intros E. rewrite E in Ht. discriminate. }
  rewrite Hd. cbv zeta.
  destruct (activeTasks (p_tasks data)) as [|a l] eqn:E; [contradiction|].
  cbn [length Nat.eqb negb]. unfold finally, throw, unlock, readOnly, emit.
  simpl. rewrite <- !app_assoc. reflexivity.
Qed.

Lemma next_none repo data :
  r_progress repo = Some data -> isAllDone (p_tasks data) = false ->
  activeTasks (p_tasks data) = [] ->
  findNextTask (cascadeSkip (p_tasks data)) = Ret None ->
  next repo =
    (Ret None,
     after repo (Some (cascaded data))
           [EvLock; EvLoadProgress; EvSaveProgress (cascaded data); EvUnlock]).
Proof.
  intros Hp Hd Ha Hf. rewrite (next_unfold _ _ Hp), Hd. cbv zeta.
  rewrite Ha, Hf. cbn [length Nat.eqb negb].
  unfold finally, lift, mbind, M_bind, bind, saveProgress, unlock, after, emit.
  simpl. rewrite <- !app_assoc. reflexivity.
Qed.

Lemma next_some repo data task :
  r_progress repo = Some data -> isAllDone (p_tasks data) = false ->
  activeTasks (p_tasks data) = [] ->
  findNextTask (cascadeSkip (p_tasks data)) = Ret (Some task) ->
  next repo =
    (Ret (Some (task, contextOf repo task)),
     after repo (Some (started data task))
       ([EvLock; EvLoadProgress; EvSaveProgress (started data task);
         EvHook OnTaskStart (t_id task) (t_title task); EvLoadSummary]
        ++ map EvLoadTaskContext (t_deps task) ++ [EvUnlock])).
Proof.
  intros Hp Hd Ha Hf. rewrite (next_unfold _ _ Hp), Hd. cbv zeta.
  rewrite Ha, Hf. cbn [length Nat.eqb negb].
  unfold finally, lift, mbind, M_bind, bind, saveProgress, runLifecycleHook,
    loadSummary.
  rewrite loadDepContexts_run. unfold after, emit, contextOf, unlock, emit.
  simpl. rewrite <- !app_assoc. reflexivity.
Qed.

Lemma next_no_workflow repo :
  r_progress repo = None -> next repo = (Throw ENoWorkflow, readOnly repo).
Proof.
  intros Hp. unfold next.
  unfold finally, mbind, M_bind, bind, lock, requireProgress.
  unfold mbind, M_bind, bind, loadProgress. simpl. rewrite Hp. simpl.
  unfold readOnly, emit. simpl. rewrite <- !app_assoc, Hp. reflexivity.
Qed.

(** What [nextBatch] does on a stored workflow, case by case. *)
Lemma nextBatch_unfold repo data :
  r_progress repo = Some data ->
  nextBatch repo =
    finally
      (if isAllDone (p_tasks data) then mret []
       else
         let active := activeTasks (p_tasks data) in
         if negb (Nat.eqb (length active) 0) then
           throw (EStillActive (length active) (map t_id active))
         else
           tasks ← lift (findParallelTasks (cascadeSkip (p_tasks data)));
           match tasks with
           | [] => saveProgress (cascaded data);; mret []
           | first :: _ =>
               saveProgress (startedBatch data first tasks);;
               startHooks tasks;;
               summary ← loadSummary;
               batchContexts summary tasks []
           end)
      unlock (emit EvLoadProgress (emit EvLock repo)).
Proof.
  intros Hp. unfold nextBatch.
  unfold finally, mbind at 1, M_bind at 1, bind at 1, lock.
  unfold requireProgress, mbind at 1, M_bind at 1, bind at 1, loadProgress.
  unfold mbind at 1, M_bind at 1, bind at 1. cbv beta.
  change (r_progress (emit EvLock repo)) with (r_progress repo).
  rewrite Hp. reflexivity.
Qed.

Lemma active_not_done (tasks : list TaskEntry) :
  activeTasks tasks <> [] -> isAllDone tasks = false.
Proof.
  intros Ha. apply not_true_iff_false. intros Hd. apply Ha.
  apply filter_none. intros t Ht.
  apply (isAllDone_terminal _ _ Hd) in Ht.
  apply bool_decide_eq_false. intros E. rewrite E in Ht. discriminate.
Qed.

Lemma nextBatch_blocked repo data :
  r_progress repo = Some data -> activeTasks (p_tasks data) <> [] ->
  nextBatch repo =
    (Throw (EStillActive (length (activeTasks (p_tasks data)))
                         (map t_id (activeTasks (p_tasks data)))),
     readOnly repo).
Proof.
  intros Hp Ha. rewrite (nextBatch_unfold _ _ Hp), (active_not_done _ Ha).
  cbv zeta.
  destruct (activeTasks (p_tasks data)) as [|a l] eqn:E; [contradiction|].
  cbn [length Nat.eqb negb]. unfold finally, throw, unlock, readOnly, emit.
  simpl. rewrite <- !app_assoc. reflexivity.
Qed.

Lemma nextBatch_none repo data :
  r_progress repo = Some data -> isAllDone (p_tasks data) = false ->
  activeTasks (p_tasks data) = [] ->
  findParallelTasks (cascadeSkip (p_tasks data)) = Ret [] ->
  nextBatch repo =
    (Ret [],
     after repo (Some (cascaded data))
           [EvLock; EvLoadProgress; EvSaveProgress (cascaded data); EvUnlock]).
Proof.
  intros Hp Hd Ha Hf. rewrite (nextBatch_unfold _ _ Hp), Hd. cbv zeta.
  rewrite Ha, Hf. cbn [length Nat.eqb negb].
  unfold finally, lift, mbind, M_bind, bind, saveProgress, unlock, after, emit.
  simpl. rewrite <- !app_assoc. reflexivity.
Qed.

Lemma nextBatch_some repo data first rest :
  r_progress repo = Some data -> isAllDone (p_tasks data) = false ->
  activeTasks (p_tasks data) = [] ->
  findParallelTasks (cascadeSkip (p_tasks data)) = Ret (first :: rest) ->
  nextBatch repo =
    (Ret (map (fun t => (t, contextOf repo t)) (first :: rest)),
     after repo (Some (startedBatch data first (first :: rest)))
       ([EvLock; EvLoadProgress;
         EvSaveProgress (startedBatch data first (first :: rest))]
        ++ map (fun t => EvHook OnTaskStart (t_id t) (t_title t))
               (first :: rest)
        ++ [EvLoadSummary]
        ++ concat (map (fun t => map EvLoadTaskContext (t_deps t))
                       (first :: rest))
        ++ [EvUnlock])).
Proof.
  intros Hp Hd Ha Hf. rewrite (nextBatch_unfold _ _ Hp), Hd. cbv zeta.
  rewrite Ha, Hf. cbn [length Nat.eqb negb].
  unfold finally, lift, mbind, M_bind, bind, saveProgress, loadSummary.
  rewrite startHooks_run. unfold after at 1 2. cbn [r_progress r_summary
    r_context r_trace emit].
  rewrite batchContexts_run. unfold after, emit, contextOf, unlock, emit.
  cbn [r_progress r_summary r_context r_trace snd app].
  rewrite <- !app_assoc. reflexivity.
Qed.

Lemma nextBatch_no_workflow repo :
  r_progress repo = None -> nextBatch repo = (Throw ENoWorkflow, readOnly repo).
Proof.
  intros Hp. unfold nextBatch.
  unfold finally, mbind, M_bind, bind, lock, requireProgress.
  unfold mbind, M_bind, bind, loadProgress. simpl. rewrite Hp. simpl.
  unfold readOnly, emit. simpl. rewrite <- !app_assoc, Hp. reflexivity.
Qed.

(** *** Refusals *)

(** X12.  Without a stored workflow [next] and [nextBatch] throw the
    no-workflow error; with one in which some task is active, they throw the
    still-active error, which carries the number of active tasks and their
    ids in stored order.  Either way the port was only locked, read and
    unlocked: nothing is saved and no task is handed out. *)
Theorem selection_refusals repo :
  (r_progress repo = None ->
   next repo = (Throw ENoWorkflow, readOnly repo) /\
   nextBatch repo = (Throw ENoWorkflow, readOnly repo)) /\
  (forall data,
     r_progress repo = Some data -> activeTasks (p_tasks data) <> [] ->
     let e := EStillActive (length (activeTasks (p_tasks data)))
                           (map t_id (activeTasks (p_tasks data))) in
     next repo = (Throw e, readOnly repo) /\
     nextBatch repo = (Throw e, readOnly repo)).
Proof.
  split.
  - intros Hp. split; [apply next_no_workflow|apply nextBatch_no_workflow];
      assumption.
  - intros data Hp Ha e. split; [apply next_blocked|apply nextBatch_blocked];
      assumption.
Qed.

Lemma selection_refusals_witness :
  let repo := Examples.repoOf Examples.twoActive in
  let e := EStillActive 2 [Examples.i001; Examples.i002] in
  next repo = (Throw e, readOnly repo) /\
  nextBatch repo = (Throw e, readOnly repo).
Proof.
  intros repo e.
  apply (proj2 (selection_refusals repo) (Examples.prog Examples.twoActive)).
  - reflexivity.
  - discriminate.
Defined.

(** *** Handing out a task *)


(** Making active the tasks picked by [P], in a sequence without active
    task, leaves exactly those active. *)
Lemma activate_filter (P : TaskEntry -> Prop) `{forall t, Decision (P t)}
    (l : list TaskEntry) :
  noneActive l ->
  activeTasks (map (fun t => if decide (P t) then withStatus t Active else t) l)
  = map (fun t => withStatus t Active) (filter P l).
Proof.
  unfold activeTasks. induction l as [|t l IH]; intros Hn; [reflexivity|].
  rewrite filter_cons. simpl.
  rewrite IH by (intros u Hu; apply Hn; set_solver).
  destruct (decide (P t)); simpl; [reflexivity|].
  rewrite bool_decide_eq_false_2 by (apply Hn; set_solver). reflexivity.
Qed.

Lemma filter_none_dec {A} (P : A -> Prop) `{forall x, Decision (P x)}
    (l : list A) :
  (forall x, x ∈ l -> ~ P x) -> filter P l = [].
Proof.
  induction l as [|x l IH]; intros Hn; [reflexivity|].
  rewrite filter_cons, decide_False by (apply Hn; set_solver).
  apply IH. intros; apply Hn; set_solver.
Qed.

Lemma filter_id_unique (l : list TaskEntry) task :
  NoDup (map t_id l) -> task ∈ l ->
  filter (fun t => t_id t = t_id task) l = [task].
Proof.
  induction l as [|t l IH]; intros Hnd Hin; [inversion Hin|].
  simpl in Hnd. apply NoDup_cons in Hnd as [Hnin Hnd].
  rewrite filter_cons.
  assert (Hrest : forall u, u ∈ l -> t_id u <> t_id t).
  { intros u Hu E. apply Hnin. rewrite <- E. apply list_elem_of_fmap. eauto. }
  apply elem_of_cons in Hin as [->|Hin].
  - rewrite decide_True by reflexivity. f_equal.
    apply filter_none_dec. assumption.
  - rewrite decide_False by (intros E; apply (Hrest task Hin); congruence).
    apply IH; assumption.
Qed.

Lemma cascadeSkip_keeps tasks :
  (uniqueIds tasks -> uniqueIds (cascadeSkip tasks)) /\
  (noneActive tasks -> noneActive (cascadeSkip tasks)) /\
  (noDangling tasks -> noDangling (cascadeSkip tasks)).
Proof.
  pose proof (cascadeSkip_shape tasks) as Hshape.
  assert (Hst : forall t, t ∈ cascadeSkip tasks ->
            exists t0, t0 ∈ tasks /\ shape t = shape t0 /\
              (t_status t = t_status t0 \/ t_status t = Skipped)).
  { intros t Ht. apply list_elem_of_lookup in Ht as [i Hi].
    apply cascadeSkip_status in Hi as (t0 & H0 & Hs & Hst).
    exists t0. split; [eapply list_elem_of_lookup_2; eassumption|].
    split; [assumption|]. destruct Hst as [?|[_ ?]]; auto. }
  split; [|split].
  - unfold uniqueIds. rewrite (shape_ids _ _ Hshape). auto.
  - intros Hact t Ht Ha. destruct (Hst t Ht) as (t0 & H0 & _ & [Hs|Hs]).
    + apply (Hact t0 H0). congruence.
    + congruence.
  - intros Hdang t d Ht Hd. destruct (Hst t Ht) as (t0 & H0 & Hs & _).
    rewrite (shape_ids _ _ Hshape). apply (Hdang t0 d H0).
    unfold shape in Hs. injection Hs as _ _ _ _ <-. assumption.
Qed.

(** What a call of [next] that returns a task has done. *)
Lemma next_task_inv repo task ctx r' :
  next repo = (Ret (Some (task, ctx)), r') ->
  exists data,
    r_progress repo = Some data /\
    activeTasks (p_tasks data) = [] /\
    findNextTask (cascadeSkip (p_tasks data)) = Ret (Some task) /\
    ctx = contextOf repo task /\
    r' = after repo (Some (started data task))
           ([EvLock; EvLoadProgress; EvSaveProgress (started data task);
             EvHook OnTaskStart (t_id task) (t_title task); EvLoadSummary]
            ++ map EvLoadTaskContext (t_deps task) ++ [EvUnlock]).
Proof.
  intros Hn. destruct (r_progress repo) as [data|] eqn:Hp.
  2: { rewrite (next_no_workflow _ Hp) in Hn. discriminate. }
  exists data. split; [reflexivity|].
  destruct (isAllDone (p_tasks data)) eqn:Hd.
  { rewrite (ServiceFacts.next_all_done _ _ Hp Hd) in Hn. discriminate. }
  destruct (activeTasks (p_tasks data)) as [|a l] eqn:Ha.
  2: { rewrite (next_blocked _ _ Hp) in Hn by (rewrite Ha; discriminate).
       discriminate. }
  split; [reflexivity|].
  destruct (findNextTask (cascadeSkip (p_tasks data))) as [[t|]|e|] eqn:Hf.
  - rewrite (next_some _ _ t Hp Hd Ha Hf) in Hn. injection Hn as -> <- <-.
    auto.
  - rewrite (next_none _ _ Hp Hd Ha Hf) in Hn. discriminate.
  - exfalso. rewrite (next_unfold _ _ Hp), Hd in Hn. cbv zeta in Hn.
    rewrite Ha, Hf in Hn. discriminate.
  - exfalso. destruct (findNextTask_cases (cascadeSkip (p_tasks data)))
      as [(_ & c & Hc & _)|(_ & r & Hr & _)]; congruence.
Qed.

Lemma findNextTask_selected tasks task :
  findNextTask tasks = Ret (Some task) ->
  task ∈ tasks /\ ready tasks task /\ firstReadyOf tasks (Some task).
Proof.
  intros Hf. destruct (findNextTask_cases tasks)
    as [(_ & c & Hc & _)|(_ & r & Hr & Hfirst)]; [congruence|].
  rewrite Hf in Hr. injection Hr as <-.
  pose proof Hfirst as (pre & post & E & Hready & _).
  split; [rewrite E; set_solver|]. split; assumption.
Qed.



Lemma started_active data task :
  noneActive (p_tasks data) -> task ∈ cascadeSkip (p_tasks data) ->
  activeTasks (p_tasks (started data task))
  = map (fun t => withStatus t Active)
        (filter (fun t => t_id t = t_id task) (cascadeSkip (p_tasks data))) /\
  withStatus task Active ∈ activeTasks (p_tasks (started data task)).
Proof.
  intros Hna Hin. unfold started. cbn [p_tasks].
  destruct (cascadeSkip_keeps (p_tasks data)) as (_ & Hna' & _).
  rewrite (activate_filter (fun t => t_id t = t_id task)) by (apply Hna', Hna).
  split; [reflexivity|].
  apply list_elem_of_fmap. exists task. split; [reflexivity|].
  apply list_elem_of_filter. auto.
Qed.

(** X14.  One task at a time: right after [next] has returned a task, a
    further [next] or [nextBatch] throws the still-active error, which names
    the id of that task, and leaves the port as it is; with unique ids it
    counts one active task. *)
Theorem next_then_next repo task ctx r1 :
  next repo = (Ret (Some (task, ctx)), r1) ->
  exists n ids,
    next r1 = (Throw (EStillActive n ids), readOnly r1) /\
    nextBatch r1 = (Throw (EStillActive n ids), readOnly r1) /\
    n = length ids /\ t_id task ∈ ids /\
    Forall (fun id => id = t_id task) ids /\
    (forall data, r_progress repo = Some data -> uniqueIds (p_tasks data) ->
                  ids = [t_id task]).
Proof.
  intros Hn. apply next_task_inv in Hn as (data & Hp & Ha & Hf & _ & ->).
  apply no_active_length in Ha.
  destruct (findNextTask_selected _ _ Hf) as (Hin & _ & _).
  destruct (started_active data task Ha Hin) as [Hact Hmem].
  set (r1 := after repo _ _).
  assert (Hp1 : r_progress r1 = Some (started data task)) by reflexivity.
  assert (Hne : activeTasks (p_tasks (started data task)) <> []).
  { intros E. rewrite E in Hmem. inversion Hmem. }
  exists (length (activeTasks (p_tasks (started data task)))),
         (map t_id (activeTasks (p_tasks (started data task)))).
  split; [apply (next_blocked _ _ Hp1 Hne)|].
  split; [apply (nextBatch_blocked _ _ Hp1 Hne)|].
  split; [rewrite length_map; reflexivity|].
  split; [apply list_elem_of_fmap; exists (withStatus task Active); auto|].
  split.
  - rewrite Hact, map_map. apply Forall_forall. intros id Hid.
    apply list_elem_of_fmap in Hid as (t & -> & Ht).
    apply list_elem_of_filter in Ht as [Ht _]. exact Ht.
  - intros data' Hp' Hnd. rewrite Hp in Hp'. injection Hp' as <-.
    rewrite Hact.
    destruct (cascadeSkip_keeps (p_tasks data)) as (Hu & _ & _).
    rewrite (filter_id_unique _ task (Hu Hnd) Hin). reflexivity.
Qed.

Lemma next_then_next_witness :
  let repo := Examples.repoOf Examples.fanOut in
  let task := Examples.task Examples.i002 Pending [Examples.i001] in
  exists r1 n ids,
    next repo = (Ret (Some (task, [])), r1) /\
    next r1 = (Throw (EStillActive n ids), readOnly r1) /\
    nextBatch r1 = (Throw (EStillActive n ids), readOnly r1) /\
    n = length ids /\ t_id task ∈ ids /\
    Forall (fun id => id = t_id task) ids /\
    (forall data, r_progress repo = Some data -> uniqueIds (p_tasks data) ->
                  ids = [t_id task]).
Proof.
  intros repo task. eexists.
  assert (H : next repo = (Ret (Some (task, [])), snd (next repo)))
    by (vm_compute; reflexivity).
  destruct (next_then_next repo task [] _ H) as (n & ids & Hrest).
  exists n, ids. split; [exact H|exact Hrest].
Defined.

(** X15.  No silent stall.  On a stored workflow with unique ids and no
    dangling dependency, when [next] returns [null], or [nextBatch] the
    empty batch, the stored tasks are the cascaded ones and every one of
    them is done, skipped or failed: an answer of nothing-to-do means the
    workflow is over. *)
Theorem nothing_to_do_means_finished repo data r' :
  r_progress repo = Some data ->
  uniqueIds (p_tasks data) -> noDangling (p_tasks data) ->
  next repo = (Ret None, r') \/ nextBatch repo = (Ret [], r') ->
  exists data',
    r_progress r' = Some data' /\
    p_tasks data' = cascadeSkip (p_tasks data) /\
    isAllDone (p_tasks data') = true.
Proof.
  intros Hp Hnd Hdang Hret.
  destruct (isAllDone (p_tasks data)) eqn:Hd.
  { exists data.
    assert (Hr : r' = readOnly repo).
    { destruct Hret as [H|H].
      - rewrite (ServiceFacts.next_all_done _ _ Hp Hd) in H. congruence.
      - rewrite (ServiceFacts.nextBatch_all_done _ _ Hp Hd) in H. congruence. }
    subst r'. split; [exact Hp|].
    split; [symmetry; apply done_cascade_noop|]; assumption. }
  destruct (activeTasks (p_tasks data)) as [|a l] eqn:Ha.
  2: { exfalso. destruct Hret as [H|H].
       - rewrite (next_blocked _ _ Hp) in H by (rewrite Ha; discriminate).
         discriminate.
       - rewrite (nextBatch_blocked _ _ Hp) in H by (rewrite Ha; discriminate).
         discriminate. }
  pose proof (proj2 (no_active_length _) Ha) as Hna.
  destruct (cascadeSkip_keeps (p_tasks data)) as (Hu & _ & _).
  assert (Hnone : findNextTask (cascadeSkip (p_tasks data)) = Ret None /\
                  r' = after repo (Some (cascaded data))
                         [EvLock; EvLoadProgress;
                          EvSaveProgress (cascaded data); EvUnlock]).
  { destruct Hret as [H|H].
    - destruct (findNextTask (cascadeSkip (p_tasks data))) as [[t|]|e|] eqn:Hf.
      + rewrite (next_some _ _ t Hp Hd Ha Hf) in H. discriminate.
      + rewrite (next_none _ _ Hp Hd Ha Hf) in H. split; congruence.
      + rewrite (next_unfold _ _ Hp), Hd in H. cbv zeta in H.
        rewrite Ha, Hf in H. discriminate.
      + rewrite (next_unfold _ _ Hp), Hd in H. cbv zeta in H.
        rewrite Ha, Hf in H. discriminate.
    - destruct (findParallelTasks (cascadeSkip (p_tasks data)))
        as [[|t b]|e|] eqn:Hf.
      + rewrite (nextBatch_none _ _ Hp Hd Ha Hf) in H.
        destruct (parallel_spec _ _ (Hu Hnd) Hf) as (_ & _ & _ & Hh & _).
        split; [exact Hh|congruence].
      + rewrite (nextBatch_some _ _ t b Hp Hd Ha Hf) in H. discriminate.
      + rewrite (nextBatch_unfold _ _ Hp), Hd in H. cbv zeta in H.
        rewrite Ha, Hf in H. discriminate.
      + rewrite (nextBatch_unfold _ _ Hp), Hd in H. cbv zeta in H.
        rewrite Ha, Hf in H. discriminate. }
  destruct Hnone as [Hf ->]. exists (cascaded data).
  split; [reflexivity|]. split; [reflexivity|].
  apply never_stalls; assumption.
Qed.

Lemma nothing_to_do_means_finished_witness :
  exists data',
    r_progress (snd (next (Examples.repoOf Examples.failedChain)))
    = Some data' /\
    p_tasks data' = cascadeSkip Examples.failedChain /\
    isAllDone (p_tasks data') = true.
Proof.
  apply (nothing_to_do_means_finished (Examples.repoOf Examples.failedChain)
           (Examples.prog Examples.failedChain)).
  - reflexivity.
  - unfold uniqueIds. simpl.
    repeat (apply NoDup_cons; split;
            [rewrite list_elem_of_In; simpl; intuition discriminate|]).
    apply NoDup_nil. exact I.
  - intros t d Ht Hd. apply list_elem_of_In. apply list_elem_of_In in Ht.
    simpl in Ht.
    destruct Ht as [<-|[<-|[<-|[]]]];
      apply list_elem_of_In in Hd; simpl in Hd;
      intuition (subst; simpl; auto).
  - left. vm_compute. reflexivity.
Defined.

(** *** Handing out a batch *)




(** *** The lock *)

Lemma calm_ret {A} (a : A) : calm (mret a).
Proof.
  intros r. exists (Ret a), r, []. rewrite app_nil_r.
  split; [reflexivity|]. split; [discriminate|]. split; [reflexivity|].
  constructor.
Qed.

Lemma calm_throw {A} (e : error) : calm (@throw A e).
Proof.
  intros r. exists (Throw e), r, []. rewrite app_nil_r.
  split; [reflexivity|]. split; [discriminate|]. split; [reflexivity|].
  constructor.
Qed.

Lemma calm_lift {A} (o : outcome A) : o <> Diverge -> calm (lift o).
Proof.
  intros Ho r. exists o, r, []. rewrite app_nil_r.
  split; [reflexivity|]. split; [assumption|]. split; [reflexivity|].
  constructor.
Qed.

Lemma calm_bind {A B} (m : M A) (k : A -> M B) :
  calm m -> (forall a, calm (k a)) -> calm (m ≫= k).
Proof.
  intros Hm Hk r. destruct (Hm r) as (o & r1 & e1 & E1 & D1 & T1 & F1).
  unfold mbind, M_bind, bind. rewrite E1. destruct o as [a|e|].
  - destruct (Hk a r1) as (o2 & r2 & e2 & E2 & D2 & T2 & F2).
    exists o2, r2, (e1 ++ e2). split; [assumption|]. split; [assumption|].
    split; [rewrite T2, T1, app_assoc; reflexivity|].
    apply Forall_app; split; assumption.
  - exists (Throw e), r1, e1. split; [reflexivity|]. split; [discriminate|].
    split; assumption.
  - contradiction.
Qed.

Lemma calm_step {A} (a : A) (f : Repo -> Repo) (e : event) :
  noLock e -> (forall r, r_trace (f r) = r_trace r ++ [e]) ->
  calm (fun r => (Ret a, f r)).
Proof.
  intros He Hf r. exists (Ret a), (f r), [e].
  split; [reflexivity|]. split; [discriminate|]. split; [apply Hf|].
  constructor; [assumption|constructor].
Qed.

Lemma calm_run {A} (m : M A) :
  (forall r, exists a evs,
     m r = (Ret a, after r (r_progress r) evs) /\ Forall noLock evs) ->
  calm m.
Proof.
  intros Hm r. destruct (Hm r) as (a & evs & E & F).
  exists (Ret a), (after r (r_progress r) evs), evs.
  split; [assumption|]. split; [discriminate|]. split; [reflexivity|].
  assumption.
Qed.

Lemma noLock_map {A} (f : A -> event) (l : list A) :
  (forall x, noLock (f x)) -> Forall noLock (map f l).
Proof.
  intros H. apply Forall_forall. intros e He.
  apply list_elem_of_fmap in He as (x & -> & _). apply H.
Qed.

Lemma calm_loadDepContexts deps parts : calm (loadDepContexts deps parts).
Proof.
  apply calm_run. intros r. eexists _, _.
  split; [apply loadDepContexts_run|].
  apply noLock_map. intros d. split; discriminate.
Qed.

Lemma calm_startHooks tasks : calm (startHooks tasks).
Proof.
  apply calm_run. intros r. eexists _, _.
  split; [apply startHooks_run|].
  apply noLock_map. intros d. split; discriminate.
Qed.

Lemma calm_batchContexts summary tasks results :
  calm (batchContexts summary tasks results).
Proof.
  apply calm_run. intros r. eexists _, _.
  split; [apply batchContexts_run|].
  apply Forall_forall. intros e He.
  apply list_elem_of_In, in_concat in He as (l & Hl & He).
  apply in_map_iff in Hl as (t & <- & _).
  apply in_map_iff in He as (d & <- & _). split; discriminate.
Qed.

Lemma calm_read {A} (f : Repo -> A) (e : event) :
  noLock e -> calm (fun r => (Ret (f r), emit e r)).
Proof.
  intros He. apply calm_run. intros r. exists (f r), [e].
  split; [reflexivity|]. constructor; [assumption|constructor].
Qed.

Ltac calm_prim :=
  match goal with
  | |- calm (saveProgress ?d) =>
      apply (calm_step tt _ (EvSaveProgress d));
      [split; discriminate|reflexivity]
  | |- calm (saveSummary ?d) =>
      apply (calm_step tt _ (EvSaveSummary d));
      [split; discriminate|reflexivity]
  | |- calm (saveTaskContext ?i ?d) =>
      apply (calm_step tt _ (EvSaveTaskContext i d));
      [split; discriminate|reflexivity]
  | |- calm (runLifecycleHook ?n ?i ?t) =>
      apply (calm_step tt _ (EvHook n i t));
      [split; discriminate|reflexivity]
  | |- calm (tag ?i) =>
      apply (calm_step tt _ (EvTag i)); [split; discriminate|reflexivity]
  | |- calm (loadTaskContext ?i) =>
      apply (calm_read (fun r => r_context r !! i) (EvLoadTaskContext i));
      split; discriminate
  | |- calm loadSummary =>
      apply (calm_read r_summary EvLoadSummary); split; discriminate
  | |- calm loadProgress =>
      apply (calm_read r_progress EvLoadProgress); split; discriminate
  | |- calm (mret _) => apply calm_ret
  | |- calm (ret ?a) => apply (calm_ret a)
  | |- calm (throw _) => apply calm_throw
  end.

Lemma calm_requireProgress : calm requireProgress.
Proof.
  apply calm_bind; [calm_prim|]. intros [d|]; calm_prim.
Qed.

Lemma findNextTask_returns tasks : findNextTask tasks <> Diverge.
Proof.
  destruct (findNextTask_cases tasks) as [(_ & c & -> & _)|(_ & r & -> & _)];
    discriminate.
Qed.

Lemma findParallelTasks_returns tasks : findParallelTasks tasks <> Diverge.
Proof.
  unfold findParallelTasks.
  destruct (detectCycles_spec (List.filter isPending tasks))
    as ([c|] & -> & _); discriminate.
Qed.

Lemma failTask_returns data id : failTask data id <> Diverge.
Proof.
  unfold failTask. destruct (_ !! id); [|discriminate].
  destruct (3 <=? _); discriminate.
Qed.

Lemma completeTask_returns data id s : completeTask data id s <> Diverge.
Proof. unfold completeTask. destruct (_ !! id); discriminate. Qed.

(** A calm body between [lock] and [unlock]. *)
Lemma locked_calm {A} (body : M A) :
  calm body ->
  forall r, exists o r',
    (lock;; finally body unlock) r = (o, r') /\ o <> Diverge /\ bracketed r r'.
Proof.
  intros Hb r. unfold mbind, M_bind, bind, lock, finally.
  destruct (Hb (emit EvLock r)) as (o & r1 & evs & E & D & T & F).
  rewrite E. exists o, (emit EvUnlock r1).
  split; [destruct o; [reflexivity|reflexivity|contradiction]|].
  split; [assumption|]. exists evs. split; [|assumption].
  simpl. rewrite T. simpl. rewrite <- !app_assoc. reflexivity.
Qed.

Lemma calm_next_body :
  calm (data ← requireProgress;
        if isAllDone (p_tasks data) then mret None
        else
          let active := activeTasks (p_tasks data) in
          if negb (Nat.eqb (length active) 0) then
            throw (EStillActive (length active) (map t_id active))
          else
            let cascaded := cascadeSkip (p_tasks data) in
            task ← lift (findNextTask cascaded);
            match task with
            | None =>
                saveProgress (mkProgress (p_name data) (p_status data)
                                         (p_current data) cascaded);;
                mret None
            | Some task =>
                let activated :=
                  map (fun t => if decide (t_id t = t_id task)
                                then withStatus t Active else t) cascaded in
                saveProgress (mkProgress (p_name data) (p_status data)
                                         (Some (t_id task)) activated);;
                runLifecycleHook OnTaskStart (t_id task) (t_title task);;
                summary ← loadSummary;
                parts ← loadDepContexts (t_deps task) (truthyPart summary);
                mret (Some (task, join separator parts))
            end).
Proof.
  apply calm_bind; [apply calm_requireProgress|]. intros data.
  destruct (isAllDone _); [calm_prim|]. cbv zeta.
  destruct (negb _); [calm_prim|].
  apply calm_bind; [apply calm_lift, findNextTask_returns|].
  intros [task|].
  - apply calm_bind; [calm_prim|]. intros _.
    apply calm_bind; [calm_prim|]. intros _.
    apply calm_bind; [calm_prim|]. intros summary.
    apply calm_bind; [apply calm_loadDepContexts|]. intros parts. calm_prim.
  - apply calm_bind; [calm_prim|]. intros _. calm_prim.
Qed.

Lemma calm_nextBatch_body :
  calm (data ← requireProgress;
        if isAllDone (p_tasks data) then mret []
        else
          let active := activeTasks (p_tasks data) in
          if negb (Nat.eqb (length active) 0) then
            throw (EStillActive (length active) (map t_id active))
          else
            let cascaded := cascadeSkip (p_tasks data) in
            tasks ← lift (findParallelTasks cascaded);
            match tasks with
            | [] =>
                saveProgress (mkProgress (p_name data) (p_status data)
                                         (p_current data) cascaded);;
                mret []
            | first :: _ =>
                let activeIds : gset jsstring :=
                  list_to_set (map t_id tasks) in
                let activated :=
                  map (fun t => if decide (t_id t ∈ activeIds)
                                then withStatus t Active else t) cascaded in
                saveProgress (mkProgress (p_name data) (p_status data)
                                         (Some (t_id first)) activated);;
                startHooks tasks;;
                summary ← loadSummary;
                batchContexts summary tasks []
            end).
Proof.
  apply calm_bind; [apply calm_requireProgress|]. intros data.
  destruct (isAllDone _); [calm_prim|]. cbv zeta.
  destruct (negb _); [calm_prim|].
  apply calm_bind; [apply calm_lift, findParallelTasks_returns|].
  intros [|first rest].
  - apply calm_bind; [calm_prim|]. intros _. calm_prim.
  - apply calm_bind; [calm_prim|]. intros _.
    apply calm_bind; [apply calm_startHooks|]. intros _.
    apply calm_bind; [calm_prim|]. intros summary.
    apply calm_batchContexts.
Qed.

Section lock_facts.
Context (ext : Externals).

Lemma calm_loadContexts tasks acc : calm (loadContexts tasks acc).
Proof.
  revert acc. induction tasks as [|t tasks IH]; intros acc; simpl.
  - calm_prim.
  - apply calm_bind; [calm_prim|]. intros ctx. apply IH.
Qed.

Lemma calm_checkpoint_body id detail files :
  calm (data ← requireProgress;
        match List.find (fun t => bool_decide (t_id t = id)) (p_tasks data) with
        | None => throw (ETaskNotFound id)
        | Some task => checkpointBody ext data id detail files task
        end).
Proof.
  apply calm_bind; [apply calm_requireProgress|]. intros data.
  destruct (List.find _ _) as [task|]; [|calm_prim].
  unfold checkpointBody.
  destruct (negb _); [calm_prim|].
  destruct (bool_decide (detail = sentinelFailed)).
  - apply calm_bind.
    { apply calm_bind; [calm_prim|]. intros ctx. calm_prim. }
    intros _. apply calm_bind.
    { apply calm_bind; [calm_prim|]. intros ctx. calm_prim. }
    intros warn. apply calm_bind; [apply calm_lift, failTask_returns|].
    intros [res d']. apply calm_bind; [calm_prim|]. intros _. calm_prim.
  - destruct (bool_decide (trim detail = [])); [calm_prim|]. cbv zeta.
    apply calm_bind; [apply calm_lift, completeTask_returns|]. intros d'.
    apply calm_bind; [calm_prim|]. intros _. unfold afterComplete.
    apply calm_bind; [calm_prim|]. intros _.
    apply calm_bind.
    { apply calm_bind; [apply calm_loadContexts|]. intros ctxs. calm_prim. }
    intros _. apply calm_bind.
    { apply (calm_step _ _ (EvCommit id (t_title task)
                              (slice0 80 (firstLine detail)) files));
        [split; discriminate|reflexivity]. }
    intros commitErr. apply calm_bind.
    { destruct commitErr as [[|c cs]|]; calm_prim. }
    intros _. apply calm_bind; [calm_prim|]. intros _. calm_prim.
Qed.

(** X17.  [next], [nextBatch] and [checkpoint] always come to an end, by a
    value or by an error, and never without having released the lock: the
    calls made to the port begin with [lock], end with [unlock], and take or
    release the lock nowhere in between. *)
Theorem lock_is_always_released repo id detail files :
  (exists o r', next repo = (o, r') /\ o <> Diverge /\ bracketed repo r') /\
  (exists o r', nextBatch repo = (o, r') /\ o <> Diverge /\
                bracketed repo r') /\
  (exists o r', checkpoint ext id detail files repo = (o, r') /\
                o <> Diverge /\ bracketed repo r').
Proof.
  split; [apply (locked_calm _ calm_next_body)|].
  split; [apply (locked_calm _ calm_nextBatch_body)|].
  apply (locked_calm _ (calm_checkpoint_body id detail files)).
Qed.


(** *** Checkpoint of a failed attempt, and checkpoint after next *)

Lemma body_failed_run data id files task res d' r :
  t_status task = Active -> failTask data id = Ret (res, d') ->
  let record := failureRecord ext (r_context r !! id) task sentinelFailed in
  let warn := failurePattern ext (Some record) task in
  checkpointBody ext data id sentinelFailed files task r
  = (Ret (match res with
          | Retry => MsgRetry id (t_retries task + 1) warn
          | Skip => MsgSkipped id warn
          end),
     mkRepo (Some d') (r_summary r) (<[id := record]> (r_context r))
            (r_trace r ++ [EvLoadTaskContext id; EvSaveTaskContext id record;
                           EvLoadTaskContext id; EvSaveProgress d'])).
Proof.
  intros Ha Hf record warn. unfold checkpointBody.
  rewrite (bool_decide_eq_true_2 _ Ha). cbn [negb].
  rewrite bool_decide_eq_true_2 by reflexivity.
  unfold appendFailureContext, detectFailurePattern, mbind, M_bind, bind,
    loadTaskContext, saveTaskContext, lift, saveProgress, emit.
  cbn [r_progress r_summary r_context r_trace]. rewrite Hf.
  rewrite lookup_insert_eq. fold record. fold warn.
  unfold mret, M_ret, ret. cbn [r_progress r_summary r_context r_trace].
  rewrite <- !app_assoc. reflexivity.
Qed.

(** X18.  A failed attempt.  On a stored workflow with unique ids,
    [checkpoint] of an active task with the word FAILED returns; it stores
    the aggregate in which that task has one more retry and is pending, or
    failed when the count has reached 3, with [current] cleared; the answer
    announces the retry with the number of the attempt, or the skip.  The
    summary is left as it is, and nothing is committed or tagged and no hook
    runs. *)
Theorem checkpoint_failed_attempt repo data t files :
  r_progress repo = Some data -> uniqueIds (p_tasks data) ->
  t ∈ p_tasks data -> t_status t = Active ->
  exists warn r' evs,
    checkpoint ext (t_id t) failedWord files repo
    = (Ret (if 3 <=? t_retries t + 1 then MsgSkipped (t_id t) warn
            else MsgRetry (t_id t) (t_retries t + 1) warn), r') /\
    r_progress r' =
      Some (mkProgress (p_name data) (p_status data) None
              (map (fun u => if decide (t_id u = t_id t) then failedOnce u
                             else u) (p_tasks data))) /\
    r_summary r' = r_summary repo /\
    r_trace r' = r_trace repo ++ evs /\ Forall quietEvent evs.
Proof.
  intros Hp Hnd Hin Ha.
  change failedWord with sentinelFailed.
  rewrite (ServiceFacts.checkpoint_unfold ext _ _ _ _ _ Hp).
  rewrite (find_unique _ _ Hnd), (buildIndex_unique _ _ Hnd Hin).
  pose proof (failTask_unique data t Hnd Hin) as Hf.
  rewrite (ServiceFacts.finally_unlock _ _ _ _
             (body_failed_run data (t_id t) files t _ _ _ Ha Hf))
    by discriminate.
  eexists _, _, _. split.
  - unfold failVerdict. destruct (3 <=? t_retries t + 1); reflexivity.
  - split; [reflexivity|]. split; [reflexivity|].
    split; [simpl; rewrite <- !app_assoc; reflexivity|].
    repeat (constructor; [exact I|]). constructor.
Qed.

End lock_facts.

Lemma checkpoint_failed_attempt_witness :
  let repo := Examples.repoOf Examples.oneActive in
  let t := Examples.task Examples.i001 Active [] in
  exists warn r' evs,
    checkpoint Examples.silent Examples.i001 failedWord None repo
    = (Ret (MsgRetry Examples.i001 1 warn), r') /\
    r_progress r' =
      Some (mkProgress (js "test") Running None
              [withRetriesStatus t 1 Pending]) /\
    r_summary r' = r_summary repo /\
    r_trace r' = r_trace repo ++ evs /\ Forall quietEvent evs.
Proof.
  intros repo t.
  apply (checkpoint_failed_attempt Examples.silent repo
           (Examples.prog Examples.oneActive) t None).
  - reflexivity.
  - apply NoDup_singleton.
  - apply list_elem_of_singleton. reflexivity.
  - reflexivity.
Defined.

Lemma find_started (l : list TaskEntry) task :
  task ∈ l ->
  exists u,
    List.find (fun t => bool_decide (t_id t = t_id task))
      (map (fun t => if decide (t_id t = t_id task) then withStatus t Active
                     else t) l) = Some u /\
    t_status u = Active.
Proof.
  induction l as [|x l IH]; intros Hin; [inversion Hin|]. simpl.
  destruct (decide (t_id x = t_id task)) as [E|E].
  - simpl. rewrite (bool_decide_eq_true_2 _ E). eauto.
  - rewrite (bool_decide_eq_false_2 _ E). apply IH.
    apply elem_of_cons in Hin as [->|Hin]; [contradiction|assumption].
Qed.

Lemma settled_none_active (l : list TaskEntry) id (G : TaskEntry -> TaskEntry) :
  noneActive l -> (forall t, t_status (G t) <> Active) ->
  noneActive
    (map (fun t => if decide (t_id t = id) then G t else t)
       (map (fun t => if decide (t_id t = id) then withStatus t Active else t)
            l)).
Proof.
  intros Hna HG u Hu. rewrite map_map in Hu.
  apply list_elem_of_fmap in Hu as (x & -> & Hx).
  destruct (decide (t_id x = id)) as [E|E]; simpl.
  - rewrite decide_True by assumption. apply HG.
  - rewrite decide_False by assumption. apply Hna, Hx.
Qed.

Lemma failTask_result data id res d' :
  failTask data id = Ret (res, d') ->
  p_current d' = None /\
  exists r st, (st = Pending \/ st = Failed) /\
    p_tasks d' = map (fun t => if decide (t_id t = id)
                               then withRetriesStatus t r st else t)
                     (p_tasks data).
Proof.
  unfold failTask. destruct (_ !! id) as [old|]; [|discriminate].
  destruct (3 <=? _); intros [= <- <-]; (split; [reflexivity|]);
    eexists _, _; (split; [|reflexivity]); auto.
Qed.

Section after_next.
Context (ext : Externals).

(** X19.  Selection and checkpoint alternate.  A task that [next] has just
    returned can be checkpointed: [checkpoint] with its id and a detail
    that is not blank returns; the progress then stored has [current]
    cleared and no active task, so that [next] can be called again; the
    tasks with that id are done, or, when the detail is the word FAILED,
    pending or failed. *)
Theorem checkpoint_after_next repo task ctx r1 detail files :
  next repo = (Ret (Some (task, ctx)), r1) -> ~ blank detail ->
  exists msg r2 d2,
    checkpoint ext (t_id task) detail files r1 = (Ret msg, r2) /\
    r_progress r2 = Some d2 /\ p_current d2 = None /\
    noneActive (p_tasks d2) /\
    (forall u, u ∈ p_tasks d2 -> t_id u = t_id task ->
       if decide (detail = failedWord)
       then t_status u = Pending \/ t_status u = Failed
       else t_status u = Done).
Proof.
  intros Hn Hnb. apply next_task_inv in Hn as (data & Hp & Ha & Hf & _ & ->).
  apply no_active_length in Ha.
  destruct (findNextTask_selected _ _ Hf) as (Hin & _ & _).
  destruct (cascadeSkip_keeps (p_tasks data)) as (_ & Hna & _).
  specialize (Hna Ha).
  set (r1 := after repo _ _).
  assert (Hp1 : r_progress r1 = Some (started data task)) by reflexivity.
  rewrite (ServiceFacts.checkpoint_unfold ext _ _ _ _ _ Hp1).
  destruct (find_started _ task Hin) as (u & Hfind & Hact).
  unfold started at 1. cbn [p_tasks]. rewrite Hfind.
  assert (Hid : t_id task ∈ map t_id (p_tasks (started data task))).
  { unfold started. cbn [p_tasks]. rewrite map_map.
    apply list_elem_of_fmap. exists task. split; [|assumption].
    case_decide; reflexivity. }
  change failedWord with sentinelFailed.
  destruct (decide (detail = sentinelFailed)) as [Hd|Hd].
  - subst detail.
    destruct (ServiceFacts.failTask_present _ _ Hid) as (res & d' & Hfail).
    rewrite (ServiceFacts.finally_unlock _ _ _ _
               (body_failed_run ext _ _ files u _ _ _ Hact Hfail))
      by discriminate.
    apply failTask_result in Hfail as (Hcur & r & st & Hst & Ht).
    eexists _, _, d'. split; [reflexivity|]. split; [reflexivity|].
    split; [assumption|]. rewrite Ht. unfold started. cbn [p_tasks]. split.
    + apply settled_none_active; [assumption|].
      intros t. simpl. destruct Hst; subst; discriminate.
    + intros x Hx Hxid. rewrite map_map in Hx.
      apply list_elem_of_fmap in Hx as (y & -> & _).
      destruct (decide (t_id y = t_id task)) as [E|E]; simpl in *.
      * rewrite decide_True by assumption. simpl.
        destruct Hst; subst; auto.
      * rewrite decide_False in Hxid |- * by assumption. contradiction.
  - assert (Htrim : trim detail <> [])
      by (intros E; apply Hnb, ServiceFacts.trim_blank, E).
    destruct (ServiceFacts.body_done ext _ _ detail files u
                (emit EvLoadProgress (emit EvLock r1)) Hact Hd Htrim Hid)
      as (msg & r2 & evs & E & P & _).
    rewrite (ServiceFacts.finally_unlock _ _ _ _ E) by discriminate.
    eexists msg, _, _. split; [reflexivity|]. split; [exact P|].
    split; [reflexivity|]. unfold completed, started. cbn [p_tasks]. split.
    + apply settled_none_active; [assumption|]. intros t. discriminate.
    + intros x Hx Hxid. rewrite map_map in Hx.
      apply list_elem_of_fmap in Hx as (y & -> & _).
      destruct (decide (t_id y = t_id task)) as [E'|E']; simpl in *.
      * rewrite decide_True by assumption. reflexivity.
      * rewrite decide_False in Hxid |- * by assumption. contradiction.
Qed.

End after_next.

Lemma checkpoint_after_next_witness :
  let repo := Examples.repoOf Examples.fanOut in
  let task := Examples.task Examples.i002 Pending [Examples.i001] in
  exists msg r2 d2,
    checkpoint Examples.silent Examples.i002 Examples.detailTwoLines None
               (snd (next repo)) = (Ret msg, r2) /\
    r_progress r2 = Some d2 /\ p_current d2 = None /\
    noneActive (p_tasks d2) /\
    (forall u, u ∈ p_tasks d2 -> t_id u = Examples.i002 ->
       t_status u = Done).
Proof.
  intros repo task.
  apply (checkpoint_after_next Examples.silent repo task []
           (snd (next repo)) Examples.detailTwoLines None).
  - vm_compute. reflexivity.
  - intros Hb. inversion Hb as [|c l Hc _]; subst.
    repeat (apply elem_of_cons in Hc as [Hc|Hc]; [discriminate Hc|]).
    inversion Hc.
Defined.

(** Without an active task, [next] and [nextBatch] do not throw the
    still-active error, nor the no-workflow one. *)
Lemma next_free repo data :
  r_progress repo = Some data -> activeTasks (p_tasks data) = [] ->
  forall e,
    fst (next repo) = Throw e \/ fst (nextBatch repo) = Throw e ->
    exists c, e = ECyclic c.
Proof.
  intros Hp Ha e He.
  destruct (isAllDone (p_tasks data)) eqn:Hd.
  { rewrite (ServiceFacts.next_all_done _ _ Hp Hd),
      (ServiceFacts.nextBatch_all_done _ _ Hp Hd) in He.
    destruct He; discriminate. }
  destruct He as [He|He].
  - destruct (findNextTask_cases (cascadeSkip (p_tasks data)))
      as [(_ & c & Hc & _)|(_ & r & Hr & _)].
    + rewrite (next_unfold _ _ Hp), Hd in He. cbv zeta in He.
      rewrite Ha, Hc in He. simpl in He. injection He as <-. eauto.
    + destruct r as [t|].
      * rewrite (next_some _ _ t Hp Hd Ha Hr) in He. discriminate.
      * rewrite (next_none _ _ Hp Hd Ha Hr) in He. discriminate.
  - destruct (findParallelTasks (cascadeSkip (p_tasks data)))
      as [[|t b]|e'|] eqn:Hf.
    + rewrite (nextBatch_none _ _ Hp Hd Ha Hf) in He. discriminate.
    + rewrite (nextBatch_some _ _ t b Hp Hd Ha Hf) in He. discriminate.
    + rewrite (nextBatch_unfold _ _ Hp), Hd in He. cbv zeta in He.
      rewrite Ha, Hf in He. simpl in He. injection He as <-.
      unfold findParallelTasks in Hf.
      destruct (detectCycles _) as [[c|]|]; try discriminate.
      injection Hf as <-. eauto.
    + exfalso. apply (findParallelTasks_returns _ Hf).
Qed.
End PortFacts.

(** ** The other use cases *)

Module LifecycleFacts.
Import TaskStore IndexFacts TransitionSpec TransitionFacts StoreSpec StoreFacts.
Import Numbers NumberFacts Lifecycle LifecycleSpec.

Ltac run_world :=
  unfold finally, mbind, L_bind, bind, lock, unlock, requireProgress,
    loadProgress, saveProgress, saveSummary, saveTasks, cleanup,
    cleanupInjections, cleanTags, ensureHooks, runFinishHook, clearAll,
    mret, L_ret, ret, throw;
  unfold mbind, L_bind, bind, loadProgress, log, logged, stored, locked;
  simpl.

(** *** init *)

Lemma imap_ids (defs : list TaskDefinition) i :
  map t_id (imap newTask defs) !! i = (fun _ => idAt i) <$> defs !! i.
Proof.
  change (map t_id ?l) with (t_id <$> l).
  rewrite list_lookup_fmap, list_lookup_imap.
  destruct (defs !! i); reflexivity.
Qed.

Lemma init_ids_unique (defs : list TaskDefinition) :
  uniqueIds (imap newTask defs).
Proof.
  unfold uniqueIds. apply NoDup_alt. intros i j x Hi Hj.
  rewrite imap_ids in Hi, Hj.
  destruct (defs !! i); [|discriminate]. destruct (defs !! j); [|discriminate].
  simpl in *. apply idAt_inj. congruence.
Qed.

(** X20.  [init] refuses, with the already-running error that names the
    stored workflow, exactly when a workflow is stored whose status is
    running and [force] is not set; then nothing is saved.  Otherwise it
    saves and returns a running workflow named as the definition says, with
    [current] cleared and one task per task of the definition, in order:
    pending, without summary or retries, with the title, description, type
    and dependencies of the definition, and with the position, counted from
    one, as its id, which [parseInt] reads back; the ids are unique.  It
    also saves the task file and a first summary. *)
Theorem init_starts_workflow out tasksMd force w :
  let refused :=
    exists e, w_progress w = Some e /\ p_status e = Running /\ force = false in
  let def := parse out tasksMd in
  (forall e, w_progress w = Some e -> p_status e = Running -> force = false ->
     init out tasksMd force w
     = (Fail (EAlreadyRunning (p_name e)),
        logged w [Port Service.EvLoadProgress])) /\
  (~ refused ->
   exists data w',
     init out tasksMd force w = (Ok data, w') /\
     w_progress w' = Some data /\ w_tasksMd w' = Some tasksMd /\
     w_summary w' = [35; 32]%N ++ wd_name def ++ [10; 10]%N
                    ++ wd_description def ++ [10]%N /\
     p_name data = wd_name def /\ p_status data = Running /\
     p_current data = None /\
     length (p_tasks data) = length (wd_tasks def) /\
     uniqueIds (p_tasks data) /\
     forall i d, wd_tasks def !! i = Some d ->
       exists t, p_tasks data !! i = Some t /\
         t_id t = makeTaskId (Some (Z.of_nat (i + 1))) /\
         parseInt (t_id t) = Some (Z.of_nat (i + 1)) /\
         t_status t = Pending /\ t_summary t = [] /\ t_retries t = 0 /\
         t_title t = td_title d /\ t_description t = td_description d /\
         t_type t = td_type d /\ t_deps t = td_deps d).
Proof.
  intros refused def. subst refused def. split.
  - intros e He Hr ->. unfold init, mbind, L_bind, bind, loadProgress.
    rewrite He. simpl. rewrite (bool_decide_eq_true_2 _ Hr). reflexivity.
  - intros Hnr.
    assert (Hgo : match w_progress w with
                  | Some e => bool_decide (p_status e = Running) && negb force
                  | None => false
                  end = false).
    { destruct (w_progress w) as [e|] eqn:He; [|reflexivity].
      apply not_true_iff_false. intros H. apply andb_true_iff in H as [H1 H2].
      apply bool_decide_eq_true in H1. apply negb_true_iff in H2.
      apply Hnr. exists e. auto. }
    unfold init, mbind, L_bind, bind, loadProgress. cbv zeta. rewrite Hgo.
    eexists _, _. split; [reflexivity|]. simpl.
    repeat (split; [reflexivity|]).
    split; [apply length_imap|]. split; [apply init_ids_unique|].
    intros i d Hd. exists (newTask i d).
    cbn [p_tasks]. rewrite list_lookup_imap, Hd.
    split; [reflexivity|]. split; [reflexivity|].
    split; [apply parseInt_idAt|]. repeat split.
Qed.

Lemma init_starts_workflow_witness :
  let out := mkOutside
               (fun _ => mkWorkflowDef (js "demo") (js "two tasks")
                           [mkTaskDef (js "a") [] General [];
                            mkTaskDef (js "b") [] Backend [js "001"]])
               (mkVerify true [] None) (fun _ => None) (fun _ _ _ => None)
               true in
  let w := mkWorld None [] ∅ None [] in
  exists data w',
    init out [] false w = (Ok data, w') /\
    w_progress w' = Some data /\ w_tasksMd w' = Some [] /\
    w_summary w' = [35; 32]%N ++ js "demo" ++ [10; 10]%N
                   ++ js "two tasks" ++ [10]%N /\
    p_name data = js "demo" /\ p_status data = Running /\
    p_current data = None /\
    length (p_tasks data) = 2 /\
    uniqueIds (p_tasks data) /\
    forall i d, [mkTaskDef (js "a") [] General [];
                 mkTaskDef (js "b") [] Backend [js "001"]] !! i = Some d ->
      exists t, p_tasks data !! i = Some t /\
        t_id t = makeTaskId (Some (Z.of_nat (i + 1))) /\
        parseInt (t_id t) = Some (Z.of_nat (i + 1)) /\
        t_status t = Pending /\ t_summary t = [] /\ t_retries t = 0 /\
        t_title t = td_title d /\ t_description t = td_description d /\
        t_type t = td_type d /\ t_deps t = td_deps d.
Proof.
  intros out w.
  apply (proj2 (init_starts_workflow out [] false w)).
  intros (e & He & _). discriminate He.
Defined.

(** *** add *)






(** *** skip *)

Lemma writeFirst_split id f (pre post : list TaskEntry) t :
  t_id t = id -> (forall u, u ∈ pre -> t_id u <> id) ->
  writeFirst id f (pre ++ t :: post) = pre ++ f t :: post.
Proof.
  intros Hid Hpre. induction pre as [|u pre IH]; simpl.
  - rewrite (bool_decide_eq_true_2 _ Hid). reflexivity.
  - rewrite bool_decide_eq_false_2 by (apply Hpre; set_solver).
    rewrite IH by (intros; apply Hpre; set_solver). reflexivity.
Qed.

Lemma skip_unfold id w data :
  w_progress w = Some data ->
  skip id w =
    finally
      (match List.find (fun t => bool_decide (t_id t = id)) (p_tasks data) with
       | None => throw (Raised (ETaskNotFound id))
       | Some task =>
           if bool_decide (t_status task = Done) then mret (SkipNotNeeded id)
           else
             saveProgress
               (mkProgress (p_name data) (p_status data) None
                  (writeFirst id
                     (fun t => withStatusSummary t Skipped manualSkip)
                     (p_tasks data)));;
             mret (SkipDone id (t_title task)
                            (bool_decide (t_status task = Active)))
       end)
      unlock
      (logged w [Port Service.EvLock; Port Service.EvLoadProgress]).
Proof.
  intros Hp. unfold skip.
  unfold finally, mbind at 1, L_bind at 1, bind at 1, lock.
  unfold requireProgress, mbind at 1, L_bind at 1, bind at 1, loadProgress.
  unfold mbind at 1, L_bind at 1, bind at 1. cbv beta.
  change (w_progress (log (Port Service.EvLock) w)) with (w_progress w).
  rewrite Hp. unfold logged, log. simpl. rewrite <- !app_assoc. reflexivity.
Qed.

(** X22.  [skip] throws the task-not-found error exactly when no task of
    the stored workflow has the id.  Otherwise it looks at the first task
    with the id: when that task is done, it answers that there is nothing
    to skip and saves nothing; when not, it stores the progress in which
    that one task is skipped, with the manual-skip summary, and [current] is
    cleared, every other task being kept; the answer tells whether the task
    was active. *)
Theorem skip_marks_first id w data :
  w_progress w = Some data ->
  (fst (skip id w) = Fail (Raised (ETaskNotFound id))
   <-> id ∉ map t_id (p_tasks data)) /\
  (forall pre t post,
     p_tasks data = pre ++ t :: post -> t_id t = id ->
     (forall u, u ∈ pre -> t_id u <> id) ->
     (t_status t = Done ->
      skip id w = (Ok (SkipNotNeeded id), logged w (locked []))) /\
     (t_status t <> Done ->
      let data' := mkProgress (p_name data) (p_status data) None
                     (pre ++ withStatusSummary t Skipped manualSkip :: post) in
      skip id w
      = (Ok (SkipDone id (t_title t) (bool_decide (t_status t = Active))),
         stored w data' (locked [Port (Service.EvSaveProgress data')])))).
Proof.
  intros Hp. rewrite (skip_unfold id w data Hp). split.
  - destruct (List.find _ (p_tasks data)) as [task|] eqn:Hfind.
    + assert (Hin : id ∈ map t_id (p_tasks data)).
      { apply find_some in Hfind as [Hin He].
        apply bool_decide_eq_true in He. subst id.
        apply list_elem_of_fmap. exists task.
        split; [reflexivity|apply list_elem_of_In; assumption]. }
      split; [|contradiction].
      destruct (bool_decide (t_status task = Done)); discriminate.
    + split; [|reflexivity]. intros _.
      apply ServiceFacts.find_None_ids. assumption.
  - intros pre t post Hsplit Hid Hpre.
    assert (Hfind : List.find (fun t => bool_decide (t_id t = id))
                      (p_tasks data) = Some t).
    { apply ServiceFacts.find_firstWithId. exists pre, post. auto. }
    rewrite Hfind. split.
    + intros Hd. rewrite (bool_decide_eq_true_2 _ Hd). run_world.
      rewrite <- !app_assoc. reflexivity.
    + intros Hd data'. rewrite (bool_decide_eq_false_2 _ Hd).
      rewrite Hsplit, (writeFirst_split _ _ _ _ _ Hid Hpre). run_world.
      rewrite <- !app_assoc. reflexivity.
Qed.

Lemma skip_marks_first_witness :
  let w := mkWorld (Some (Examples.prog Examples.fanOut)) [] ∅ None [] in
  let t := Examples.task Examples.i002 Pending [Examples.i001] in
  let data' := mkProgress (js "test") Running None
                 ([Examples.task Examples.i001 Done []]
                  ++ withStatusSummary t Skipped manualSkip
                  :: [Examples.task Examples.i003 Pending [Examples.i001]]) in
  skip Examples.i002 w
  = (Ok (SkipDone Examples.i002 (t_title t) false),
     stored w data' (locked [Port (Service.EvSaveProgress data')])).
Proof.
  intros w t data'.
  destruct (skip_marks_first Examples.i002 w (Examples.prog Examples.fanOut)
              eq_refl) as [_ H].
  apply (H [Examples.task Examples.i001 Done []] t
           [Examples.task Examples.i003 Pending [Examples.i001]]).
  - reflexivity.
  - reflexivity.
  - intros u Hu. apply list_elem_of_singleton in Hu. subst u. discriminate.
  - discriminate.
Defined.

(** *** resume *)

(** X23.  [resume] saves nothing when no workflow is stored or when the
    stored one is idle, completed or finishing.  Otherwise it stores what
    [resumeProgress] returns, in which no task is active, and calls the git
    clean-up exactly when there is a reset id; the answer names that id, or
    says that work continues, with the count of done tasks and the total.
    After it, [next] and [nextBatch] can throw no error but the
    cyclic-dependency one. *)
Theorem resume_resets_active w :
  (w_progress w = None ->
   resume w = (Ok ResumeNoWorkflow, logged w [Port Service.EvLoadProgress])) /\
  (forall data,
     w_progress w = Some data ->
     (p_status data = Idle \/ p_status data = Completed \/
      p_status data = Finishing ->
      exists msg,
        resume w = (Ok msg, logged w [Port Service.EvLoadProgress])) /\
     (p_status data = Running \/ p_status data = Aborted ->
      let newData := fst (resumeProgress data) in
      let resetId := snd (resumeProgress data) in
      let w' := stored w newData
                  ([Port Service.EvLoadProgress;
                    Port (Service.EvSaveProgress newData)]
                   ++ if truthy resetId then [Cleanup] else []) in
      resume w
      = (Ok (if truthy resetId
             then ResumeReset (p_name newData) (doneCount (p_tasks newData))
                              (length (p_tasks newData)) (default [] resetId)
             else ResumeContinue (p_name newData)
                                 (doneCount (p_tasks newData))
                                 (length (p_tasks newData))), w') /\
      noneActive (p_tasks newData) /\
      forall e,
        fst (Service.next (repoOf w')) = Throw e \/
        fst (Service.nextBatch (repoOf w')) = Throw e ->
        exists c, e = ECyclic c)).
Proof.
  split.
  - intros Hp. unfold resume. run_world. rewrite Hp. reflexivity.
  - intros data Hp. split.
    + intros Hs. unfold resume. run_world. rewrite Hp.
      destruct Hs as [Hs|[Hs|Hs]]; rewrite Hs; eexists; reflexivity.
    + intros Hs newData resetId w'.
      destruct (resumeProgress_clears_active_helper data) as (_ & Hna).
      split; [|split; [exact Hna|]].
      * subst w' newData resetId. unfold resume. run_world. rewrite Hp.
        destruct (resumeProgress data) as [nd rid].
        destruct Hs as [Hs|Hs]; rewrite Hs; simpl;
          destruct (truthy rid); simpl; rewrite <- ?app_assoc; reflexivity.
      * apply (PortFacts.next_free (repoOf w') newData); [reflexivity|].
        apply PortFacts.no_active_length. exact Hna.
Qed.

Lemma resume_resets_active_witness :
  let w := mkWorld (Some (Examples.prog Examples.twoActive)) [] ∅ None [] in
  let newData := fst (resumeProgress (Examples.prog Examples.twoActive)) in
  let w' := stored w newData
              [Port Service.EvLoadProgress;
               Port (Service.EvSaveProgress newData); Cleanup] in
  resume w = (Ok (ResumeReset (js "test") 1 3 Examples.i001), w') /\
  noneActive (p_tasks newData) /\
  forall e,
    fst (Service.next (repoOf w')) = Throw e \/
    fst (Service.nextBatch (repoOf w')) = Throw e ->
    exists c, e = ECyclic c.
Proof.
  intros w newData w'.
  apply (proj2 (proj2 (resume_resets_active w)
                  (Examples.prog Examples.twoActive) eq_refl)).
  left. reflexivity.
Defined.

(** *** review and finish *)

Section finish_facts.
Context (out : Outside).

Lemma finish_no_workflow w :
  w_progress w = None ->
  finish out w
  = (Fail (Raised ENoWorkflow), logged w [Port Service.EvLoadProgress]).
Proof. intros Hp. unfold finish. run_world. rewrite Hp. reflexivity. Qed.

Lemma finish_early w data :
  w_progress w = Some data ->
  p_status data = Idle \/ p_status data = Completed \/
  isAllDone (p_tasks data) = false ->
  exists o, finish out w = (o, logged w [Port Service.EvLoadProgress]).
Proof.
  intros Hp H. unfold finish. run_world. rewrite Hp.
  destruct (bool_decide (p_status data = Idle)
            || bool_decide (p_status data = Completed)) eqn:E.
  - eexists; reflexivity.
  - destruct H as [H|[H|H]].
    + rewrite (bool_decide_eq_true_2 _ H) in E. discriminate.
    + rewrite (bool_decide_eq_true_2 _ H), orb_true_r in E. discriminate.
    + rewrite H. eexists; reflexivity.
Qed.

Lemma finish_gated w data :
  w_progress w = Some data ->
  p_status data <> Idle -> p_status data <> Completed ->
  isAllDone (p_tasks data) = true ->
  v_passed (verifyAnswer out) = false \/ p_status data <> Finishing ->
  exists o,
    finish out w = (o, logged w [Port Service.EvLoadProgress; Verify]).
Proof.
  intros Hp Hi Hc Hd H. unfold finish. run_world. rewrite Hp.
  rewrite (bool_decide_eq_false_2 _ Hi), (bool_decide_eq_false_2 _ Hc), Hd.
  unfold verify, log. simpl.
  destruct (v_passed (verifyAnswer out)) eqn:Hv; simpl.
  - destruct H as [H|H]; [discriminate|].
    rewrite (bool_decide_eq_false_2 _ H). simpl. rewrite <- !app_assoc.
    eexists; reflexivity.
  - rewrite <- !app_assoc. eexists; reflexivity.
Qed.

Lemma finish_commit w data :
  w_progress w = Some data -> p_status data = Finishing ->
  isAllDone (p_tasks data) = true -> v_passed (verifyAnswer out) = true ->
  let answer := finalCommitAnswer out finishWord (finalTitle data)
                                  (finalSummary data) in
  finish out w
  = (Ok (match answer with
         | Some (c :: cs) =>
             FinishCommitFailed (v_scripts (verifyAnswer out))
                                (statsText (p_tasks data)) (c :: cs)
         | _ => FinishCommitted (v_scripts (verifyAnswer out))
                                (statsText (p_tasks data))
         end),
     if truthy answer then logged w (finalCalls data)
     else mkWorld None [] ∅ None (w_calls w ++ finalCalls data ++ [ClearAll])).
Proof.
  intros Hp Hs Hd Hv answer. unfold finish. run_world. rewrite Hp, Hs, Hd.
  simpl. unfold verify, commit, log. simpl. rewrite Hv. simpl.
  change (statsText (p_tasks data) ++ 10%N :: 10%N :: titlesText (p_tasks data))
    with (finalSummary data).
  change (match p_name data with [] => defaultTitle | n => n end)
    with (finalTitle data).
  fold answer.
  destruct answer as [[|c cs]|]; simpl; rewrite <- !app_assoc; reflexivity.
Qed.

Lemma not_committed_short (calls : list call) :
  (forall c, c ∈ calls ->
     c = Port Service.EvLoadProgress \/ c = Verify) ->
  ~ committed calls /\ (ClearAll ∉ calls) /\
  forall d, Port (Service.EvSaveProgress d) ∉ calls.
Proof.
  intros H. split; [|split].
  - intros (i & t & s & f & Hin). destruct (H _ Hin); discriminate.
  - intros Hin. destruct (H _ Hin); discriminate.
  - intros d Hin. destruct (H _ Hin); discriminate.
Qed.

(** X24.  The two gates of [finish].  Whatever [finish] answers, it never
    saves a progress; it makes the final commit only for a stored workflow
    whose tasks are all done, skipped or failed, whose status is finishing
    (a review was recorded) and whose verification passed; it removes the
    store only after a final commit that went through; and when it does not
    remove the store, the stored progress is what it was. *)
Theorem finish_commits_behind_gates w o w' :
  finish out w = (o, w') ->
  exists calls,
    w_calls w' = w_calls w ++ calls /\
    (forall d, Port (Service.EvSaveProgress d) ∉ calls) /\
    (committed calls ->
     exists data,
       w_progress w = Some data /\ isAllDone (p_tasks data) = true /\
       p_status data = Finishing /\ v_passed (verifyAnswer out) = true) /\
    (ClearAll ∈ calls ->
     committed calls /\ w_progress w' = None /\
     exists title summary,
       Port (Service.EvCommit finishWord title summary None) ∈ calls /\
       truthy (finalCommitAnswer out finishWord title summary) = false) /\
    (ClearAll ∉ calls -> w_progress w' = w_progress w).
Proof.
  intros Hf.
  assert (Hshort : forall calls,
            w' = logged w calls ->
            (forall c, c ∈ calls ->
               c = Port Service.EvLoadProgress \/ c = Verify) ->
            exists calls,
              w_calls w' = w_calls w ++ calls /\
              (forall d, Port (Service.EvSaveProgress d) ∉ calls) /\
              (committed calls ->
               exists data,
                 w_progress w = Some data /\ isAllDone (p_tasks data) = true /\
                 p_status data = Finishing /\
                 v_passed (verifyAnswer out) = true) /\
              (ClearAll ∈ calls ->
               committed calls /\ w_progress w' = None /\
               exists title summary,
                 Port (Service.EvCommit finishWord title summary None) ∈ calls
                 /\ truthy (finalCommitAnswer out finishWord title summary)
                    = false) /\
              (ClearAll ∉ calls -> w_progress w' = w_progress w)).
  { intros calls -> Hc. destruct (not_committed_short calls Hc) as (H1 & H2 & H3).
    exists calls. split; [reflexivity|]. split; [assumption|].
    split; [intros H; contradiction|]. split; [intros H; contradiction|].
    reflexivity. }
  destruct (w_progress w) as [data|] eqn:Hp.
  2: { rewrite (finish_no_workflow w Hp) in Hf. injection Hf as _ <-.
       apply (Hshort [Port Service.EvLoadProgress]); [reflexivity|].
       intros c Hc. apply list_elem_of_singleton in Hc. auto. }
  destruct (decide (p_status data = Idle \/ p_status data = Completed \/
                    isAllDone (p_tasks data) = false)) as [He|He].
  { destruct (finish_early w data Hp He) as [o' Ho]. rewrite Ho in Hf.
    injection Hf as _ <-.
    apply (Hshort [Port Service.EvLoadProgress]); [reflexivity|].
    intros c Hc. apply list_elem_of_singleton in Hc. auto. }
  assert (Hi : p_status data <> Idle) by tauto.
  assert (Hc : p_status data <> Completed) by tauto.
  assert (Hd : isAllDone (p_tasks data) = true)
    by (destruct (isAllDone (p_tasks data)); tauto).
  destruct (decide (v_passed (verifyAnswer out) = false \/
                    p_status data <> Finishing)) as [Hg|Hg].
  { destruct (finish_gated w data Hp Hi Hc Hd Hg) as [o' Ho]. rewrite Ho in Hf.
    injection Hf as _ <-.
    apply (Hshort [Port Service.EvLoadProgress; Verify]); [reflexivity|].
    intros c Hin. apply elem_of_cons in Hin as [->|Hin]; [auto|].
    apply list_elem_of_singleton in Hin. auto. }
  assert (Hs : p_status data = Finishing)
    by (destruct (decide (p_status data = Finishing)); tauto).
  assert (Hv : v_passed (verifyAnswer out) = true)
    by (destruct (v_passed (verifyAnswer out)); tauto).
  rewrite (finish_commit w data Hp Hs Hd Hv) in Hf.
  assert (Hcommit : committed (finalCalls data)).
  { exists finishWord, (finalTitle data), (finalSummary data), None.
    unfold finalCalls. set_solver. }
  assert (Hnosave : forall (l : list call) d,
            (forall c, c ∈ l -> c ∈ finalCalls data \/ c = ClearAll) ->
            Port (Service.EvSaveProgress d) ∉ l).
  { intros l d Hl Hin. destruct (Hl _ Hin) as [H|H]; [|discriminate].
    unfold finalCalls in H.
    repeat (apply elem_of_cons in H as [H|H]; [discriminate|]).
    inversion H. }
  destruct (truthy _) eqn:Ht; injection Hf as _ <-.
  - exists (finalCalls data). split; [reflexivity|].
    split; [intros d; apply Hnosave; auto|].
    split; [intros _; exists data; auto|]. split.
    + intros Hin. exfalso. unfold finalCalls in Hin.
      repeat (apply elem_of_cons in Hin as [Hin|Hin]; [discriminate|]).
      inversion Hin.
    + intros _. simpl. congruence.
  - exists (finalCalls data ++ [ClearAll]). split; [reflexivity|].
    split; [intros d; apply Hnosave; intros c Hin;
            apply elem_of_app in Hin as [Hin|Hin];
            [auto|apply list_elem_of_singleton in Hin; auto]|].
    assert (Hcommit' : committed (finalCalls data ++ [ClearAll])).
    { destruct Hcommit as (i & t & s & f & Hin). exists i, t, s, f.
      apply elem_of_app. auto. }
    split; [intros _; exists data; auto|]. split.
    + intros _. split; [assumption|]. split; [reflexivity|].
      exists (finalTitle data), (finalSummary data).
      split; [|assumption]. unfold finalCalls. set_solver.
    + intros Hn. exfalso. apply Hn. set_solver.
Qed.

End finish_facts.

Lemma finish_commits_behind_gates_witness :
  let out := mkOutside (fun _ => mkWorkflowDef [] [] [])
                       (mkVerify true [] None) (fun _ => None)
                       (fun _ _ _ => None) true in
  let data := mkProgress (js "test") Finishing None
                [Examples.task Examples.i001 Done []] in
  let w := mkWorld (Some data) [] ∅ None [] in
  exists calls,
    w_calls (snd (finish out w)) = w_calls w ++ calls /\
    (forall d, Port (Service.EvSaveProgress d) ∉ calls) /\
    (committed calls ->
     exists data,
       w_progress w = Some data /\ isAllDone (p_tasks data) = true /\
       p_status data = Finishing /\ v_passed (verifyAnswer out) = true) /\
    (ClearAll ∈ calls ->
     committed calls /\ w_progress (snd (finish out w)) = None /\
     exists title summary,
       Port (Service.EvCommit finishWord title summary None) ∈ calls /\
       truthy (finalCommitAnswer out finishWord title summary) = false) /\
    (ClearAll ∉ calls -> w_progress (snd (finish out w)) = w_progress w).
Proof.
  intros out data w.
  apply (finish_commits_behind_gates out w (fst (finish out w))).
  vm_compute. reflexivity.
Defined.

Section review_facts.
Context (out : Outside).


End review_facts.


(** *** rollback *)

Section rollback_facts.
Context (out : Outside).




End rollback_facts.


(** *** abort *)

(** X27.  [abort] does nothing when no workflow is stored.  Otherwise it
    saves the workflow with status aborted, removes the injected protocol
    and hooks, and then removes the store: no progress, summary, context or
    task file is left, so that [next] and [nextBatch] throw the no-workflow
    error and [resume] answers that there is no workflow. *)
Theorem abort_clears_store w :
  (w_progress w = None ->
   abort w = (Ok None, logged w [Port Service.EvLoadProgress])) /\
  (forall data,
     w_progress w = Some data ->
     let aborted := mkProgress (p_name data) Aborted (p_current data)
                               (p_tasks data) in
     let w' := mkWorld None [] ∅ None
                 (w_calls w ++ [Port Service.EvLoadProgress;
                                Port (Service.EvSaveProgress aborted);
                                CleanupInjections; ClearAll]) in
     abort w = (Ok (Some (p_name data)), w') /\
     fst (Service.next (repoOf w')) = Throw ENoWorkflow /\
     fst (Service.nextBatch (repoOf w')) = Throw ENoWorkflow /\
     fst (resume w') = Ok ResumeNoWorkflow).
Proof.
  split.
  - intros Hp. unfold abort. run_world. rewrite Hp. reflexivity.
  - intros data Hp aborted w'. split.
    + unfold abort. run_world. rewrite Hp. simpl. rewrite <- !app_assoc.
      reflexivity.
    + rewrite (PortFacts.next_no_workflow (repoOf w') eq_refl),
        (PortFacts.nextBatch_no_workflow (repoOf w') eq_refl).
      split; [reflexivity|]. split; reflexivity.
Qed.

Lemma abort_clears_store_witness :
  let w := mkWorld (Some (Examples.prog Examples.oneActive)) (js "s")
                   ∅ (Some (js "md")) [] in
  let aborted := mkProgress (js "test") Aborted None Examples.oneActive in
  let w' := mkWorld None [] ∅ None
              [Port Service.EvLoadProgress;
               Port (Service.EvSaveProgress aborted);
               CleanupInjections; ClearAll] in
  abort w = (Ok (Some (js "test")), w') /\
  fst (Service.next (repoOf w')) = Throw ENoWorkflow /\
  fst (Service.nextBatch (repoOf w')) = Throw ENoWorkflow /\
  fst (resume w') = Ok ResumeNoWorkflow.
Proof.
  intros w aborted w'.
  apply (proj2 (abort_clears_store w) (Examples.prog Examples.oneActive)
           eq_refl).
Defined.
End LifecycleFacts.
